(** * SpaceMusic: gesture-driven selection and manipulation engine

    A shallow embedding of the hand-tracking hook ([useHandTracking]), of the
    lock-acquisition frame of [SpaceScene] and of the grab / orbit frame of
    [SoundOrb], followed by the properties the specification states about
    them.

    JavaScript numbers are modelled by the real numbers of the Standard
    Library: [Math.sqrt] is [sqrt], [Math.PI] is [PI], [Math.min] and
    [Math.max] are [Rmin] and [Rmax].  Rounding, [NaN] and the infinities are
    outside the model; the one place where the source uses [Infinity] (the
    initial best score of the candidate search) is modelled by [None]. *)

From Stdlib Require Import Reals Lra Lia List String Ascii Bool ZArith.
From Equations Require Import Equations.
Import ListNotations.
Open Scope string_scope.
Open Scope R_scope.

(** ** JavaScript helpers *)

Module JS.

(** [a < b], [a > b], [a >= b] and [a <= b] on numbers, as booleans. *)
Definition ltb (a b : R) : bool := if Rlt_dec a b then true else false.
Definition gtb (a b : R) : bool := ltb b a.
Definition leb (a b : R) : bool := if Rle_dec a b then true else false.
Definition geb (a b : R) : bool := leb b a.

(** [v || d] where [v] is a number that may be missing: [undefined] and [0]
    are both falsy. *)
Definition orElse (v : option R) (d : R) : R :=
  match v with
  | Some r => if Req_dec_T r 0 then d else r
  | None => d
  end.

(** [Math.min(...xs)] and [Math.max(...xs)] on a spread array.  The source only
    spreads arrays of five elements; on the empty array JavaScript answers
    with an infinity, which the model does not have. *)
Definition Math_min (xs : list R) : R :=
  match xs with
  | [] => 0
  | a :: t => fold_left Rmin t a
  end.

Definition Math_max (xs : list R) : R :=
  match xs with
  | [] => 0
  | a :: t => fold_left Rmax t a
  end.

(** Truthiness of a string-or-null value: [null] and the empty string are
    falsy. *)
Definition truthy (v : option string) : bool :=
  match v with
  | Some s => negb (String.eqb s EmptyString)
  | None => false
  end.

(** [a || b] on string-or-null values. *)
Definition orStr (a b : option string) : option string :=
  if truthy a then a else b.

End JS.

(** Objects [{x, y, z}] and [{x, y}]. *)
Record Vec3 : Type := vec3 { vx : R; vy : R; vz : R }.
Record Vec2 : Type := vec2 { ux : R; uy : R }.

(** ** The hand-tracking hook (useHandTracking) *)

Module HandTracking.

(** One landmark of the detector, and one hand: [hand[i]] is [hand i].  The
    detector always delivers 21 landmarks; only indices up to 20 are read. *)
Definition Landmark : Type := Vec3.
Definition HandFrame : Type := nat -> Landmark.

Definition LERP_FACTOR : R := 0.35.
Definition LERP_FACTOR_DEPTH : R := 0.2.
Definition PINCH_THRESHOLD : R := 0.08.
Definition FIST_THRESHOLD : R := 0.12.
Definition MIN_HAND_SIZE : R := 0.10.
Definition MAX_HAND_SIZE : R := 0.40.

Definition lerp (current target factor : R) : R :=
  current + (target - current) * factor.

Definition distance3D (p1 p2 : Vec3) : R :=
  sqrt ((vx p1 - vx p2) ^ 2 + (vy p1 - vy p2) ^ 2 + (vz p1 - vz p2) ^ 2).

Definition distance2D (p1 p2 : Vec3) : R :=
  sqrt ((vx p1 - vx p2) ^ 2 + (vy p1 - vy p2) ^ 2).

(** Returns [(depth, size)]. *)
Definition calculateHandDepth (hand : HandFrame) : R * R :=
  let wrist := hand 0%nat in
  let middleTip := hand 12%nat in
  let handLength := distance2D wrist middleTip in
  let indexMCP := hand 5%nat in
  let pinkyMCP := hand 17%nat in
  let palmWidth := distance2D indexMCP pinkyMCP in
  let indexTip := hand 8%nat in
  let pinkyTip := hand 20%nat in
  let thumbTip := hand 4%nat in
  let allPoints := [wrist; middleTip; indexTip; pinkyTip; thumbTip] in
  let xs := map vx allPoints in
  let ys := map vy allPoints in
  let minX := JS.Math_min xs in
  let maxX := JS.Math_max xs in
  let minY := JS.Math_min ys in
  let maxY := JS.Math_max ys in
  let diagonal := sqrt ((maxX - minX) ^ 2 + (maxY - minY) ^ 2) in
  let combinedSize := (palmWidth * 2.5 + handLength * 0.8 + diagonal * 0.5) / 3 in
  let normalizedDepth :=
    1 - Rmin 1 (Rmax 0 ((combinedSize - MIN_HAND_SIZE) / (MAX_HAND_SIZE - MIN_HAND_SIZE))) in
  (normalizedDepth, combinedSize).

Definition calculatePinchDepthAdjustment (hand : HandFrame) : R :=
  let thumbTip := hand 4%nat in
  let indexTip := hand 8%nat in
  let pinchDist := distance2D thumbTip indexTip in
  let MIN_PINCH := 0.02 in
  let MAX_PINCH := 0.10 in
  Rmin 1 (Rmax 0 ((pinchDist - MIN_PINCH) / (MAX_PINCH - MIN_PINCH))).

(** [[a, b, c, d].filter(Boolean).length] *)
Definition countTrue (bs : list bool) : nat :=
  List.length (filter (fun b => b) bs).

Definition checkFist (hand : HandFrame) : bool :=
  let indexTip := hand 8%nat in
  let middleTip := hand 12%nat in
  let ringTip := hand 16%nat in
  let pinkyTip := hand 20%nat in
  let indexPIP := hand 6%nat in
  let middlePIP := hand 10%nat in
  let ringPIP := hand 14%nat in
  let pinkyPIP := hand 18%nat in
  let palmCenter := hand 9%nat in
  let indexCurled := JS.gtb (vy indexTip) (vy indexPIP - 0.02) in
  let middleCurled := JS.gtb (vy middleTip) (vy middlePIP - 0.02) in
  let ringCurled := JS.gtb (vy ringTip) (vy ringPIP - 0.02) in
  let pinkyCurled := JS.gtb (vy pinkyTip) (vy pinkyPIP - 0.02) in
  let indexToPalm := distance3D indexTip palmCenter in
  let middleToPalm := distance3D middleTip palmCenter in
  let ringToPalm := distance3D ringTip palmCenter in
  let pinkyToPalm := distance3D pinkyTip palmCenter in
  let tipsCloseToPalm :=
    JS.ltb indexToPalm 0.15 && JS.ltb middleToPalm 0.12 &&
    JS.ltb ringToPalm 0.15 && JS.ltb pinkyToPalm 0.18 in
  let tipsSpread := distance3D indexTip pinkyTip in
  let tipsCompact := JS.ltb tipsSpread 0.15 in
  let curledCount := countTrue [indexCurled; middleCurled; ringCurled; pinkyCurled] in
  (3 <=? curledCount)%nat && (tipsCloseToPalm || tipsCompact).

Definition expandRange (value center expansion : R) : R :=
  let offset := value - center in
  let expanded := center + offset * expansion in
  Rmax 0 (Rmin 1 expanded).

(** The React state and the refs of the hook that [processLandmarks] reads
    and writes. *)
Record Tracking : Type := mkTracking {
  handPosition : Vec3;
  isPinching : bool;
  isFist : bool;
  isTracking : bool;
  handVelocity : Vec2;
  handSize : R;
  lastPositionRef : Vec3;
  prevPositionRef : Vec2;
  lastHandSizeRef : R
}.

Definition initial : Tracking :=
  {| handPosition := vec3 0.5 0.5 0.5;
     isPinching := false;
     isFist := false;
     isTracking := false;
     handVelocity := vec2 0 0;
     handSize := 0.25;
     lastPositionRef := vec3 0.5 0.5 0.5;
     prevPositionRef := vec2 0.5 0.5;
     lastHandSizeRef := 0.25 |}.

(** The part of [processLandmarks] that runs when a hand is present. *)
Definition processHand (s : Tracking) (hand : HandFrame) : Tracking :=
  let thumbTip := hand 4%nat in
  let indexTip := hand 8%nat in
  let palmCenter := hand 9%nat in
  let isFistGesture := checkFist hand in
  let pinchDistance := distance3D thumbTip indexTip in
  let isPinch := negb isFistGesture && JS.ltb pinchDistance PINCH_THRESHOLD in
  let '(baseDepth, currentHandSize) := calculateHandDepth hand in
  let lastHandSize := lerp (lastHandSizeRef s) currentHandSize 0.1 in
  let finalDepth :=
    if isPinch
    then baseDepth * 0.7 + calculatePinchDepthAdjustment hand * 0.3
    else baseDepth in
  let targetX := if isPinch then (vx thumbTip + vx indexTip) / 2 else vx palmCenter in
  let targetY := if isPinch then (vy thumbTip + vy indexTip) / 2 else vy palmCenter in
  let expandedX := expandRange (1 - targetX) 0.5 1.5 in
  let expandedY := expandRange (1 - targetY) 0.5 1.5 in
  let smoothedPosition :=
    vec3 (lerp (vx (lastPositionRef s)) expandedX LERP_FACTOR)
         (lerp (vy (lastPositionRef s)) expandedY LERP_FACTOR)
         (lerp (vz (lastPositionRef s)) finalDepth LERP_FACTOR_DEPTH) in
  let velocity :=
    vec2 ((vx smoothedPosition - ux (prevPositionRef s)) * 20)
         ((vy smoothedPosition - uy (prevPositionRef s)) * 20) in
  {| handPosition := smoothedPosition;
     isPinching := isPinch;
     isFist := isFistGesture;
     isTracking := true;
     handVelocity :=
       vec2 (lerp (ux (handVelocity s)) (ux velocity) 0.5)
            (lerp (uy (handVelocity s)) (uy velocity) 0.5);
     handSize := lastHandSize;
     lastPositionRef := smoothedPosition;
     prevPositionRef := vec2 (vx smoothedPosition) (vy smoothedPosition);
     lastHandSizeRef := lastHandSize |}.

(** [processLandmarks(landmarks)]: [None] is a missing array, [Some []] the
    array of a frame without a hand. *)
Definition processLandmarks (s : Tracking) (landmarks : option (list HandFrame)) : Tracking :=
  match landmarks with
  | None | Some [] =>
      {| handPosition := handPosition s;
         isPinching := false;
         isFist := false;
         isTracking := false;
         handVelocity := vec2 0 0;
         handSize := handSize s;
         lastPositionRef := lastPositionRef s;
         prevPositionRef := prevPositionRef s;
         lastHandSizeRef := lastHandSizeRef s |}
  | Some (hand :: _) => processHand s hand
  end.

(** The detection loop: one call of [processLandmarks] per detector result. *)
Definition runDetection (s : Tracking) (results : list (option (list HandFrame))) : Tracking :=
  fold_left processLandmarks results s.

(** The fist condition in the words of the specification: at least three of
    the four non-thumb fingers are each both curled (fingertip not above its
    middle joint by the margin) and within their own maximum distance of the
    palm reference.  Margin and distances are the ones of [checkFist]. *)
Definition fingerFolded (hand : HandFrame) (tip pip : nat) (maxDist : R) : bool :=
  JS.gtb (vy (hand tip)) (vy (hand pip) - 0.02) &&
  JS.ltb (distance3D (hand tip) (hand 9%nat)) maxDist.

Definition specFist (hand : HandFrame) : bool :=
  (3 <=? countTrue [fingerFolded hand 8 6 0.15; fingerFolded hand 12 10 0.12;
                    fingerFolded hand 16 14 0.15; fingerFolded hand 20 18 0.18])%nat.

(** The values the cursor is smoothed toward for a given hand: the
    range-expanded, mirrored x and y and the final depth. *)
Definition cursorTarget (hand : HandFrame) : Vec3 :=
  let thumbTip := hand 4%nat in
  let indexTip := hand 8%nat in
  let palmCenter := hand 9%nat in
  let isPinch :=
    negb (checkFist hand) && JS.ltb (distance3D thumbTip indexTip) PINCH_THRESHOLD in
  let baseDepth := fst (calculateHandDepth hand) in
  vec3 (expandRange (1 - (if isPinch then (vx thumbTip + vx indexTip) / 2 else vx palmCenter)) 0.5 1.5)
       (expandRange (1 - (if isPinch then (vy thumbTip + vy indexTip) / 2 else vy palmCenter)) 0.5 1.5)
       (if isPinch then baseDepth * 0.7 + calculatePinchDepthAdjustment hand * 0.3 else baseDepth).

(** One smoothing step of the cursor toward a target. *)
Definition smoothToward (last target : Vec3) : Vec3 :=
  vec3 (lerp (vx last) (vx target) LERP_FACTOR)
       (lerp (vy last) (vy target) LERP_FACTOR)
       (lerp (vz last) (vz target) LERP_FACTOR_DEPTH).

(** The two geometric tests of [checkFist] as propositions: a finger is
    curled, and "at least three of four". *)
Definition curled (hand : HandFrame) (tip pip : nat) : Prop :=
  vy (hand tip) > vy (hand pip) - 0.02.

Definition atLeastThree (a b c d : Prop) : Prop :=
  (a /\ b /\ c) \/ (a /\ b /\ d) \/ (a /\ c /\ d) \/ (b /\ c /\ d).

(** The fist test of [checkFist] as a proposition: at least three of the
    four fingers are curled and, in addition, all four fingertips are within
    their distance of the palm reference or index tip and little-finger tip
    are together. *)
Definition fistGeometry (hand : HandFrame) : Prop :=
  atLeastThree (curled hand 8 6) (curled hand 12 10)
               (curled hand 16 14) (curled hand 20 18) /\
  ((distance3D (hand 8%nat) (hand 9%nat) < 0.15 /\
    distance3D (hand 12%nat) (hand 9%nat) < 0.12 /\
    distance3D (hand 16%nat) (hand 9%nat) < 0.15 /\
    distance3D (hand 20%nat) (hand 9%nat) < 0.18) \/
   distance3D (hand 8%nat) (hand 20%nat) < 0.15).

(** A cursor whose three coordinates lie in [0, 1]. *)
Definition inUnitCube (v : Vec3) : Prop :=
  0 <= vx v <= 1 /\ 0 <= vy v <= 1 /\ 0 <= vz v <= 1.

(** The invariant of the hook: the cursor it returns and the one it keeps in
    its ref are both in the unit cube. *)
Definition cursorsInUnitCube (s : Tracking) : Prop :=
  inUnitCube (handPosition s) /\ inUnitCube (lastPositionRef s).

(** Hands used as examples.  [closedHand] is a closed fist whose thumb
    touches the index finger; [threeFolded] has index, middle and ring finger
    folded onto the palm and the little finger stretched out sideways;
    [hoveringTips] has the four fingertips together, away from the palm. *)
Definition closedHand : HandFrame :=
  fun i =>
    match i with
    | 4%nat => vec3 0.50 0.56 0
    | 6%nat => vec3 0.46 0.50 0
    | 8%nat => vec3 0.47 0.55 0
    | 9%nat => vec3 0.50 0.50 0
    | 10%nat => vec3 0.50 0.49 0
    | 12%nat => vec3 0.50 0.55 0
    | 14%nat => vec3 0.53 0.50 0
    | 16%nat => vec3 0.53 0.55 0
    | 18%nat => vec3 0.56 0.51 0
    | 20%nat => vec3 0.56 0.55 0
    | 0%nat => vec3 0.50 0.70 0
    | 5%nat => vec3 0.46 0.51 0
    | 17%nat => vec3 0.56 0.52 0
    | _ => vec3 0.50 0.50 0
    end.

Definition threeFolded : HandFrame :=
  fun i =>
    match i with
    | 20%nat => vec3 0.90 0.50 0
    | _ => vec3 0.50 0.50 0
    end.

(** [closedHand] moved to the side of the image. *)
Definition sideHand : HandFrame :=
  fun i => vec3 (vx (closedHand i) + 0.3) (vy (closedHand i)) (vz (closedHand i)).

(** An open hand whose thumb touches the index finger. *)
Definition pinchingHand : HandFrame :=
  fun i =>
    match i with
    | 4%nat => vec3 0.50 0.22 0
    | 8%nat | 12%nat | 16%nat | 20%nat => vec3 0.50 0.20 0
    | _ => vec3 0.50 0.50 0
    end.

Definition hoveringTips : HandFrame :=
  fun i =>
    match i with
    | 8%nat | 12%nat | 16%nat | 20%nat => vec3 0.50 0.50 0.40
    | _ => vec3 0.50 0.50 0
    end.

(** The same hand somewhere else in the image: every landmark moved by [d]. *)
Definition translate (d : Vec3) (hand : HandFrame) : HandFrame :=
  fun i => vec3 (vx (hand i) + vx d) (vy (hand i) + vy d) (vz (hand i) + vz d).

(** A detector result without a hand. *)
Definition noHand (landmarks : option (list HandFrame)) : Prop :=
  landmarks = None \/ landmarks = Some [].

(** What the hook keeps besides the cursor: the previous cursor used for the
    velocity is the cursor itself, and both velocity components are within
    20 of zero. *)
Definition velocityBounded (s : Tracking) : Prop :=
  prevPositionRef s = vec2 (vx (handPosition s)) (vy (handPosition s)) /\
  handPosition s = lastPositionRef s /\
  -20 <= ux (handVelocity s) <= 20 /\
  -20 <= uy (handVelocity s) <= 20.

End HandTracking.

(** ** JavaScript objects used as maps

    [grabbedOrbs] is read through [Object.values] and [Object.entries(..)[0]],
    which follow the enumeration order of the keys, so an object is an
    association list with unique keys kept in that order. *)

Module Obj.

(** The entries in the order in which JavaScript enumerates them. *)
Definition t (V : Type) : Type := list (string * V).

(** [o[k]] *)
Fixpoint get {V : Type} (o : t V) (k : string) : option V :=
  match o with
  | [] => None
  | (k', v) :: rest => if String.eqb k' k then Some v else get rest k
  end.

(** A key that is an array index, the canonical decimal form of an integer
    below 2^32 - 1, is enumerated before every other key, in ascending
    numeric order; the other keys follow in the order of their creation. *)
Definition digitOf (c : ascii) : option N :=
  let n := N_of_ascii c in
  if ((48 <=? n) && (n <=? 57))%N then Some (n - 48)%N else None.

Fixpoint digitsValue (s : string) (acc : N) : option N :=
  match s with
  | EmptyString => Some acc
  | String c rest =>
      match digitOf c with
      | Some d => digitsValue rest (acc * 10 + d)%N
      | None => None
      end
  end.

Definition arrayIndex (k : string) : option N :=
  match k with
  | EmptyString => None
  | String c rest =>
      if Ascii.eqb c "0" && negb (String.eqb rest EmptyString) then None
      else
        match digitsValue k 0%N with
        | Some n => if (n <? 4294967295)%N then Some n else None
        | None => None
        end
  end.

(** Whether a new key [k] is enumerated before the existing key [k']. *)
Definition comesBefore (k k' : string) : bool :=
  match arrayIndex k, arrayIndex k' with
  | Some n, Some n' => (n <? n')%N
  | Some _, None => true
  | None, _ => false
  end.

Definition hasKey {V : Type} (o : t V) (k : string) : bool :=
  existsb (fun e => String.eqb (fst e) k) o.

(** An existing key keeps its place. *)
Fixpoint replace {V : Type} (o : t V) (k : string) (v : V) : t V :=
  match o with
  | [] => []
  | (k', v') :: rest =>
      if String.eqb k' k then (k, v) :: rest else (k', v') :: replace rest k v
  end.

(** A new key goes where the enumeration order puts it. *)
Fixpoint insertNew {V : Type} (o : t V) (k : string) (v : V) : t V :=
  match o with
  | [] => [(k, v)]
  | (k', v') :: rest =>
      if comesBefore k k' then (k, v) :: (k', v') :: rest
      else (k', v') :: insertNew rest k v
  end.

(** [{ ...o, [k]: v }] and [o[k] = v] *)
Definition set {V : Type} (o : t V) (k : string) (v : V) : t V :=
  if hasKey o k then replace o k v else insertNew o k v.

(** [delete o[k]] *)
Fixpoint delete {V : Type} (o : t V) (k : string) : t V :=
  match o with
  | [] => []
  | (k', v') :: rest =>
      if String.eqb k' k then rest else (k', v') :: delete rest k
  end.

(** [Object.keys(o)] and [Object.values(o)] *)
Definition keys {V : Type} (o : t V) : list string := map fst o.
Definition values {V : Type} (o : t V) : list V := map snd o.

End Obj.

(** ** The scene: candidate search, lock frame, orb frame *)

Module Scene.

(** Orb ids and player ids are strings. *)
Abbreviation OrbId := string (only parsing).
Abbreviation PlayerId := string (only parsing).

(** An orb of the application state.  The fields read through [||] with a
    default may be missing. *)
Record Orb : Type := mkOrb {
  id : OrbId;
  active : bool;
  position : Vec3;
  planetSize : option R;
  orbitRadius : option R;
  orbitOffset : option R;
  orbitSpeed : option R;
  tiltAngle : option R
}.

(** The three.js camera.  Its position is data; the projection of a world
    point to normalized device coordinates ([Vector3.project]) and the
    intersection of the cursor ray with the orbital plane
    ([Raycaster.setFromCamera] followed by [Ray.intersectPlane], [None] when
    the ray misses the plane) belong to three.js and are taken as given. *)
Record Camera : Type := mkCamera {
  cameraPosition : Vec3;
  project : Vec3 -> Vec3;
  intersectOrbitalPlane : R -> R -> option Vec3
}.

(** [a.distanceTo(b)] *)
Definition distanceTo (a b : Vec3) : R :=
  sqrt ((vx a - vx b) * (vx a - vx b) + (vy a - vy b) * (vy a - vy b) +
        (vz a - vz b) * (vz a - vz b)).

(** [a.lerp(b, alpha)] *)
Definition lerpVec (a b : Vec3) (alpha : R) : Vec3 :=
  vec3 (vx a + (vx b - vx a) * alpha)
       (vy a + (vy b - vy a) * alpha)
       (vz a + (vz b - vz a) * alpha).

(** [Math.atan2(y, x)] *)
Definition Math_atan2 (y x : R) : R :=
  if Rlt_dec 0 x then atan (y / x)
  else if Rlt_dec x 0 then
    (if Rle_dec 0 y then atan (y / x) + PI else atan (y / x) - PI)
  else if Rlt_dec 0 y then PI / 2
  else if Rlt_dec y 0 then - (PI / 2)
  else 0.

(** *** The application state (App) *)

Inductive CameraMode : Type := idle | dragging | camera.

Record Hand : Type := mkHand {
  hand_position : Vec3;
  hand_isPinching : bool;
  hand_isFist : bool
}.

Record Player : Type := mkPlayer {
  player_id : PlayerId;
  hands : list Hand
}.

Record App : Type := mkApp {
  orbs : list Orb;
  grabbedOrbs : Obj.t OrbId
}.

(** [players] in single-player mode. *)
Definition players (t : HandTracking.Tracking) : list Player :=
  if negb (HandTracking.isTracking t) then []
  else [ {| player_id := "player_0";
            hands := [ {| hand_position := HandTracking.handPosition t;
                          hand_isPinching := HandTracking.isPinching t;
                          hand_isFist := HandTracking.isFist t |} ] |} ].

Definition primaryHand (ps : list Player) : option Hand :=
  match ps with
  | p :: _ => match hands p with h :: _ => Some h | [] => None end
  | [] => None
  end.

(** [grabbedOrbId]: the value of the first entry of [grabbedOrbs]. *)
Definition firstGrabbed (g : Obj.t OrbId) : option OrbId :=
  match g with
  | (_, v) :: _ => Some v
  | [] => None
  end.

Definition setGrabbedOrbId (orbId : option OrbId) (playerId : PlayerId)
  (prev : Obj.t OrbId) : Obj.t OrbId :=
  match orbId with
  | None => Obj.delete prev playerId
  | Some o => Obj.set prev playerId o
  end.

Definition getCameraMode (ps : list Player) (g : Obj.t OrbId) (playerId : PlayerId) : CameraMode :=
  match find (fun p => String.eqb (player_id p) playerId) ps with
  | None => idle
  | Some player =>
      match hands player with
      | [] => idle
      | hand :: _ =>
          if JS.truthy (Obj.get g playerId) then dragging
          else if hand_isFist hand then camera
          else idle
      end
  end.

Definition updateOrbPosition (orbId : OrbId) (newPosition : Vec3) (prev : list Orb) : list Orb :=
  map (fun orb =>
         if String.eqb (id orb) orbId
         then {| id := id orb; active := active orb; position := newPosition;
                 planetSize := planetSize orb; orbitRadius := orbitRadius orb;
                 orbitOffset := orbitOffset orb; orbitSpeed := orbitSpeed orb;
                 tiltAngle := tiltAngle orb |}
         else orb) prev.

Definition toggleOrbActive (orbId : OrbId) (prev : list Orb) : list Orb :=
  map (fun orb =>
         if String.eqb (id orb) orbId
         then {| id := id orb; active := negb (active orb); position := position orb;
                 planetSize := planetSize orb; orbitRadius := orbitRadius orb;
                 orbitOffset := orbitOffset orb; orbitSpeed := orbitSpeed orb;
                 tiltAngle := tiltAngle orb |}
         else orb) prev.

(** The props [SpaceScene] receives from [App]. *)
Record Props : Type := mkProps {
  p_orbs : list Orb;
  p_grabbedOrbs : Obj.t OrbId;
  p_isTracking : bool;
  p_handPosition : Vec3;
  p_isPinching : bool;
  p_isFist : bool;
  p_cameraMode : CameraMode;
  p_grabbedOrbId : option OrbId
}.

(** The props as [App] computes them in single-player mode from its state
    and from what the tracking hook returned. *)
Definition appProps (a : App) (t : HandTracking.Tracking) : Props :=
  let ps := players t in
  let ph := primaryHand ps in
  {| p_orbs := orbs a;
     p_grabbedOrbs := grabbedOrbs a;
     p_isTracking := HandTracking.isTracking t;
     p_handPosition := match ph with Some h => hand_position h | None => vec3 0.5 0.5 0.5 end;
     p_isPinching := match ph with Some h => hand_isPinching h | None => false end;
     p_isFist := match ph with Some h => hand_isFist h | None => false end;
     p_cameraMode := getCameraMode ps (grabbedOrbs a) "player_0";
     p_grabbedOrbId := firstGrabbed (grabbedOrbs a) |}.

(** *** Candidate search (getClosestOrbForHand) *)

(** [visualPos || new THREE.Vector3(...orb.position)] *)
Definition orbPosOf (visual : Obj.t Vec3) (orb : Orb) : Vec3 :=
  match Obj.get visual (id orb) with
  | Some visualPos => visualPos
  | None => position orb
  end.

(** Distance on screen between the cursor and a projected point. *)
Definition screenDistance (handPos projected : Vec3) : R :=
  let screenX := (vx projected + 1) / 2 in
  let screenY := (vy projected + 1) / 2 in
  let dx := vx handPos - screenX in
  let dy := vy handPos - screenY in
  sqrt (dx * dx + dy * dy).

Definition selectionThreshold (orb : Orb) (distFromCamera : R) : R :=
  let planetSize := JS.orElse (planetSize orb) 0.5 in
  let baseThreshold := 0.20 in
  let sizeBonus := planetSize * 0.10 in
  let distanceFactor := Rmax 0.5 (20 / distFromCamera) in
  Rmin 0.35 (baseThreshold + sizeBonus) * distanceFactor.

(** [score < minScore], where [None] is the initial [Infinity]. *)
Definition belowScore (score : R) (minScore : option R) : bool :=
  match minScore with
  | None => true
  | Some m => JS.ltb score m
  end.

(** The body of [orbs.forEach]: the pair is [(closest, minScore)]. *)
Definition closestStep (cam : Camera) (visual : Obj.t Vec3) (handPos : Vec3)
  (excludeOrbIds : list OrbId) (acc : option OrbId * option R) (orb : Orb)
  : option OrbId * option R :=
  if negb (active orb) then acc
  else if existsb (String.eqb (id orb)) excludeOrbIds then acc
  else
    let orbPos := orbPosOf visual orb in
    let projected := project cam orbPos in
    if JS.gtb (vz projected) 1 || JS.ltb (vz projected) (-1) then acc
    else
      let screenDist := screenDistance handPos projected in
      let distFromCamera := distanceTo orbPos (cameraPosition cam) in
      if JS.geb screenDist (selectionThreshold orb distFromCamera) then acc
      else
        let depthPenalty := distFromCamera / 50 in
        let score := screenDist + depthPenalty in
        if belowScore score (snd acc) then (Some (id orb), Some score) else acc.

Definition getClosestOrbForHand (cam : Camera) (visual : Obj.t Vec3) (orbs : list Orb)
  (handPos : Vec3) (excludeOrbIds : list OrbId) : option OrbId :=
  fst (fold_left (closestStep cam visual handPos excludeOrbIds) orbs (None, None)).

(** What is known of an id the search has picked: it is the id of an active
    orb of the scene that is not excluded. *)
Definition picked (excludeOrbIds : list OrbId) (all : list Orb) (o : OrbId) : Prop :=
  exists orb, In orb all /\ id orb = o /\ active orb = true /\
              existsb (String.eqb (id orb)) excludeOrbIds = false.

(** *** The lock frame of SpaceScene *)

Definition LOCK_TIME : R := 250.
Definition unlockThreshold : R := 0.3.

Record LockRefs : Type := mkLockRefs {
  lockedOrbRef : option OrbId;
  lockCandidateRef : option OrbId;
  lockStartTimeRef : R;
  closestOrbRef : option OrbId
}.

Definition initialLock : LockRefs :=
  {| lockedOrbRef := None; lockCandidateRef := None;
     lockStartTimeRef := 0; closestOrbRef := None |}.

(** [a === b] on string-or-null values. *)
Definition sameId (a b : option OrbId) : bool :=
  match a, b with
  | Some x, Some y => String.eqb x y
  | None, None => true
  | _, _ => false
  end.

Definition isCameraMode (m : CameraMode) : bool :=
  match m with camera => true | _ => false end.

(** Both places where the lock is dropped do the same three assignments. *)
Definition releaseLock (currentClosest : option OrbId) (now : R) (l : LockRefs) : LockRefs :=
  {| lockedOrbRef := None;
     lockCandidateRef := currentClosest;
     lockStartTimeRef := now;
     closestOrbRef := closestOrbRef l |}.

Definition lockFrame (cam : Camera) (now : R) (visual : Obj.t Vec3) (p : Props)
  (l : LockRefs) : LockRefs :=
  let alreadyGrabbed := Obj.values (p_grabbedOrbs p) in
  let primaryHand := p_handPosition p in
  if JS.truthy (p_grabbedOrbId p) then
    {| lockedOrbRef := p_grabbedOrbId p;
       lockCandidateRef := None;
       lockStartTimeRef := lockStartTimeRef l;
       closestOrbRef := p_grabbedOrbId p |}
  else if negb (p_isTracking p) || isCameraMode (p_cameraMode p) then
    {| lockedOrbRef := None;
       lockCandidateRef := None;
       lockStartTimeRef := lockStartTimeRef l;
       closestOrbRef := None |}
  else
    let currentClosest :=
      getClosestOrbForHand cam visual (p_orbs p) primaryHand alreadyGrabbed in
    if JS.truthy (lockedOrbRef l) then
      let l1 :=
        match find (fun o => sameId (Some (id o)) (lockedOrbRef l)) (p_orbs p) with
        | Some lockedOrb =>
            if active lockedOrb then
              let orbPos := orbPosOf visual lockedOrb in
              let dist := screenDistance primaryHand (project cam orbPos) in
              if JS.gtb dist unlockThreshold
              then releaseLock currentClosest now l
              else l
            else releaseLock currentClosest now l
        | None => releaseLock currentClosest now l
        end in
      {| lockedOrbRef := lockedOrbRef l1;
         lockCandidateRef := lockCandidateRef l1;
         lockStartTimeRef := lockStartTimeRef l1;
         closestOrbRef := lockedOrbRef l1 |}
    else
      let l1 :=
        if JS.truthy currentClosest then
          if sameId currentClosest (lockCandidateRef l) then
            let hoverTime := now - lockStartTimeRef l in
            if JS.geb hoverTime LOCK_TIME then
              {| lockedOrbRef := currentClosest;
                 lockCandidateRef := None;
                 lockStartTimeRef := lockStartTimeRef l;
                 closestOrbRef := closestOrbRef l |}
            else l
          else
            {| lockedOrbRef := lockedOrbRef l;
               lockCandidateRef := currentClosest;
               lockStartTimeRef := now;
               closestOrbRef := closestOrbRef l |}
        else
          {| lockedOrbRef := lockedOrbRef l;
             lockCandidateRef := None;
             lockStartTimeRef := lockStartTimeRef l;
             closestOrbRef := closestOrbRef l |} in
      {| lockedOrbRef := lockedOrbRef l1;
         lockCandidateRef := lockCandidateRef l1;
         lockStartTimeRef := lockStartTimeRef l1;
         closestOrbRef := JS.orStr (lockedOrbRef l1) (lockCandidateRef l1) |}.

(** The four states of the specification, read off the refs and the grab. *)
Inductive LockState : Type :=
| UNLOCKED
| CANDIDATE (orb : OrbId)
| LOCKED (orb : OrbId)
| GRABBED (orb : OrbId).

(** A ref or prop that holds a falsy value counts as empty. *)
Definition held (v : option OrbId) : option OrbId :=
  if JS.truthy v then v else None.

Definition lockState (grabbedOrbId : option OrbId) (l : LockRefs) : LockState :=
  match held grabbedOrbId, held (lockedOrbRef l), held (lockCandidateRef l) with
  | Some g, _, _ => GRABBED g
  | None, Some o, _ => LOCKED o
  | None, None, Some c => CANDIDATE c
  | None, None, None => UNLOCKED
  end.

(** *** Orbital motion (SoundOrb) *)

Definition MIN_ORBIT_RADIUS : R := 2.0.
Definition MAX_ORBIT_RADIUS : R := 12.

(** [while (diff > Math.PI) diff -= Math.PI * 2] *)
Equations? wrapDown (diff : R) : R by wf (Z.to_nat (up ((diff - PI) / (2 * PI)))) lt :=
  wrapDown diff with Rgt_dec diff PI => {
    | left _ := wrapDown (diff - PI * 2);
    | right _ := diff }.
Proof.
  pose proof PI_RGT_0 as Hpi.
  replace ((diff - PI * 2 - PI) / (2 * PI)) with ((diff - PI) / (2 * PI) - 1)
    by (field; lra).
  set (q := (diff - PI) / (2 * PI)).
  assert (Hq : 0 < q) by (unfold q; apply Rdiv_lt_0_compat; lra).
  destruct (archimed q) as [Hup1 Hup2].
  assert (Hpred : up (q - 1) = (up q - 1)%Z).
  { symmetry. apply tech_up; rewrite minus_IZR; lra. }
  rewrite Hpred.
  assert (0 < up q)%Z by (apply lt_IZR; lra).
  lia.
Qed.

(** [while (diff < -Math.PI) diff += Math.PI * 2] *)
Equations? wrapUp (diff : R) : R by wf (Z.to_nat (up ((- PI - diff) / (2 * PI)))) lt :=
  wrapUp diff with Rlt_dec diff (- PI) => {
    | left _ := wrapUp (diff + PI * 2);
    | right _ := diff }.
Proof.
  pose proof PI_RGT_0 as Hpi.
  replace ((- PI - (diff + PI * 2)) / (2 * PI)) with ((- PI - diff) / (2 * PI) - 1)
    by (field; lra).
  set (q := (- PI - diff) / (2 * PI)).
  assert (Hq : 0 < q) by (unfold q; apply Rdiv_lt_0_compat; lra).
  destruct (archimed q) as [Hup1 Hup2].
  assert (Hpred : up (q - 1) = (up q - 1)%Z).
  { symmetry. apply tech_up; rewrite minus_IZR; lra. }
  rewrite Hpred.
  assert (0 < up q)%Z by (apply lt_IZR; lra).
  lia.
Qed.

(** The delta of [lerpAngle] after its two loops. *)
Definition normalizedDiff (current target : R) : R :=
  wrapUp (wrapDown (target - current)).

Definition lerpAngle (current target t : R) : R :=
  current + normalizedDiff current target * t.

(** [n] successive interpolation steps from [start] toward a fixed target. *)
Definition lerpAngleSteps (t target : R) (n : nat) (start : R) : R :=
  Nat.iter n (fun angle => lerpAngle angle target t) start.

(** The refs of one [SoundOrb]. *)
Record OrbRefs : Type := mkOrbRefs {
  orbitAngleRef : R;
  targetOrbitAngleRef : R;
  currentOrbitRadius : R;
  targetOrbitRadius : R;
  currentPosition : Vec3;
  targetPosition : Vec3;
  grabStartAngleOffset : R;
  wasGrabbed : bool
}.

(** The initial values of the refs when the component mounts. *)
Definition mountRefs (orb : Orb) : OrbRefs :=
  {| orbitAngleRef := JS.orElse (orbitOffset orb) 0;
     targetOrbitAngleRef := JS.orElse (orbitOffset orb) 0;
     currentOrbitRadius := JS.orElse (orbitRadius orb) 5;
     targetOrbitRadius := JS.orElse (orbitRadius orb) 5;
     currentPosition := position orb;
     targetPosition := position orb;
     grabStartAngleOffset := 0;
     wasGrabbed := false |}.

(** [Math.pow(v, 0.5)] is the square root. *)
Definition updatePlanetPosition (orb : Orb) (isGrabbed : bool) (delta : R)
  (r : OrbRefs) : OrbRefs :=
  let radiusLerpSpeed := if isGrabbed then 0.12 else 0.08 in
  let currentOrbitRadius' :=
    currentOrbitRadius r + (targetOrbitRadius r - currentOrbitRadius r) * radiusLerpSpeed in
  let targetOrbitAngle' :=
    if negb isGrabbed then
      let orbitSpeed := JS.orElse (orbitSpeed orb) 1 in
      let speedMultiplier := sqrt (5 / currentOrbitRadius') in
      targetOrbitAngleRef r + orbitSpeed * speedMultiplier * delta * 0.3
    else targetOrbitAngleRef r in
  let angleLerpSpeed := if isGrabbed then 0.2 else 0.15 in
  let orbitAngle' := lerpAngle (orbitAngleRef r) targetOrbitAngle' angleLerpSpeed in
  let radius := currentOrbitRadius' in
  let angle := orbitAngle' in
  let tilt := JS.orElse (tiltAngle orb) 0 in
  let targetPosition' :=
    vec3 (cos angle * radius) (sin tilt * sin angle * radius * 0.1) (sin angle * radius) in
  let posLerpSpeed := if isGrabbed then 0.25 else 0.1 in
  {| orbitAngleRef := orbitAngle';
     targetOrbitAngleRef := targetOrbitAngle';
     currentOrbitRadius := currentOrbitRadius';
     targetOrbitRadius := targetOrbitRadius r;
     currentPosition := lerpVec (currentPosition r) targetPosition' posLerpSpeed;
     targetPosition := targetPosition';
     grabStartAngleOffset := grabStartAngleOffset r;
     wasGrabbed := wasGrabbed r |}.

(** The [if (isGrabbed)] block of the frame, raycast version: the cursor ray
    is intersected with the orbital plane, and the hit point gives the target
    angle and the clamped target radius. *)
Definition clampedRadius (targetDist : R) : R :=
  Rmax MIN_ORBIT_RADIUS (Rmin MAX_ORBIT_RADIUS targetDist).

Definition grabbedTargets (cam : Camera) (handPosition : Vec3) (r : OrbRefs) : OrbRefs :=
  let ndcX := (vx handPosition - 0.5) * 2 in
  let ndcY := (vy handPosition - 0.5) * 2 in
  let targetPoint :=
    match intersectOrbitalPlane cam ndcX ndcY with
    | Some hit => hit
    | None => vec3 0 0 0
    end in
  let targetAngle := Math_atan2 (vz targetPoint) (vx targetPoint) in
  let targetDist := sqrt (vx targetPoint * vx targetPoint + vz targetPoint * vz targetPoint) in
  {| orbitAngleRef := orbitAngleRef r;
     targetOrbitAngleRef := targetAngle;
     currentOrbitRadius := currentOrbitRadius r;
     targetOrbitRadius := clampedRadius targetDist;
     currentPosition := currentPosition r;
     targetPosition := targetPosition r;
     grabStartAngleOffset := grabStartAngleOffset r;
     wasGrabbed := wasGrabbed r |}.



(** A camera used in examples: it stands at distance 20 from the point
    (4.5, 0, 0), projects every point to the centre of the screen, and its
    cursor ray always meets the orbital plane at (7, 0, 0). *)
Definition fixedHitCamera : Camera :=
  {| cameraPosition := vec3 4.5 12 16;
     project := fun _ => vec3 0 0 0;
     intersectOrbitalPlane := fun _ _ => Some (vec3 7 0 0) |}.

(** What a frame asks of [App]: the two callbacks a [SoundOrb] receives. *)
Inductive Action : Type :=
| SetGrabbedOrbId (orbId : option OrbId) (playerId : PlayerId)
| UpdateOrbPosition (orbId : OrbId) (newPosition : Vec3).

Definition setWasGrabbed (b : bool) (r : OrbRefs) : OrbRefs :=
  {| orbitAngleRef := orbitAngleRef r;
     targetOrbitAngleRef := targetOrbitAngleRef r;
     currentOrbitRadius := currentOrbitRadius r;
     targetOrbitRadius := targetOrbitRadius r;
     currentPosition := currentPosition r;
     targetPosition := targetPosition r;
     grabStartAngleOffset := grabStartAngleOffset r;
     wasGrabbed := b |}.

(** Grab and release detection of the frame: the refs after it and the
    callbacks it called, in order. *)
Definition grabDetection (p : Props) (l : LockRefs) (orb : Orb) (playerId : PlayerId)
  (r : OrbRefs) : OrbRefs * list Action :=
  let isGrabbed := sameId (p_grabbedOrbId p) (Some (id orb)) in
  let isLocked := sameId (lockedOrbRef l) (Some (id orb)) in
  let canGrab := isLocked || isGrabbed in
  if p_isTracking p && active orb then
    let '(r1, acts1) :=
      if p_isPinching p && canGrab && negb isGrabbed
      then (setWasGrabbed true r, [SetGrabbedOrbId (Some (id orb)) playerId])
      else (r, []) in
    if negb (p_isPinching p) && isGrabbed
    then (setWasGrabbed false r1,
          (acts1 ++ [SetGrabbedOrbId None playerId;
                     UpdateOrbPosition (id orb) (currentPosition r1)])%list)
    else (r1, acts1)
  else (r, []).

(** The frame callback of one mounted [SoundOrb]: the refs after it, the
    callbacks it called and the position it registered for the candidate
    search, if any.  What the callback does to the meshes is left out. *)
Definition soundOrbFrame (cam : Camera) (delta : R) (p : Props) (l : LockRefs)
  (orb : Orb) (playerId : PlayerId) (r : OrbRefs)
  : OrbRefs * list Action * option Vec3 :=
  let isGrabbed := sameId (p_grabbedOrbId p) (Some (id orb)) in
  if isCameraMode (p_cameraMode p) then
    (updatePlanetPosition orb isGrabbed delta r, [], None)
  else
    let '(r1, acts) := grabDetection p l orb playerId r in
    let r2 := if isGrabbed then grabbedTargets cam (p_handPosition p) r1 else r1 in
    let r3 := updatePlanetPosition orb isGrabbed delta r2 in
    (r3, acts, Some (currentPosition r3)).

(** *** One rendered frame of the whole scene *)

(** The mutable refs of the scene: the lock refs, the registry of visual
    positions and the refs of every mounted [SoundOrb], keyed by orb id. *)
Record Refs : Type := mkRefs {
  lock : LockRefs;
  orbVisualPositionsRef : Obj.t Vec3;
  soundOrbRefs : Obj.t OrbRefs
}.

Record World : Type := mkWorld {
  app : App;
  refs : Refs
}.

(** What the frame callbacks are given: the camera, the reading of
    [performance.now()], the time since the last frame, and the view mode of
    the store as of the last render, which decides what is mounted. *)
Record Env : Type := mkEnv {
  env_camera : Camera;
  env_now : R;
  env_delta : R;
  env_viewMode : string
}.

Definition refsOf (rs : Obj.t OrbRefs) (orb : Orb) : OrbRefs :=
  match Obj.get rs (id orb) with
  | Some r => r
  | None => mountRefs orb
  end.

(** The state updates of [App] behind the two callbacks. *)
Definition applyAction (a : App) (act : Action) : App :=
  match act with
  | SetGrabbedOrbId orbId playerId =>
      {| orbs := orbs a; grabbedOrbs := setGrabbedOrbId orbId playerId (grabbedOrbs a) |}
  | UpdateOrbPosition orbId newPosition =>
      {| orbs := updateOrbPosition orbId newPosition (orbs a); grabbedOrbs := grabbedOrbs a |}
  end.

(** The frame callbacks of the orbs, in the order of [orbs.map]; every
    [SoundOrb] is rendered with [playerId = 'player_0']. *)
Definition orbFramesStep (cam : Camera) (delta : R) (p : Props) (l : LockRefs)
  (acc : Obj.t Vec3 * Obj.t OrbRefs * list Action) (orb : Orb)
  : Obj.t Vec3 * Obj.t OrbRefs * list Action :=
  let '(visual, rs, acts) := acc in
  let '(r', acts', registered) :=
    soundOrbFrame cam delta p l orb "player_0" (refsOf rs orb) in
  (match registered with
   | Some pos => Obj.set visual (id orb) pos
   | None => visual
   end,
   Obj.set rs (id orb) r',
   (acts ++ acts')%list).

Definition orbFrames (cam : Camera) (delta : R) (p : Props) (l : LockRefs)
  (visual : Obj.t Vec3) (rs : Obj.t OrbRefs)
  : Obj.t Vec3 * Obj.t OrbRefs * list Action :=
  fold_left (orbFramesStep cam delta p l) (p_orbs p) (visual, rs, []).

(** The order in which the runtime calls the lock callback of the scene and
    the callbacks of the orbs is decided by the renderer, not by this
    repository; both orders are modelled. *)
Inductive FrameOrder : Type := LockFirst | OrbsFirst.

(** One frame of the default view, in which every orb has its [SoundOrb]
    mounted: the props are those of the last render, the callbacks run on the
    refs, and the state updates they asked for are applied in order. *)
Definition mountedFrame (order : FrameOrder) (env : Env) (t : HandTracking.Tracking)
  (w : World) : World :=
  let p := appProps (app w) t in
  let cam := env_camera env in
  match order with
  | LockFirst =>
      let l' := lockFrame cam (env_now env) (orbVisualPositionsRef (refs w)) p (lock (refs w)) in
      let '(visual', rs', acts) :=
        orbFrames cam (env_delta env) p l' (orbVisualPositionsRef (refs w))
                  (soundOrbRefs (refs w)) in
      {| app := fold_left applyAction acts (app w);
         refs := {| lock := l'; orbVisualPositionsRef := visual'; soundOrbRefs := rs' |} |}
  | OrbsFirst =>
      let '(visual', rs', acts) :=
        orbFrames cam (env_delta env) p (lock (refs w)) (orbVisualPositionsRef (refs w))
                  (soundOrbRefs (refs w)) in
      let l' := lockFrame cam (env_now env) visual' p (lock (refs w)) in
      {| app := fold_left applyAction acts (app w);
         refs := {| lock := l'; orbVisualPositionsRef := visual'; soundOrbRefs := rs' |} |}
  end.

(** One frame of any other view: [SpaceScene] renders its [SoundOrb]s only
    under [viewMode === 'default'], so none is mounted, the refs of the orbs
    have gone with their components, and the lock callback of the scene is
    the only one of the two that runs. *)
Definition hiddenFrame (env : Env) (t : HandTracking.Tracking) (w : World) : World :=
  let p := appProps (app w) t in
  {| app := app w;
     refs := {| lock := lockFrame (env_camera env) (env_now env)
                          (orbVisualPositionsRef (refs w)) p (lock (refs w));
                orbVisualPositionsRef := orbVisualPositionsRef (refs w);
                soundOrbRefs := [] |} |}.

(** One frame of the scene, in the view the store holds. *)
Definition sceneFrame (order : FrameOrder) (env : Env) (t : HandTracking.Tracking)
  (w : World) : World :=
  if String.eqb (env_viewMode env) "default"
  then mountedFrame order env t w
  else hiddenFrame env t w.

(** The scene as it starts: nothing grabbed, no lock, no ref written yet. *)
Definition initialWorld (orbs0 : list Orb) : World :=
  {| app := {| orbs := orbs0; grabbedOrbs := [] |};
     refs := {| lock := initialLock; orbVisualPositionsRef := []; soundOrbRefs := [] |} |}.

(** What can happen to the scene: a frame, in whatever view the store
    holds and with whatever the tracking hook currently returns; a click
    that toggles an orb; the switch between single-player and multiplayer
    mode, which empties [grabbedOrbs]. *)
Inductive step : World -> World -> Prop :=
| step_frame : forall order env t w,
    step w (sceneFrame order env t w)
| step_toggleOrbActive : forall orbId w,
    step w {| app := {| orbs := toggleOrbActive orbId (orbs (app w));
                        grabbedOrbs := grabbedOrbs (app w) |};
              refs := refs w |}
| step_toggleMultiplayer : forall w,
    step w {| app := {| orbs := orbs (app w); grabbedOrbs := [] |};
              refs := refs w |}.

Inductive reachable (orbs0 : list Orb) : World -> Prop :=
| reach_initial : reachable orbs0 (initialWorld orbs0)
| reach_step : forall w w', reachable orbs0 w -> step w w' -> reachable orbs0 w'.

(** A run of the lock callback over successive frames. *)
Record LockInput : Type := mkLockInput {
  li_camera : Camera;
  li_now : R;
  li_visual : Obj.t Vec3;
  li_props : Props
}.

Definition lockFrameOn (l : LockRefs) (i : LockInput) : LockRefs :=
  lockFrame (li_camera i) (li_now i) (li_visual i) (li_props i) l.

Definition lockFrames (l : LockRefs) (inputs : list LockInput) : LockRefs :=
  fold_left lockFrameOn inputs l.

(** The stored position of an orb, by id. *)
Definition storedPosition (orbs : list Orb) (orbId : OrbId) : option Vec3 :=
  option_map position (find (fun o => String.eqb (id o) orbId) orbs).

(** The callbacks one orb frame calls, as a function of the orb and of its
    refs. *)
Definition orbActions (p : Props) (l : LockRefs) (orb : Orb) (r : OrbRefs) : list Action :=
  if isCameraMode (p_cameraMode p) then []
  else snd (grabDetection p l orb "player_0" r).



(** The score of an orb in the candidate search, and what makes an orb
    eligible: active, not excluded, inside the depth range of the view, and
    closer to the cursor on screen than its selection threshold. *)
Definition scoreOf (cam : Camera) (visual : Obj.t Vec3) (handPos : Vec3) (orb : Orb) : R :=
  screenDistance handPos (project cam (orbPosOf visual orb)) +
  distanceTo (orbPosOf visual orb) (cameraPosition cam) / 50.

Definition eligible (cam : Camera) (visual : Obj.t Vec3) (handPos : Vec3)
  (excludeOrbIds : list OrbId) (orb : Orb) : Prop :=
  active orb = true /\
  ~ In (id orb) excludeOrbIds /\
  -1 <= vz (project cam (orbPosOf visual orb)) <= 1 /\
  screenDistance handPos (project cam (orbPosOf visual orb))
  < selectionThreshold orb (distanceTo (orbPosOf visual orb) (cameraPosition cam)).

(** The lock refs never hold a lock and a candidate at once. *)
Definition lockTidy (l : LockRefs) : Prop :=
  JS.truthy (lockedOrbRef l) = true -> lockCandidateRef l = None.

(** Every id the lock refs hold satisfies [P]. *)
Definition lockIds (P : OrbId -> Prop) (l : LockRefs) : Prop :=
  (forall o, lockedOrbRef l = Some o -> P o) /\
  (forall o, lockCandidateRef l = Some o -> P o) /\
  (forall o, closestOrbRef l = Some o -> P o).

(** Both radii of an orb's refs are within the orbit range. *)
Definition radiiInRange (r : OrbRefs) : Prop :=
  MIN_ORBIT_RADIUS <= currentOrbitRadius r <= MAX_ORBIT_RADIUS /\
  MIN_ORBIT_RADIUS <= targetOrbitRadius r <= MAX_ORBIT_RADIUS.

(** The ids of a scene's state all belong to orbs of the scene: the orb list
    keeps its ids, and what is grabbed, locked, a candidate, registered or
    mounted is one of them. *)
Definition knownAction (ids : list OrbId) (act : Action) : Prop :=
  match act with
  | SetGrabbedOrbId (Some o) _ => In o ids
  | SetGrabbedOrbId None _ => True
  | UpdateOrbPosition _ _ => True
  end.

Definition knownIds (orbs0 : list Orb) (w : World) : Prop :=
  map id (orbs (app w)) = map id orbs0 /\
  (forall o, In o (Obj.values (grabbedOrbs (app w))) -> In o (map id orbs0)) /\
  lockIds (fun o => In o (map id orbs0)) (lock (refs w)) /\
  (forall k, In k (Obj.keys (orbVisualPositionsRef (refs w))) -> In k (map id orbs0)) /\
  (forall k, In k (Obj.keys (soundOrbRefs (refs w))) -> In k (map id orbs0)).

(** An orb whose refs mount with a radius inside the orbit range, and a
    scene all of whose orbs and mounted refs are inside it. *)
Definition mountsInRange (orb : Orb) : Prop :=
  MIN_ORBIT_RADIUS <= JS.orElse (orbitRadius orb) 5 <= MAX_ORBIT_RADIUS.

Definition orbitsInRange (w : World) : Prop :=
  Forall mountsInRange (orbs (app w)) /\
  forall k r, Obj.get (soundOrbRefs (refs w)) k = Some r -> radiiInRange r.

(** The advance of the target angle in one frame of a free orbit. *)
Definition angleAdvance (orb : Orb) (delta : R) (r : OrbRefs) : R :=
  targetOrbitAngleRef (updatePlanetPosition orb false delta r) - targetOrbitAngleRef r.




(** The conditions under which the lock frame runs its candidate search:
    nothing grabbed, hand tracked, not in camera mode. *)
Definition searching (p : Props) : Prop :=
  JS.truthy (p_grabbedOrbId p) = false /\
  p_isTracking p = true /\
  isCameraMode (p_cameraMode p) = false.

(** A frame in which the candidate search runs and returns [c]. *)
Definition hovering (c : OrbId) (i : LockInput) : Prop :=
  searching (li_props i) /\
  getClosestOrbForHand (li_camera i) (li_visual i) (p_orbs (li_props i))
    (p_handPosition (li_props i)) (Obj.values (p_grabbedOrbs (li_props i))) = Some c.

(** Examples: two orbs, what the tracking hook returns for an open hand and
    for a pinching hand at the centre of the screen, and a scene with one orb. *)
Definition earth : Orb :=
  {| id := "earth"; active := true; position := vec3 4.5 0 0;
     planetSize := Some 0.5; orbitRadius := Some 4.5; orbitOffset := None;
     orbitSpeed := Some 1; tiltAngle := None |}.

Definition jupiter : Orb :=
  {| id := "jupiter"; active := true; position := vec3 7 0 0;
     planetSize := Some 0.9; orbitRadius := Some 7; orbitOffset := None;
     orbitSpeed := Some 0.5; tiltAngle := None |}.

Definition openAtCentre : HandTracking.Tracking :=
  {| HandTracking.handPosition := vec3 0.5 0.5 0.5;
     HandTracking.isPinching := false;
     HandTracking.isFist := false;
     HandTracking.isTracking := true;
     HandTracking.handVelocity := vec2 0 0;
     HandTracking.handSize := 0.25;
     HandTracking.lastPositionRef := vec3 0.5 0.5 0.5;
     HandTracking.prevPositionRef := vec2 0.5 0.5;
     HandTracking.lastHandSizeRef := 0.25 |}.

Definition pinchAtCentre : HandTracking.Tracking :=
  {| HandTracking.handPosition := vec3 0.5 0.5 0.5;
     HandTracking.isPinching := true;
     HandTracking.isFist := false;
     HandTracking.isTracking := true;
     HandTracking.handVelocity := vec2 0 0;
     HandTracking.handSize := 0.25;
     HandTracking.lastPositionRef := vec3 0.5 0.5 0.5;
     HandTracking.prevPositionRef := vec2 0.5 0.5;
     HandTracking.lastHandSizeRef := 0.25 |}.

Definition fistAtCentre : HandTracking.Tracking :=
  {| HandTracking.handPosition := vec3 0.5 0.5 0.5;
     HandTracking.isPinching := false;
     HandTracking.isFist := true;
     HandTracking.isTracking := true;
     HandTracking.handVelocity := vec2 0 0;
     HandTracking.handSize := 0.25;
     HandTracking.lastPositionRef := vec3 0.5 0.5 0.5;
     HandTracking.prevPositionRef := vec2 0.5 0.5;
     HandTracking.lastHandSizeRef := 0.25 |}.

(** The hook's state one detector result later, when that result has no
    hand. *)
Definition handLost : HandTracking.Tracking :=
  HandTracking.processLandmarks pinchAtCentre (Some []).

Definition earthApp : App := {| orbs := [earth]; grabbedOrbs := [] |}.

Definition hoverInput (now : R) : LockInput :=
  {| li_camera := fixedHitCamera;
     li_now := now;
     li_visual := [];
     li_props := appProps earthApp openAtCentre |}.

Definition blackHoleEnv (now : R) : Env :=
  {| env_camera := fixedHitCamera; env_now := now; env_delta := 0.016;
     env_viewMode := "black_hole" |}.

Definition exampleEnv (now : R) : Env :=
  {| env_camera := fixedHitCamera; env_now := now; env_delta := 0.016;
     env_viewMode := "default" |}.

(** A run of the scene with one orb: the cursor comes to rest on the orb,
    is still there 250 ms later, and then the hand pinches. *)
Definition earthHovered : World :=
  sceneFrame LockFirst (exampleEnv 1000) openAtCentre (initialWorld [earth]).

Definition earthLocked : World :=
  sceneFrame LockFirst (exampleEnv 1250) openAtCentre earthHovered.

Definition earthPinched : World :=
  sceneFrame LockFirst (exampleEnv 1266) pinchAtCentre earthLocked.

End Scene.

(** ** Influence weights (App) *)

Module Influence.

Import Scene.

(** One entry of [weightedPrompts]. *)
Record WeightedPrompt : Type := mkWeightedPrompt {
  wp_text : string;
  wp_weight : R;
  wp_orbId : OrbId;
  wp_label : string;
  wp_distance : R
}.

Section Weights.

(** [orb.prompt] and [orb.label]: two strings of an orb that nothing else in
    the model reads. *)
Variables (prompt label : Orb -> string).

Definition MAX_INFLUENCE_RADIUS : R := 2.5.
Definition MIN_INFLUENCE_RADIUS : R := 6.0.

(** The callback of [activeOrbs.map] in [calculateWeights]. *)
Definition weightEntry (orb : Orb) : WeightedPrompt :=
  let dx := vx (position orb) - 0 in
  let dy := vy (position orb) - 0 in
  let dz := vz (position orb) - 0 in
  let distanceFromCenter := sqrt (dx * dx + dy * dy + dz * dz) in
  let weight :=
    if JS.leb distanceFromCenter MAX_INFLUENCE_RADIUS then
      let t := distanceFromCenter / MAX_INFLUENCE_RADIUS in
      1.5 - t * 0.5
    else if JS.leb distanceFromCenter MIN_INFLUENCE_RADIUS then
      let t := (distanceFromCenter - MAX_INFLUENCE_RADIUS)
               / (MIN_INFLUENCE_RADIUS - MAX_INFLUENCE_RADIUS) in
      1.0 - t * 0.7
    else 0.3 in
  {| wp_text := prompt orb;
     wp_weight := Rmax 0.1 (Rmin 1.5 weight);
     wp_orbId := id orb;
     wp_label := label orb;
     wp_distance := distanceFromCenter |}.

Definition calculateWeights (orbs : list Orb) : list WeightedPrompt :=
  let activeOrbs := filter active orbs in
  match activeOrbs with
  | [] => []
  | _ => map weightEntry activeOrbs
  end.

(** [weightedPrompts.reduce((sum, w) => sum + w.weight, 0)] *)
Definition totalInfluence (weightedPrompts : list WeightedPrompt) : R :=
  fold_left (fun sum w => sum + wp_weight w) weightedPrompts 0.

Definition averageInfluence (weightedPrompts : list WeightedPrompt) : R :=
  match weightedPrompts with
  | [] => 0
  | _ =>
      let avgWeight := totalInfluence weightedPrompts / INR (List.length weightedPrompts) in
      avgWeight / 1.5
  end.

End Weights.

End Influence.

(** ** Galaxy navigation and the camera (appStore, SpaceScene) *)

Module Navigation.

Import Scene.

(** *** The navigation slice of the store *)

(** The fields of the store that navigation reads and writes; no other
    action of the store writes them. *)
Record Store : Type := mkStore {
  currentGalaxy : option string;
  zoomLevel : string;
  viewMode : string;
  isTransitioning : bool;
  transitionTarget : option string;
  transitionProgress : R
}.

Definition initialStore : Store :=
  {| currentGalaxy := Some "milky_way";
     zoomLevel := "solar_system";
     viewMode := "default";
     isTransitioning := false;
     transitionTarget := None;
     transitionProgress := 0 |}.

Definition setViewMode (mode : string) (s : Store) : Store :=
  {| currentGalaxy := currentGalaxy s; zoomLevel := zoomLevel s; viewMode := mode;
     isTransitioning := isTransitioning s; transitionTarget := transitionTarget s;
     transitionProgress := transitionProgress s |}.

Definition setZoomLevel (level : string) (s : Store) : Store :=
  {| currentGalaxy := currentGalaxy s; zoomLevel := level; viewMode := viewMode s;
     isTransitioning := isTransitioning s; transitionTarget := transitionTarget s;
     transitionProgress := transitionProgress s |}.

Definition startGalaxyTransition (targetGalaxyId : option string) (s : Store) : Store :=
  if isTransitioning s || sameId (currentGalaxy s) targetGalaxyId then s
  else
    {| currentGalaxy := currentGalaxy s; zoomLevel := zoomLevel s; viewMode := viewMode s;
       isTransitioning := true; transitionTarget := targetGalaxyId;
       transitionProgress := 0 |}.

Definition updateTransitionProgress (progress : R) (s : Store) : Store :=
  if negb (isTransitioning s) then s
  else if JS.geb progress 1 then
    {| currentGalaxy := transitionTarget s; zoomLevel := "solar_system";
       viewMode := viewMode s; isTransitioning := false; transitionTarget := None;
       transitionProgress := 0 |}
  else
    {| currentGalaxy := currentGalaxy s; zoomLevel := zoomLevel s; viewMode := viewMode s;
       isTransitioning := isTransitioning s; transitionTarget := transitionTarget s;
       transitionProgress := progress |}.

Definition cancelTransition (s : Store) : Store :=
  {| currentGalaxy := currentGalaxy s; zoomLevel := zoomLevel s; viewMode := viewMode s;
     isTransitioning := false; transitionTarget := None; transitionProgress := 0 |}.

(** A call of one of the store's navigation actions. *)
Inductive StoreAction : Type :=
| SetViewMode (mode : string)
| SetZoomLevel (level : string)
| StartGalaxyTransition (targetGalaxyId : option string)
| UpdateTransitionProgress (progress : R)
| CancelTransition.

Definition applyStoreAction (s : Store) (act : StoreAction) : Store :=
  match act with
  | SetViewMode mode => setViewMode mode s
  | SetZoomLevel level => setZoomLevel level s
  | StartGalaxyTransition targetGalaxyId => startGalaxyTransition targetGalaxyId s
  | UpdateTransitionProgress progress => updateTransitionProgress progress s
  | CancelTransition => cancelTransition s
  end.

(** *** The camera frame of SpaceScene *)

(** The refs and the state the camera frame works on: the two angles of
    [cameraAngleRef], the radius refs, the refs of the two-hand gesture, the
    [shouldCenterCamera] state and the position of the three.js camera. *)
Record CameraRig : Type := mkCameraRig {
  theta : R;
  phi : R;
  cameraRadiusRef : R;
  targetZoomRadius : R;
  prevHandDistanceRef : option R;
  zoomGestureActiveRef : bool;
  shouldCenterCamera : bool;
  camera_position : Vec3
}.

(** The refs as they are created, with the camera where the canvas puts it. *)
Definition initialRig : CameraRig :=
  {| theta := 0; phi := PI / 3;
     cameraRadiusRef := 15;
     targetZoomRadius := 22;
     prevHandDistanceRef := None;
     zoomGestureActiveRef := false;
     shouldCenterCamera := false;
     camera_position := vec3 0 12 20 |}.

(** The props the camera frame reads. *)
Record CameraProps : Type := mkCameraProps {
  cp_players : list Player;
  cp_grabbedOrbs : Obj.t OrbId;
  cp_cameraMode : CameraMode;
  cp_isFist : bool;
  cp_handVelocity : option Vec2
}.

(** [zoomRadiusMap[zoomLevel]], for the keys the map defines. *)
Definition zoomRadiusMap (zoomLevel : string) : option R :=
  if String.eqb zoomLevel "solar_system" then Some 22
  else if String.eqb zoomLevel "galaxy_view" then Some 150
  else if String.eqb zoomLevel "universe_view" then Some 400
  else None.

(** The first two hands of the first player, if there are two. *)
Definition twoHands (players : list Player) : option (Hand * Hand) :=
  match players with
  | p :: _ =>
      match hands p with
      | hand1 :: hand2 :: _ => Some (hand1, hand2)
      | _ => None
      end
  | [] => None
  end.

Definition handDistance (hand1 hand2 : Hand) : R :=
  let dx := vx (hand_position hand1) - vx (hand_position hand2) in
  let dy := vy (hand_position hand1) - vy (hand_position hand2) in
  sqrt (dx * dx + dy * dy).

(** The calls of [setZoomLevel] for a change of the distance between the
    hands. *)
Definition zoomGesture (zoomLevel : string) (distanceDelta : R) : list StoreAction :=
  if JS.gtb distanceDelta 0.05 then
    if String.eqb zoomLevel "solar_system" then [SetZoomLevel "galaxy_view"]
    else if String.eqb zoomLevel "galaxy_view" then [SetZoomLevel "universe_view"]
    else []
  else if JS.ltb distanceDelta (-0.05) then
    if String.eqb zoomLevel "universe_view" then [SetZoomLevel "galaxy_view"]
    else if String.eqb zoomLevel "galaxy_view" then [SetZoomLevel "solar_system"]
    else []
  else [].

(** The two nested loops that look for a fist: the first player, in order,
    who grabs nothing and has a fist, with the first such hand. *)
Fixpoint findFist (grabbedOrbs : Obj.t OrbId) (players : list Player) : option (Player * Hand) :=
  match players with
  | [] => None
  | player :: rest =>
      match find (fun hand => hand_isFist hand
                              && negb (JS.truthy (Obj.get grabbedOrbs (player_id player))))
                 (hands player) with
      | Some hand => Some (player, hand)
      | None => findFist grabbedOrbs rest
      end
  end.

(** [Math.max(0.3, Math.min(Math.PI - 0.3, phi))] *)
Definition clampPhi (phi : R) : R := Rmax 0.3 (Rmin (PI - 0.3) phi).

(** Where the camera is headed, by view mode. *)
Definition targetCamPos (viewMode : string) (radius theta phi : R) : Vec3 :=
  if String.eqb viewMode "constellation" then
    vec3 (0 + 25 * sin phi * sin theta)
         (0 + 25 * cos phi)
         (-15 + 25 * sin phi * cos theta)
  else if String.eqb viewMode "black_hole" then vec3 0 2 5
  else
    vec3 (radius * sin phi * sin theta)
         (radius * cos phi)
         (radius * sin phi * cos theta).

(** The frame callback: the rig after it and the store actions it called, in
    order.  The values of the store and the props are those of the last
    render. *)
Definition cameraFrame (delta : R) (p : CameraProps) (s : Store) (rig : CameraRig)
  : CameraRig * list StoreAction :=
  let acts1 :=
    if isTransitioning s
    then [UpdateTransitionProgress (Rmin (transitionProgress s + delta * 0.5) 1)]
    else [] in
  let targetZoomRadius' := JS.orElse (zoomRadiusMap (zoomLevel s)) 22 in
  let zoomDiff := targetZoomRadius' - cameraRadiusRef rig in
  let cameraRadius' :=
    if JS.gtb (Rabs zoomDiff) 0.1
    then cameraRadiusRef rig + zoomDiff * delta * 2
    else cameraRadiusRef rig in
  let '(prev', active', acts2) :=
    match twoHands (cp_players p) with
    | Some (hand1, hand2) =>
        let handDistance := handDistance hand1 hand2 in
        let '(active, acts) :=
          match prevHandDistanceRef rig with
          | Some prev =>
              let distanceDelta := handDistance - prev in
              if JS.gtb (Rabs distanceDelta) 0.02
              then (true, zoomGesture (zoomLevel s) distanceDelta)
              else (zoomGestureActiveRef rig, [])
          | None => (zoomGestureActiveRef rig, [])
          end in
        (Some handDistance, active, acts)
    | None => (None, false, [])
    end in
  let '(theta1, phi1) :=
    match findFist (cp_grabbedOrbs p) (cp_players p) with
    | Some (_, fistHand) =>
        let offsetX := (vx (hand_position fistHand) - 0.5) * 2 in
        let offsetY := (vy (hand_position fistHand) - 0.5) * 2 in
        (theta rig + offsetX * delta * 0.8,
         clampPhi (phi rig - offsetY * delta * 0.6))
    | None =>
        match cp_handVelocity p with
        | Some handVelocity =>
            if isCameraMode (cp_cameraMode p) && cp_isFist p
            then (theta rig + ux handVelocity * delta * 1.5,
                  clampPhi (phi rig - uy handVelocity * delta * 1.2))
            else (theta rig, phi rig)
        | None => (theta rig, phi rig)
        end
    end in
  let '(theta2, phi2) :=
    if shouldCenterCamera rig then
      if String.eqb (viewMode s) "constellation" then (0, PI / 2) else (0, PI / 3)
    else (theta1, phi1) in
  ({| theta := theta2;
      phi := phi2;
      cameraRadiusRef := cameraRadius';
      targetZoomRadius := targetZoomRadius';
      prevHandDistanceRef := prev';
      zoomGestureActiveRef := active';
      shouldCenterCamera := false;
      camera_position :=
        lerpVec (camera_position rig) (targetCamPos (viewMode s) cameraRadius' theta2 phi2) 0.1 |},
   (acts1 ++ acts2)%list).

(** The effect that runs when the view mode becomes [constellation]. *)
Definition enterConstellation (rig : CameraRig) : CameraRig :=
  {| theta := 0;
     phi := PI / 2;
     cameraRadiusRef := cameraRadiusRef rig;
     targetZoomRadius := targetZoomRadius rig;
     prevHandDistanceRef := prevHandDistanceRef rig;
     zoomGestureActiveRef := zoomGestureActiveRef rig;
     shouldCenterCamera := shouldCenterCamera rig;
     camera_position :=
       vec3 (25 * sin (PI / 2) * sin 0)
            (-15 + 25 * cos (PI / 2))
            (-15 + 25 * sin (PI / 2) * cos 0) |}.

Definition pressCenter (rig : CameraRig) : CameraRig :=
  {| theta := theta rig;
     phi := phi rig;
     cameraRadiusRef := cameraRadiusRef rig;
     targetZoomRadius := targetZoomRadius rig;
     prevHandDistanceRef := prevHandDistanceRef rig;
     zoomGestureActiveRef := zoomGestureActiveRef rig;
     shouldCenterCamera := true;
     camera_position := camera_position rig |}.

(** What happens to the store and the rig: a frame; an action of the store
    called from elsewhere, after which the effect runs if the view mode has
    become [constellation]; a press of the centre button. *)
Inductive Event : Type :=
| Frame (delta : R) (p : CameraProps)
| Dispatch (act : StoreAction)
| CenterPressed.

Definition navStep (st : Store * CameraRig) (e : Event) : Store * CameraRig :=
  let '(s, rig) := st in
  match e with
  | Frame delta p =>
      let '(rig', acts) := cameraFrame delta p s rig in
      (fold_left applyStoreAction acts s, rig')
  | Dispatch act =>
      let s' := applyStoreAction s act in
      (s',
       if negb (String.eqb (viewMode s') (viewMode s)) && String.eqb (viewMode s') "constellation"
       then enterConstellation rig
       else rig)
  | CenterPressed => (s, pressCenter rig)
  end.

Definition navRun (events : list Event) (st : Store * CameraRig) : Store * CameraRig :=
  fold_left navStep events st.

(** The props of the camera frame as [App] computes them in single-player
    mode. *)
Definition singlePlayerProps (a : App) (t : HandTracking.Tracking) : CameraProps :=
  {| cp_players := players t;
     cp_grabbedOrbs := grabbedOrbs a;
     cp_cameraMode := p_cameraMode (appProps a t);
     cp_isFist := p_isFist (appProps a t);
     cp_handVelocity := Some (HandTracking.handVelocity t) |}.

(** The frame times of a run, and the store as a transition to [g] starts. *)
Definition frameTime (e : Event) : R :=
  match e with
  | Frame delta _ => delta
  | _ => 0
  end.

Definition isFrame (e : Event) : Prop :=
  match e with
  | Frame delta _ => 0 <= delta
  | _ => False
  end.

Definition totalTime (events : list Event) : R :=
  fold_right (fun e acc => frameTime e + acc) 0 events.

(** An event that leaves the view mode alone: anything but a call of
    [setViewMode]; and the number of camera frames in a run. *)
Definition keepsView (e : Event) : Prop :=
  match e with
  | Dispatch (SetViewMode _) => False
  | _ => True
  end.

Definition frameCount (events : list Event) : nat :=
  List.length (filter (fun e => match e with Frame _ _ => true | _ => false end) events).

(** What the navigation fields satisfy in every state: outside a transition
    there is no target and no progress; inside one the target differs from
    the current galaxy and the progress is below 1. *)
Definition storeTidy (s : Store) : Prop :=
  (isTransitioning s = false -> transitionTarget s = None /\ transitionProgress s = 0) /\
  (isTransitioning s = true ->
   transitionTarget s <> currentGalaxy s /\ transitionProgress s < 1).

(** The three zoom levels, and which follow each other. *)
Definition adjacentLevels (a b : string) : Prop :=
  (a = "solar_system" /\ b = "galaxy_view") \/
  (a = "galaxy_view" /\ b = "universe_view") \/
  (a = "universe_view" /\ b = "galaxy_view") \/
  (a = "galaxy_view" /\ b = "solar_system").

Definition phiInRange (rig : CameraRig) : Prop := 0.3 <= phi rig <= PI - 0.3.

(** *** The centre button (CenterCameraButton) *)

Record ButtonState : Type := mkButtonState {
  isHovered : bool;
  wasActivated : bool
}.

(** What a frame of the button reads: the camera, the cursor and the
    pinch. *)
Record ButtonInput : Type := mkButtonInput {
  bi_camera : Camera;
  bi_handPosition : Vec3;
  bi_isPinching : bool
}.

(** Whether the cursor is within reach of the button on screen. *)
Definition buttonInRange (position : Vec3) (i : ButtonInput) : bool :=
  let ndcX := (vx (bi_handPosition i) - 0.5) * 2 in
  let ndcY := (vy (bi_handPosition i) - 0.5) * 2 in
  let projected := project (bi_camera i) position in
  let dx := ndcX - vx projected in
  let dy := ndcY - vy projected in
  let dist := sqrt (dx * dx + dy * dy) in
  JS.ltb dist 0.25.

(** The frame callback of the button: the state after it, and whether it
    called [onCenter].  A cursor whose [x] is 0 is falsy and counts as no
    cursor. *)
Definition buttonFrame (position : Vec3) (i : ButtonInput) (b : ButtonState)
  : ButtonState * bool :=
  if Req_dec_T (vx (bi_handPosition i)) 0 then
    ({| isHovered := false; wasActivated := wasActivated b |}, false)
  else
    let isInRange := buttonInRange position i in
    let fired := isInRange && bi_isPinching i && negb (wasActivated b) in
    let wasActivated1 := if fired then true else wasActivated b in
    let wasActivated2 := if negb (bi_isPinching i) then false else wasActivated1 in
    ({| isHovered := isInRange; wasActivated := wasActivated2 |}, fired).

(** A run of frames of the button: the state after it and the number of
    calls of [onCenter]. *)
Definition buttonStep (position : Vec3) (acc : ButtonState * nat) (i : ButtonInput)
  : ButtonState * nat :=
  let '(b', fired) := buttonFrame position i (fst acc) in
  (b', if fired then S (snd acc) else snd acc).

Definition buttonRun (position : Vec3) (inputs : list ButtonInput) (b : ButtonState)
  : ButtonState * nat :=
  fold_left (buttonStep position) inputs (b, O).

(** Examples: the props of a frame without any player, and the store as a
    transition to another galaxy starts. *)
Definition noPlayers : CameraProps :=
  {| cp_players := []; cp_grabbedOrbs := []; cp_cameraMode := idle;
     cp_isFist := false; cp_handVelocity := Some (vec2 0 0) |}.

Definition towardAndromeda : Store :=
  startGalaxyTransition (Some "andromeda") initialStore.

(** An open hand at a given place, and a player with two such hands. *)
Definition openHandAt (x y : R) : Hand :=
  {| hand_position := vec3 x y 0.5; hand_isPinching := false; hand_isFist := false |}.

Definition twoHandsAt (x1 x2 : R) : CameraProps :=
  {| cp_players := [ {| player_id := "player_0";
                        hands := [openHandAt x1 0.5; openHandAt x2 0.5] |} ];
     cp_grabbedOrbs := []; cp_cameraMode := idle;
     cp_isFist := false; cp_handVelocity := Some (vec2 0 0) |}.

(** A pinch held on the button of the default view, seen by the example
    camera, which projects the button to the centre of the screen. *)
Definition pinchOnButton : ButtonInput :=
  {| bi_camera := fixedHitCamera; bi_handPosition := vec3 0.5 0.5 0.5;
     bi_isPinching := true |}.

Definition blackHoleStore : Store := setViewMode "black_hole" initialStore.

End Navigation.

(** * Properties *)

(** ** Comparisons *)

Module JSFacts.

Lemma ltb_true_iff (a b : R) : JS.ltb a b = true <-> a < b.
Proof. unfold JS.ltb. destruct (Rlt_dec a b); split; intros; try easy. Qed.

Lemma ltb_false_iff (a b : R) : JS.ltb a b = false <-> b <= a.
Proof.
  unfold JS.ltb. destruct (Rlt_dec a b); split; intros; try easy; lra.
Qed.

Lemma gtb_true_iff (a b : R) : JS.gtb a b = true <-> b < a.
Proof. apply ltb_true_iff. Qed.

Lemma gtb_false_iff (a b : R) : JS.gtb a b = false <-> a <= b.
Proof. apply ltb_false_iff. Qed.

Lemma leb_true_iff (a b : R) : JS.leb a b = true <-> a <= b.
Proof. unfold JS.leb. destruct (Rle_dec a b); split; intros; try easy. Qed.

Lemma leb_false_iff (a b : R) : JS.leb a b = false <-> b < a.
Proof.
  unfold JS.leb. destruct (Rle_dec a b); split; intros; try easy; lra.
Qed.

Lemma geb_true_iff (a b : R) : JS.geb a b = true <-> b <= a.
Proof. apply leb_true_iff. Qed.

Lemma geb_false_iff (a b : R) : JS.geb a b = false <-> a < b.
Proof. apply leb_false_iff. Qed.

(** Comparing a square root with a positive constant. *)
Lemma sqrt_lt_iff (e c : R) : 0 <= e -> 0 < c -> (sqrt e < c <-> e < c * c).
Proof.
  intros He Hc. split; intro H.
  - rewrite <- (sqrt_sqrt e He). pose proof (sqrt_pos e). nra.
  - rewrite <- (sqrt_square c) by lra. apply sqrt_lt_1_alt. lra.
Qed.

Lemma truthy_Some (s : string) : s <> EmptyString -> JS.truthy (Some s) = true.
Proof.
  intro H. unfold JS.truthy. destruct (String.eqb_spec s EmptyString); easy.
Qed.


Lemma Rmin_Rmax_unit (v : R) : 0 <= Rmin 1 (Rmax 0 v) <= 1.
Proof.
  unfold Rmin, Rmax.
  destruct (Rle_dec 0 v); destruct (Rle_dec 1 _); lra.
Qed.

Lemma Rmax_Rmin_unit (v : R) : 0 <= Rmax 0 (Rmin 1 v) <= 1.
Proof.
  unfold Rmin, Rmax.
  destruct (Rle_dec 1 v); destruct (Rle_dec 0 _); lra.
Qed.

End JSFacts.

(** ** Facts about objects used as maps *)

Module ObjFacts.

Lemma hasKey_get {V : Type} (o : Obj.t V) (k : string) :
  Obj.hasKey o k = false <-> Obj.get o k = None.
Proof.
  unfold Obj.hasKey. induction o as [|[k0 v0] o IH]; cbn [existsb Obj.get fst]; [tauto|].
  destruct (String.eqb k0 k); cbn [orb]; [split; discriminate|exact IH].
Qed.

Lemma get_replace_same {V : Type} (o : Obj.t V) (k : string) (v : V) :
  Obj.hasKey o k = true -> Obj.get (Obj.replace o k v) k = Some v.
Proof.
  unfold Obj.hasKey. induction o as [|[k0 v0] o IH]; cbn [existsb Obj.replace fst];
    [discriminate|].
  destruct (String.eqb_spec k0 k) as [->|Hne]; cbn [orb Obj.get].
  - intros _. now rewrite String.eqb_refl.
  - intro H. rewrite (proj2 (String.eqb_neq _ _) Hne). now apply IH.
Qed.

Lemma get_replace_other {V : Type} (o : Obj.t V) (k k' : string) (v : V) :
  k <> k' -> Obj.get (Obj.replace o k v) k' = Obj.get o k'.
Proof.
  intro Hne. induction o as [|[k0 v0] o IH]; cbn [Obj.replace Obj.get]; [reflexivity|].
  destruct (String.eqb_spec k0 k) as [->|Hk0]; cbn [Obj.get].
  - destruct (String.eqb_spec k k'); [contradiction|reflexivity].
  - destruct (String.eqb_spec k0 k'); [reflexivity|exact IH].
Qed.

Lemma get_insertNew_same {V : Type} (o : Obj.t V) (k : string) (v : V) :
  Obj.get o k = None -> Obj.get (Obj.insertNew o k v) k = Some v.
Proof.
  induction o as [|[k0 v0] o IH]; cbn [Obj.insertNew Obj.get].
  - intros _. now rewrite String.eqb_refl.
  - destruct (String.eqb_spec k0 k) as [->|Hne]; [discriminate|]. intro H.
    destruct (Obj.comesBefore k k0); cbn [Obj.get].
    + now rewrite String.eqb_refl.
    + rewrite (proj2 (String.eqb_neq _ _) Hne). now apply IH.
Qed.

Lemma get_insertNew_other {V : Type} (o : Obj.t V) (k k' : string) (v : V) :
  k <> k' -> Obj.get (Obj.insertNew o k v) k' = Obj.get o k'.
Proof.
  intro Hne. induction o as [|[k0 v0] o IH]; cbn [Obj.insertNew Obj.get].
  - destruct (String.eqb_spec k k'); [contradiction|reflexivity].
  - destruct (Obj.comesBefore k k0); cbn [Obj.get].
    + destruct (String.eqb_spec k k'); [contradiction|reflexivity].
    + destruct (String.eqb k0 k'); [reflexivity|exact IH].
Qed.

Lemma get_set_same {V : Type} (o : Obj.t V) (k : string) (v : V) :
  Obj.get (Obj.set o k v) k = Some v.
Proof.
  unfold Obj.set. destruct (Obj.hasKey o k) eqn:E.
  - now apply get_replace_same.
  - apply get_insertNew_same. now apply hasKey_get.
Qed.

Lemma get_set_other {V : Type} (o : Obj.t V) (k k' : string) (v : V) :
  k <> k' -> Obj.get (Obj.set o k v) k' = Obj.get o k'.
Proof.
  intro Hne. unfold Obj.set. destruct (Obj.hasKey o k).
  - now apply get_replace_other.
  - now apply get_insertNew_other.
Qed.

Lemma set_nil {V : Type} (k : string) (v : V) : Obj.set [] k v = [(k, v)].
Proof. reflexivity. Qed.

Lemma set_head {V : Type} (o : Obj.t V) (k : string) (v0 v : V) :
  Obj.set ((k, v0) :: o) k v = (k, v) :: o.
Proof.
  unfold Obj.set, Obj.hasKey. cbn [existsb fst Obj.replace].
  now rewrite String.eqb_refl.
Qed.

(** The entries after a [set]: those of before, with the value of [k]
    replaced or the entry of [k] put in somewhere. *)
Lemma replace_entries {V : Type} (o : Obj.t V) (k : string) (v : V) (e : string * V) :
  In e (Obj.replace o k v) -> e = (k, v) \/ In e o.
Proof.
  induction o as [|[k0 v0] o IH]; cbn [Obj.replace In]; [tauto|].
  destruct (String.eqb k0 k); cbn [In]; intros [<-|H]; auto.
  destruct (IH H); auto.
Qed.

Lemma insertNew_entries {V : Type} (o : Obj.t V) (k : string) (v : V) (e : string * V) :
  In e (Obj.insertNew o k v) <-> e = (k, v) \/ In e o.
Proof.
  induction o as [|[k0 v0] o IH]; cbn [Obj.insertNew In]; [intuition congruence|].
  destruct (Obj.comesBefore k k0); cbn [In]; [intuition congruence|].
  rewrite IH. intuition congruence.
Qed.

Lemma set_entries {V : Type} (o : Obj.t V) (k : string) (v : V) (e : string * V) :
  In e (Obj.set o k v) -> e = (k, v) \/ In e o.
Proof.
  unfold Obj.set. destruct (Obj.hasKey o k).
  - apply replace_entries.
  - apply insertNew_entries.
Qed.

Lemma keys_set_in {V : Type} (o : Obj.t V) (k x : string) (v : V) :
  In x (Obj.keys (Obj.set o k v)) -> x = k \/ In x (Obj.keys o).
Proof.
  unfold Obj.keys. intro H. apply in_map_iff in H as ([k1 v1] & <- & He).
  apply set_entries in He as [He|He]; [left; now inversion He|right].
  now apply (in_map fst) in He.
Qed.

Lemma values_set_in {V : Type} (o : Obj.t V) (k : string) (v x : V) :
  In x (Obj.values (Obj.set o k v)) -> x = v \/ In x (Obj.values o).
Proof.
  unfold Obj.values. intro H. apply in_map_iff in H as ([k1 v1] & <- & He).
  apply set_entries in He as [He|He]; [left; now inversion He|right].
  now apply (in_map snd) in He.
Qed.

Lemma keys_replace {V : Type} (o : Obj.t V) (k : string) (v : V) :
  Obj.keys (Obj.replace o k v) = Obj.keys o.
Proof.
  unfold Obj.keys. induction o as [|[k0 v0] o IH]; cbn [Obj.replace map fst]; [reflexivity|].
  destruct (String.eqb_spec k0 k) as [->|Hne]; cbn [map fst]; [reflexivity|now rewrite IH].
Qed.

Lemma NoDup_keys_insertNew {V : Type} (o : Obj.t V) (k : string) (v : V) :
  ~ In k (Obj.keys o) -> NoDup (Obj.keys o) -> NoDup (Obj.keys (Obj.insertNew o k v)).
Proof.
  unfold Obj.keys. induction o as [|[k0 v0] o IH]; cbn [Obj.insertNew map fst In];
    intros Hnotin Hnd.
  - repeat constructor. intros [].
  - destruct (Obj.comesBefore k k0); cbn [map fst].
    + constructor; [cbn [In]; tauto|exact Hnd].
    + inversion Hnd as [|? ? Hk0 Hrest]; subst. constructor; [|apply IH; tauto].
      intro Hin. apply in_map_iff in Hin as ([k1 v1] & Hk1 & He). cbn [fst] in Hk1. subst k1.
      apply insertNew_entries in He as [He|He]; [inversion He; tauto|].
      apply Hk0. now apply (in_map fst) in He.
Qed.

Lemma get_None_keys {V : Type} (o : Obj.t V) (k : string) :
  Obj.get o k = None <-> ~ In k (Obj.keys o).
Proof.
  unfold Obj.keys. induction o as [|[k0 v0] o IH]; cbn [Obj.get map fst In]; [tauto|].
  destruct (String.eqb_spec k0 k) as [->|Hne].
  - split; [discriminate|]. intro H. exfalso. apply H. now left.
  - rewrite IH. tauto.
Qed.

Lemma NoDup_keys_set {V : Type} (o : Obj.t V) (k : string) (v : V) :
  NoDup (Obj.keys o) -> NoDup (Obj.keys (Obj.set o k v)).
Proof.
  intro Hnd. unfold Obj.set. destruct (Obj.hasKey o k) eqn:E.
  - now rewrite keys_replace.
  - apply NoDup_keys_insertNew; [|exact Hnd]. apply get_None_keys. now apply hasKey_get.
Qed.

Lemma delete_insertNew {V : Type} (o : Obj.t V) (k : string) (v : V) :
  Obj.get o k = None -> Obj.delete (Obj.insertNew o k v) k = o.
Proof.
  induction o as [|[k0 v0] o IH]; cbn [Obj.get Obj.insertNew Obj.delete]; intro Hget.
  - now rewrite String.eqb_refl.
  - destruct (String.eqb_spec k0 k) as [->|Hne]; [discriminate|].
    destruct (Obj.comesBefore k k0); cbn [Obj.delete].
    + now rewrite String.eqb_refl.
    + rewrite (proj2 (String.eqb_neq _ _) Hne). now rewrite IH.
Qed.

Lemma delete_set_fresh {V : Type} (o : Obj.t V) (k : string) (v : V) :
  Obj.get o k = None -> Obj.delete (Obj.set o k v) k = o.
Proof.
  intro Hget. unfold Obj.set. rewrite (proj2 (hasKey_get o k) Hget).
  now apply delete_insertNew.
Qed.

End ObjFacts.

(** ** The gesture classifier *)

Module HandTrackingFacts.

Import HandTracking JSFacts.

Lemma sum_squares_nonneg (a b c : R) : 0 <= a ^ 2 + b ^ 2 + c ^ 2.
Proof.
  pose proof (pow2_ge_0 a). pose proof (pow2_ge_0 b). pose proof (pow2_ge_0 c). lra.
Qed.

Lemma distance3D_lt_iff (p q : Vec3) (c : R) :
  0 < c ->
  (distance3D p q < c <->
   (vx p - vx q) ^ 2 + (vy p - vy q) ^ 2 + (vz p - vz q) ^ 2 < c * c).
Proof.
  intro Hc. unfold distance3D. apply sqrt_lt_iff; [apply sum_squares_nonneg | exact Hc].
Qed.

Lemma distance3D_ltb_true (p q : Vec3) (c : R) :
  0 < c ->
  (vx p - vx q) ^ 2 + (vy p - vy q) ^ 2 + (vz p - vz q) ^ 2 < c * c ->
  JS.ltb (distance3D p q) c = true.
Proof.
  intros Hc H. apply ltb_true_iff. now apply distance3D_lt_iff.
Qed.

Lemma distance3D_ltb_false (p q : Vec3) (c : R) :
  0 < c ->
  c * c <= (vx p - vx q) ^ 2 + (vy p - vy q) ^ 2 + (vz p - vz q) ^ 2 ->
  JS.ltb (distance3D p q) c = false.
Proof.
  intros Hc H. apply ltb_false_iff.
  destruct (Rle_lt_dec c (distance3D p q)) as [Hle|Hlt]; [exact Hle|].
  apply distance3D_lt_iff in Hlt; [lra | exact Hc].
Qed.

(** Decides every comparison of a goal about a concrete hand. *)
Ltac cmp :=
  repeat match goal with
  | |- context [JS.ltb (distance3D ?p ?q) ?c] =>
      let H := fresh in
      first [ assert (H : JS.ltb (distance3D p q) c = true)
                by (apply distance3D_ltb_true; simpl; lra)
            | assert (H : JS.ltb (distance3D p q) c = false)
                by (apply distance3D_ltb_false; simpl; lra) ];
      rewrite H; clear H
  | |- context [JS.ltb ?a ?b] =>
      let H := fresh in
      first [ assert (H : JS.ltb a b = true) by (apply ltb_true_iff; simpl; lra)
            | assert (H : JS.ltb a b = false) by (apply ltb_false_iff; simpl; lra) ];
      rewrite H; clear H
  end.

Lemma closedHand_fist : checkFist closedHand = true.
Proof. unfold checkFist, JS.gtb. cmp. reflexivity. Qed.

Lemma closedHand_folded :
  fingerFolded closedHand 8 6 0.15 = true /\ fingerFolded closedHand 12 10 0.12 = true /\
  fingerFolded closedHand 16 14 0.15 = true /\ fingerFolded closedHand 20 18 0.18 = true.
Proof. unfold fingerFolded, JS.gtb. cmp. repeat split; reflexivity. Qed.

Lemma closedHand_pinch :
  distance3D (closedHand 4%nat) (closedHand 8%nat) < PINCH_THRESHOLD.
Proof. apply distance3D_lt_iff; unfold PINCH_THRESHOLD; simpl; lra. Qed.

Lemma sideHand_fist : checkFist sideHand = true.
Proof. unfold checkFist, JS.gtb. cmp. reflexivity. Qed.

Lemma pinchingHand_no_fist : checkFist pinchingHand = false.
Proof. unfold checkFist, JS.gtb. cmp. reflexivity. Qed.

Lemma pinchingHand_pinch :
  JS.ltb (distance3D (pinchingHand 4%nat) (pinchingHand 8%nat)) PINCH_THRESHOLD = true.
Proof. unfold PINCH_THRESHOLD. cmp. reflexivity. Qed.

(** The flags and the cursor [processLandmarks] stores for a hand. *)
Lemma processHand_isFist (s : Tracking) (hand : HandFrame) :
  isFist (processHand s hand) = checkFist hand.
Proof. reflexivity. Qed.

Lemma processHand_isPinching (s : Tracking) (hand : HandFrame) :
  isPinching (processHand s hand) =
  negb (checkFist hand) &&
  JS.ltb (distance3D (hand 4%nat) (hand 8%nat)) PINCH_THRESHOLD.
Proof. reflexivity. Qed.

Lemma processHand_handPosition (s : Tracking) (hand : HandFrame) :
  handPosition (processHand s hand) = smoothToward (lastPositionRef s) (cursorTarget hand).
Proof.
  unfold processHand, cursorTarget, smoothToward, calculateHandDepth. simpl.
  destruct (negb (checkFist hand) && _); reflexivity.
Qed.

Lemma processHand_lastPositionRef (s : Tracking) (hand : HandFrame) :
  lastPositionRef (processHand s hand) = handPosition (processHand s hand).
Proof. reflexivity. Qed.

Lemma processLandmarks_hand (s : Tracking) (hand : HandFrame) (rest : list HandFrame) :
  processLandmarks s (Some (hand :: rest)) = processHand s hand.
Proof. reflexivity. Qed.

(** *** The fist rule *)

Lemma countTrue_three (a b c d : bool) :
  (3 <=? countTrue [a; b; c; d])%nat = true <->
  atLeastThree (a = true) (b = true) (c = true) (d = true).
Proof.
  unfold atLeastThree.
  destruct a, b, c, d; cbn; split; intro H; try reflexivity; try discriminate;
    try tauto;
    repeat match goal with
           | H : _ \/ _ |- _ => destruct H
           | H : _ /\ _ |- _ => destruct H
           end; discriminate.
Qed.

Lemma threeFolded_verdicts : checkFist threeFolded = false /\ specFist threeFolded = true.
Proof. unfold specFist, fingerFolded, checkFist, JS.gtb. split; cmp; reflexivity. Qed.

Lemma hoveringTips_verdicts : checkFist hoveringTips = true /\ specFist hoveringTips = false.
Proof. unfold specFist, fingerFolded, checkFist, JS.gtb. split; cmp; reflexivity. Qed.

(** The fist test of the code, in geometric terms. *)
Lemma checkFist_geometry (hand : HandFrame) : checkFist hand = true <-> fistGeometry hand.
Proof.
  unfold checkFist, fistGeometry, curled.
  rewrite andb_true_iff, orb_true_iff, !andb_true_iff, countTrue_three.
  unfold atLeastThree, Rgt.
  rewrite !gtb_true_iff, !ltb_true_iff. tauto.
Qed.

Lemma threeFolded_pinch :
  distance3D (threeFolded 4%nat) (threeFolded 8%nat) < PINCH_THRESHOLD.
Proof. apply distance3D_lt_iff; unfold PINCH_THRESHOLD; simpl; lra. Qed.

(** *** Fist precedence *)

(** C3, as stated, fails for the fist condition of the specification.  With
    index, middle and ring finger folded onto the palm, the little finger
    stretched out and the thumb tip on the index tip, three of the four
    fingers satisfy both conditions of that fist rule and thumb and index
    are within the pinch threshold, yet the hook stores a pinch and no
    fist. *)
Lemma fist_precedence_counterexample :
  specFist threeFolded = true /\
  distance3D (threeFolded 4%nat) (threeFolded 8%nat) < PINCH_THRESHOLD /\
  isFist (processLandmarks initial (Some [threeFolded])) = false /\
  isPinching (processLandmarks initial (Some [threeFolded])) = true.
Proof.
  destruct threeFolded_verdicts as [Hcode Hspec]. pose proof threeFolded_pinch as Hpinch.
  split; [exact Hspec|]. split; [exact Hpinch|].
  rewrite processLandmarks_hand, processHand_isFist, processHand_isPinching, Hcode.
  split; [reflexivity|]. cbn [negb andb]. now apply ltb_true_iff.
Qed.

(** C3, amended. Fist precedence holds for the fist test the classifier
    makes: a hand with at least three of the four fingers curled and, in
    addition, all four fingertips within their distance of the palm
    reference or index and little-finger tip together, whose thumb tip is
    within the pinch threshold of the index tip, is stored as a fist and not
    as a pinch; whenever a pinch is stored, that fist test has failed.  In
    particular a hand whose four fingers each satisfy both conditions of the
    specification's fist rule is stored as a fist, however close thumb and
    index are. *)
Theorem fist_precedence (s : Tracking) (hand : HandFrame) (rest : list HandFrame) :
  (fistGeometry hand ->
   distance3D (hand 4%nat) (hand 8%nat) < PINCH_THRESHOLD ->
   isFist (processLandmarks s (Some (hand :: rest))) = true /\
   isPinching (processLandmarks s (Some (hand :: rest))) = false) /\
  (isPinching (processLandmarks s (Some (hand :: rest))) = true ->
   ~ fistGeometry hand /\
   distance3D (hand 4%nat) (hand 8%nat) < PINCH_THRESHOLD /\
   isFist (processLandmarks s (Some (hand :: rest))) = false) /\
  (fingerFolded hand 8 6 0.15 = true /\ fingerFolded hand 12 10 0.12 = true /\
   fingerFolded hand 16 14 0.15 = true /\ fingerFolded hand 20 18 0.18 = true ->
   distance3D (hand 4%nat) (hand 8%nat) < PINCH_THRESHOLD ->
   isFist (processLandmarks s (Some (hand :: rest))) = true /\
   isPinching (processLandmarks s (Some (hand :: rest))) = false).
Proof.
  rewrite processLandmarks_hand, processHand_isFist, processHand_isPinching.
  assert (Hfist : fistGeometry hand ->
                  checkFist hand = true /\
                  negb (checkFist hand)
                  && JS.ltb (distance3D (hand 4%nat) (hand 8%nat)) PINCH_THRESHOLD = false).
  { intro Hgeo. apply checkFist_geometry in Hgeo. rewrite Hgeo. now split. }
  split; [|split].
  - intros Hgeo _. now apply Hfist.
  - intro Hpinch. apply andb_prop in Hpinch as [Hneg Hdist].
    apply negb_true_iff in Hneg. apply ltb_true_iff in Hdist.
    split; [|split; [exact Hdist|exact Hneg]].
    intro Hgeo. apply checkFist_geometry in Hgeo. congruence.
  - intros Hfolded _. apply Hfist. revert Hfolded.
    unfold fingerFolded, fistGeometry, curled, atLeastThree, Rgt.
    rewrite !andb_true_iff, !gtb_true_iff, !ltb_true_iff. tauto.
Qed.

Lemma fist_precedence_witness :
  (isFist (processLandmarks initial (Some [closedHand])) = true /\
   isPinching (processLandmarks initial (Some [closedHand])) = false) /\
  (~ fistGeometry pinchingHand /\
   distance3D (pinchingHand 4%nat) (pinchingHand 8%nat) < PINCH_THRESHOLD /\
   isFist (processLandmarks initial (Some [pinchingHand])) = false) /\
  (isFist (processLandmarks (processHand initial pinchingHand) (Some [closedHand])) = true /\
   isPinching (processLandmarks (processHand initial pinchingHand) (Some [closedHand]))
   = false).
Proof.
  split; [|split].
  - apply (proj1 (fist_precedence initial closedHand [])).
    + apply checkFist_geometry. exact closedHand_fist.
    + exact closedHand_pinch.
  - apply (proj1 (proj2 (fist_precedence initial pinchingHand []))).
    rewrite processLandmarks_hand, processHand_isPinching.
    rewrite pinchingHand_no_fist, pinchingHand_pinch.
    reflexivity.
  - apply (proj2 (proj2 (fist_precedence (processHand initial pinchingHand) closedHand []))).
    + exact closedHand_folded.
    + exact closedHand_pinch.
Defined.

(** C9, as stated, fails in both directions.  With index, middle and ring
    finger folded onto the palm and the little finger stretched out, three
    fingers satisfy both conditions, yet [checkFist] answers no; with the four
    fingertips together but away from the palm no finger satisfies the
    distance condition, yet [checkFist] answers yes. *)
Lemma fist_quorum_counterexample :
  (specFist threeFolded = true /\ checkFist threeFolded = false) /\
  (specFist hoveringTips = false /\ checkFist hoveringTips = true).
Proof.
  pose proof threeFolded_verdicts. pose proof hoveringTips_verdicts. tauto.
Qed.

(** C9, amended. A hand is a fist exactly when at least three of the four
    non-thumb fingertips are curled (not above their middle joint by 0.02 or
    more) and, in addition, either all four fingertips are within their
    per-finger distance of the palm reference or index tip and little-finger
    tip are within 0.15 of each other.  In particular a hand whose four fingers
    each satisfy both conditions of the specification is a fist, and every
    fist has three curled fingers. *)
Theorem fist_rule (hand : HandFrame) :
  (checkFist hand = true <->
   atLeastThree (curled hand 8 6) (curled hand 12 10)
                (curled hand 16 14) (curled hand 20 18) /\
   ((distance3D (hand 8%nat) (hand 9%nat) < 0.15 /\
     distance3D (hand 12%nat) (hand 9%nat) < 0.12 /\
     distance3D (hand 16%nat) (hand 9%nat) < 0.15 /\
     distance3D (hand 20%nat) (hand 9%nat) < 0.18) \/
    distance3D (hand 8%nat) (hand 20%nat) < 0.15)) /\
  (fingerFolded hand 8 6 0.15 = true /\ fingerFolded hand 12 10 0.12 = true /\
   fingerFolded hand 16 14 0.15 = true /\ fingerFolded hand 20 18 0.18 = true ->
   checkFist hand = true).
Proof.
  assert (Hiff : checkFist hand = true <->
   atLeastThree (curled hand 8 6) (curled hand 12 10)
                (curled hand 16 14) (curled hand 20 18) /\
   ((distance3D (hand 8%nat) (hand 9%nat) < 0.15 /\
     distance3D (hand 12%nat) (hand 9%nat) < 0.12 /\
     distance3D (hand 16%nat) (hand 9%nat) < 0.15 /\
     distance3D (hand 20%nat) (hand 9%nat) < 0.18) \/
    distance3D (hand 8%nat) (hand 20%nat) < 0.15)).
  { unfold checkFist, curled.
    rewrite andb_true_iff, orb_true_iff, !andb_true_iff, countTrue_three.
    unfold atLeastThree, Rgt.
    rewrite !gtb_true_iff, !ltb_true_iff. tauto. }
  split; [exact Hiff|].
  unfold fingerFolded. rewrite !andb_true_iff, !gtb_true_iff, !ltb_true_iff.
  intros [[H1 D1] [[H2 D2] [[H3 D3] [H4 D4]]]].
  apply Hiff. unfold curled, atLeastThree, Rgt. tauto.
Qed.

Lemma fist_rule_witness : checkFist closedHand = true.
Proof.
  apply (proj2 (fist_rule closedHand)).
  unfold fingerFolded, JS.gtb. cmp. repeat split; reflexivity.
Defined.

(** *** The cursor stays in the unit cube *)

Lemma lerp_unit (current target factor : R) :
  0 <= current <= 1 -> 0 <= target <= 1 -> 0 <= factor <= 1 ->
  0 <= lerp current target factor <= 1.
Proof. unfold lerp. intros. nra. Qed.

Lemma expandRange_unit (value center expansion : R) :
  0 <= expandRange value center expansion <= 1.
Proof. unfold expandRange. apply Rmax_Rmin_unit. Qed.

Lemma calculateHandDepth_unit (hand : HandFrame) :
  0 <= fst (calculateHandDepth hand) <= 1.
Proof.
  unfold calculateHandDepth. cbv zeta. cbn [fst].
  match goal with |- context [Rmin 1 (Rmax 0 ?v)] => pose proof (Rmin_Rmax_unit v) end.
  lra.
Qed.

Lemma calculatePinchDepthAdjustment_unit (hand : HandFrame) :
  0 <= calculatePinchDepthAdjustment hand <= 1.
Proof. unfold calculatePinchDepthAdjustment. cbv zeta. apply Rmin_Rmax_unit. Qed.

Lemma cursorTarget_unit (hand : HandFrame) : inUnitCube (cursorTarget hand).
Proof.
  unfold inUnitCube, cursorTarget. cbv zeta. cbn [vx vy vz].
  pose proof (calculateHandDepth_unit hand).
  pose proof (calculatePinchDepthAdjustment_unit hand).
  repeat split; try apply expandRange_unit;
    destruct (negb (checkFist hand) && _); lra.
Qed.

Lemma smoothToward_unit (last target : Vec3) :
  inUnitCube last -> inUnitCube target -> inUnitCube (smoothToward last target).
Proof.
  unfold inUnitCube, smoothToward, LERP_FACTOR, LERP_FACTOR_DEPTH. cbn [vx vy vz].
  intros (Hx & Hy & Hz) (Tx & Ty & Tz).
  repeat split; apply lerp_unit; lra.
Qed.

Lemma initial_unit : cursorsInUnitCube initial.
Proof. unfold cursorsInUnitCube, inUnitCube, initial. cbn. lra. Qed.

Lemma processLandmarks_unit (s : Tracking) (landmarks : option (list HandFrame)) :
  cursorsInUnitCube s -> cursorsInUnitCube (processLandmarks s landmarks).
Proof.
  intros [Hpos Hlast]. unfold cursorsInUnitCube.
  destruct landmarks as [[|hand rest]|]; [now split | | now split].
  rewrite processLandmarks_hand, processHand_lastPositionRef, processHand_handPosition.
  split; apply smoothToward_unit; auto using cursorTarget_unit.
Qed.

Lemma runDetection_unit (results : list (option (list HandFrame))) (s : Tracking) :
  cursorsInUnitCube s -> cursorsInUnitCube (runDetection s results).
Proof.
  revert s. induction results as [|lm results IH]; intros s Hs; [exact Hs|].
  apply IH. now apply processLandmarks_unit.
Qed.

(** C10. Every cursor the classifier emits has x, y and z in [0, 1]: the
    initial cursor is (0.5, 0.5, 0.5), the targets of the smoothing are in the
    unit cube for every hand, a frame with a hand moves the cursor to a convex
    combination of the previous cursor and the target, a frame without a hand
    leaves it alone, and so the bound holds after any sequence of detector
    results. *)
Theorem cursor_in_unit_cube :
  handPosition initial = vec3 0.5 0.5 0.5 /\
  (forall hand, inUnitCube (cursorTarget hand)) /\
  (forall s hand rest,
     handPosition (processLandmarks s (Some (hand :: rest))) =
     smoothToward (lastPositionRef s) (cursorTarget hand)) /\
  (forall s, handPosition (processLandmarks s None) = handPosition s /\
             handPosition (processLandmarks s (Some [])) = handPosition s) /\
  (forall results, inUnitCube (handPosition (runDetection initial results))).
Proof.
  split; [reflexivity|].
  split; [exact cursorTarget_unit|].
  split; [intros; rewrite processLandmarks_hand; apply processHand_handPosition|].
  split; [intros; split; reflexivity|].
  intro results. apply (runDetection_unit results initial initial_unit).
Qed.

(** *** The same hand twice *)

Lemma lerp_fixed_iff (current target factor : R) :
  factor <> 0 -> (lerp current target factor = current <-> current = target).
Proof. unfold lerp. intro Hf. split; intro H; nra. Qed.

Lemma sideHand_cursorTarget_x : vx (cursorTarget sideHand) = 0.05.
Proof.
  unfold cursorTarget. rewrite sideHand_fist. cbn [negb andb vx].
  unfold expandRange. cbn [sideHand closedHand vx].
  rewrite Rmin_right by lra. rewrite Rmax_right by lra. lra.
Qed.

(** C8, as stated, fails: the second of two identical frames moves the cursor
    further toward the target.  From the initial state, a closed hand at the
    side of the image gives x = 0.3425 on the first frame and x = 0.240125 on
    the second. *)
Lemma repeated_frame_counterexample :
  vx (handPosition (processLandmarks initial (Some [sideHand]))) = 0.3425 /\
  vx (handPosition
        (processLandmarks (processLandmarks initial (Some [sideHand]))
                          (Some [sideHand]))) = 0.240125 /\
  handPosition
    (processLandmarks (processLandmarks initial (Some [sideHand])) (Some [sideHand]))
  <> handPosition (processLandmarks initial (Some [sideHand])).
Proof.
  rewrite !processLandmarks_hand, !processHand_handPosition, processHand_lastPositionRef.
  rewrite processHand_handPosition.
  assert (H1 : vx (smoothToward (lastPositionRef initial) (cursorTarget sideHand)) = 0.3425).
  { unfold smoothToward. cbn [vx]. rewrite sideHand_cursorTarget_x.
    unfold lerp, LERP_FACTOR. cbn. lra. }
  assert (H2 : vx (smoothToward (smoothToward (lastPositionRef initial) (cursorTarget sideHand))
                                (cursorTarget sideHand)) = 0.240125).
  { unfold smoothToward at 1. cbn [vx]. rewrite H1, sideHand_cursorTarget_x.
    unfold lerp, LERP_FACTOR. lra. }
  split; [exact H1|]. split; [exact H2|].
  intro Heq. rewrite Heq in H2. rewrite H1 in H2. lra.
Qed.

(** C8, amended. Of two identical frames in a row, the second stores the
    same gesture flags as the first, and smooths the cursor toward the same
    target as the first, starting from the cursor the first one stored: the
    cursor of the second frame equals that of the first exactly when the first
    one already is at the target.  Two frames without a hand in a row store
    the same state. *)
Theorem repeated_frame (s : Tracking) (hand : HandFrame) (rest : list HandFrame) :
  let s1 := processLandmarks s (Some (hand :: rest)) in
  let s2 := processLandmarks s1 (Some (hand :: rest)) in
  isFist s2 = isFist s1 /\
  isPinching s2 = isPinching s1 /\
  isTracking s2 = isTracking s1 /\
  handPosition s1 = smoothToward (lastPositionRef s) (cursorTarget hand) /\
  handPosition s2 = smoothToward (handPosition s1) (cursorTarget hand) /\
  (handPosition s2 = handPosition s1 <-> handPosition s1 = cursorTarget hand) /\
  processLandmarks (processLandmarks s (Some [])) (Some []) = processLandmarks s (Some []).
Proof.
  cbv zeta. rewrite !processLandmarks_hand.
  split; [reflexivity|]. split; [reflexivity|]. split; [reflexivity|].
  split; [apply processHand_handPosition|].
  split; [rewrite processHand_handPosition, processHand_lastPositionRef; reflexivity|].
  split; [|reflexivity].
  rewrite (processHand_handPosition (processHand s hand)), processHand_lastPositionRef.
  destruct (handPosition (processHand s hand)) as [x y z].
  destruct (cursorTarget hand) as [tx ty tz].
  unfold smoothToward. cbn [vx vy vz]. split; intro H.
  - injection H as Hx Hy Hz.
    apply lerp_fixed_iff in Hx; [|unfold LERP_FACTOR; lra].
    apply lerp_fixed_iff in Hy; [|unfold LERP_FACTOR; lra].
    apply lerp_fixed_iff in Hz; [|unfold LERP_FACTOR_DEPTH; lra].
    congruence.
  - injection H as Hx Hy Hz. subst. unfold lerp. f_equal; lra.
Qed.

Lemma repeated_frame_witness :
  handPosition (processLandmarks (processLandmarks initial (Some [sideHand])) (Some [sideHand]))
  = smoothToward (handPosition (processLandmarks initial (Some [sideHand])))
                 (cursorTarget sideHand).
Proof.
  exact (proj1 (proj2 (proj2 (proj2 (proj2 (repeated_frame initial sideHand [])))))).
Defined.

End HandTrackingFacts.

(** ** Orbital motion *)

Module MotionFacts.

Import Scene JSFacts.

(** Bounds on [PI] from the first terms of the arctangent series. *)
Lemma PI_bounds : 3.13 < PI < 3.143.
Proof.
  pose proof (PI_2_3_7_ineq 1) as H.
  unfold sum_f_R0, tg_alt, PI_2_3_7_tg, Ratan_seq in H. simpl in H.
  lra.
Qed.

(** *** The two loops of lerpAngle *)

Lemma wrapDown_unfold (diff : R) :
  wrapDown diff = if Rgt_dec diff PI then wrapDown (diff - PI * 2) else diff.
Proof.
  rewrite wrapDown_equation_1 at 1. destruct (Rgt_dec diff PI); reflexivity.
Qed.

Lemma wrapUp_unfold (diff : R) :
  wrapUp diff = if Rlt_dec diff (- PI) then wrapUp (diff + PI * 2) else diff.
Proof.
  rewrite wrapUp_equation_1 at 1. destruct (Rlt_dec diff (- PI)); reflexivity.
Qed.

(** Every real lies below some number of whole turns. *)
Lemma turns_bound (x : R) : exists n : nat, x < INR n * (2 * PI).
Proof.
  pose proof PI_RGT_0 as Hpi.
  destruct (archimed (x / (2 * PI))) as [Hup _].
  exists (Z.to_nat (up (x / (2 * PI)))).
  assert (Hz : (up (x / (2 * PI)) <= Z.of_nat (Z.to_nat (up (x / (2 * PI)))))%Z) by lia.
  apply IZR_le in Hz. rewrite <- INR_IZR_INZ in Hz.
  assert (Hx : x = x / (2 * PI) * (2 * PI)) by (field; lra).
  nra.
Qed.

(** What the first loop establishes: the result is at most [PI], it is the
    input moved down by whole turns, and it is above [- PI] if the loop ran
    at all. *)
Lemma wrapDown_spec (diff : R) :
  wrapDown diff <= PI /\
  (diff <= PI -> wrapDown diff = diff) /\
  (PI < diff -> - PI < wrapDown diff) /\
  exists k : Z, wrapDown diff = diff + IZR k * (2 * PI).
Proof.
  pose proof PI_RGT_0 as Hpi.
  destruct (turns_bound (diff - PI)) as [n Hn].
  revert diff Hn. induction n as [|n IH]; intros diff Hn.
  - simpl in Hn. rewrite wrapDown_unfold.
    destruct (Rgt_dec diff PI) as [Hgt|Hle]; [unfold Rgt in Hgt; lra|].
    split; [lra|]. split; [reflexivity|]. split; [intro; lra|].
    exists 0%Z. lra.
  - rewrite wrapDown_unfold.
    destruct (Rgt_dec diff PI) as [Hgt|Hle].
    + unfold Rgt in Hgt.
      destruct (IH (diff - PI * 2)) as (Hle & Hid & Hab & k & Hk).
      { rewrite S_INR in Hn. lra. }
      split; [exact Hle|]. split; [intro; lra|].
      split.
      * intros _. destruct (Rle_lt_dec (diff - PI * 2) PI) as [Hsmall|Hbig].
        -- rewrite (Hid Hsmall). lra.
        -- apply Hab. exact Hbig.
      * exists (k - 1)%Z. rewrite Hk, minus_IZR. lra.
    + split; [lra|]. split; [reflexivity|]. split; [intro; lra|].
      exists 0%Z. lra.
Qed.

Lemma wrapUp_spec (diff : R) :
  - PI <= wrapUp diff /\
  (- PI <= diff -> wrapUp diff = diff) /\
  (diff < - PI -> wrapUp diff < PI) /\
  exists k : Z, wrapUp diff = diff + IZR k * (2 * PI).
Proof.
  pose proof PI_RGT_0 as Hpi.
  destruct (turns_bound (- PI - diff)) as [n Hn].
  revert diff Hn. induction n as [|n IH]; intros diff Hn.
  - simpl in Hn. rewrite wrapUp_unfold.
    destruct (Rlt_dec diff (- PI)) as [Hlt|Hge]; [lra|].
    split; [lra|]. split; [reflexivity|]. split; [intro; lra|].
    exists 0%Z. lra.
  - rewrite wrapUp_unfold.
    destruct (Rlt_dec diff (- PI)) as [Hlt|Hge].
    + destruct (IH (diff + PI * 2)) as (Hge & Hid & Hbe & k & Hk).
      { rewrite S_INR in Hn. lra. }
      split; [exact Hge|]. split; [intro; lra|].
      split.
      * intros _. destruct (Rle_lt_dec (- PI) (diff + PI * 2)) as [Hsmall|Hbig].
        -- rewrite (Hid Hsmall). lra.
        -- apply Hbe. exact Hbig.
      * exists (k + 1)%Z. rewrite Hk, plus_IZR. lra.
    + split; [lra|]. split; [reflexivity|]. split; [intro; lra|].
      exists 0%Z. lra.
Qed.

Lemma normalizedDiff_range (current target : R) :
  - PI <= normalizedDiff current target <= PI.
Proof.
  unfold normalizedDiff.
  destruct (wrapDown_spec (target - current)) as (Hle & _ & _ & _).
  destruct (wrapUp_spec (wrapDown (target - current))) as (Hge & Hid & Hlt & _).
  split; [exact Hge|].
  destruct (Rle_lt_dec (- PI) (wrapDown (target - current))) as [H|H].
  - rewrite (Hid H). exact Hle.
  - apply Rlt_le. apply Hlt. exact H.
Qed.

Lemma normalizedDiff_turns (current target : R) :
  exists k : Z, normalizedDiff current target = target - current + IZR k * (2 * PI).
Proof.
  unfold normalizedDiff.
  destruct (wrapDown_spec (target - current)) as (_ & _ & _ & k1 & H1).
  destruct (wrapUp_spec (wrapDown (target - current))) as (_ & _ & _ & k2 & H2).
  exists (k1 + k2)%Z. rewrite H2, H1, plus_IZR. lra.
Qed.

(** A delta just below a full turn down is brought up by one turn. *)
Lemma normalizedDiff_one_turn_up (current target : R) :
  - 3 * PI <= target - current < - PI ->
  normalizedDiff current target = target - current + PI * 2.
Proof.
  intros [Hlo Hhi]. pose proof PI_RGT_0. unfold normalizedDiff.
  rewrite wrapDown_unfold. destruct (Rgt_dec (target - current) PI); [unfold Rgt in *; lra|].
  rewrite wrapUp_unfold. destruct (Rlt_dec (target - current) (- PI)); [|lra].
  rewrite wrapUp_unfold. destruct (Rlt_dec (target - current + PI * 2) (- PI)); [lra|].
  reflexivity.
Qed.

(** C6, as stated, fails at the boundary: for a delta of exactly [- PI]
    neither loop runs, so the normalized delta is [- PI], which is outside
    the half-open interval of the claim. *)
Lemma shortest_path_counterexample :
  normalizedDiff PI 0 = - PI /\
  lerpAngle PI 0 0.2 = PI + - PI * 0.2 /\
  ~ (- PI < normalizedDiff PI 0 <= PI).
Proof.
  pose proof PI_RGT_0 as Hpi.
  assert (H : normalizedDiff PI 0 = - PI).
  { unfold normalizedDiff.
    destruct (wrapDown_spec (0 - PI)) as (_ & Hid & _).
    rewrite Hid by lra.
    destruct (wrapUp_spec (0 - PI)) as (_ & Hid' & _).
    rewrite Hid' by lra. lra. }
  split; [exact H|]. split; [unfold lerpAngle; rewrite H; reflexivity|].
  rewrite H. lra.
Qed.

Lemma lerpAngleSteps_0 (t target start : R) :
  lerpAngleSteps t target 0 start = start.
Proof. reflexivity. Qed.

Lemma lerpAngleSteps_S (t target : R) (n : nat) (start : R) :
  lerpAngleSteps t target (S n) start =
  lerpAngle (lerpAngleSteps t target n start) target t.
Proof. reflexivity. Qed.

(** From 3.1 toward -3.0: every step goes up by the remaining short distance
    times the rate. *)
Lemma approach_step (t : R) (n : nat) :
  0 < t < 1 ->
  3.1 <= lerpAngleSteps t (-3.0) n 3.1 < 2 * PI - 3 /\
  lerpAngleSteps t (-3.0) (S n) 3.1 =
  lerpAngleSteps t (-3.0) n 3.1 + (2 * PI - 3 - lerpAngleSteps t (-3.0) n 3.1) * t.
Proof.
  intros Ht. pose proof PI_bounds as Hpi.
  induction n as [|n [IHrange IHstep]].
  - rewrite lerpAngleSteps_S, lerpAngleSteps_0. split; [lra|].
    unfold lerpAngle. rewrite normalizedDiff_one_turn_up by lra. lra.
  - assert (Hrange : 3.1 <= lerpAngleSteps t (-3.0) (S n) 3.1 < 2 * PI - 3).
    { rewrite IHstep. nra. }
    split; [exact Hrange|].
    rewrite (lerpAngleSteps_S t (-3.0) (S n)). unfold lerpAngle.
    rewrite normalizedDiff_one_turn_up by lra. lra.
Qed.

(** C6, amended. The delta of an interpolation step is the difference of target
    and current angle moved by whole turns into the closed interval from
    [- PI] to [PI], so a step never covers more than half a turn times the
    rate.  Interpolating from 3.1 toward -3.0 at any rate strictly between 0 and 1, every step
    goes up, toward and through [PI], by less than 0.3; at the two rates of the
    orbit controller the angle is past [PI] after two steps. *)
Theorem shortest_path (current target t : R) :
  (- PI <= normalizedDiff current target <= PI /\
   (exists k : Z, normalizedDiff current target = target - current + IZR k * (2 * PI)) /\
   lerpAngle current target t = current + normalizedDiff current target * t) /\
  (0 < t < 1 ->
   forall n,
     3.1 <= lerpAngleSteps t (-3.0) n 3.1 < 2 * PI - 3 /\
     0 < lerpAngleSteps t (-3.0) (S n) 3.1 - lerpAngleSteps t (-3.0) n 3.1 < 0.3) /\
  (lerpAngleSteps 0.2 (-3.0) 0 3.1 < PI < lerpAngleSteps 0.2 (-3.0) 2 3.1 /\
   lerpAngleSteps 0.15 (-3.0) 0 3.1 < PI < lerpAngleSteps 0.15 (-3.0) 2 3.1).
Proof.
  pose proof PI_bounds as Hpi.
  split; [|split].
  - split; [apply normalizedDiff_range|].
    split; [apply normalizedDiff_turns|reflexivity].
  - intros Ht n. destruct (approach_step t n Ht) as [Hrange Hstep].
    split; [exact Hrange|]. rewrite Hstep. nra.
  - assert (H2 : forall r, 0 < r < 1 ->
              lerpAngleSteps r (-3.0) 2 3.1 =
              3.1 + (2 * PI - 6.1) * r + (2 * PI - 6.1) * (1 - r) * r).
    { intros r Hr.
      destruct (approach_step r 1 Hr) as [_ H1].
      destruct (approach_step r 0 Hr) as [_ H0].
      rewrite H1, H0, lerpAngleSteps_0. lra. }
    rewrite !H2 by lra. rewrite !lerpAngleSteps_0. lra.
Qed.

Lemma shortest_path_witness :
  3.1 <= lerpAngleSteps 0.2 (-3.0) 1 3.1 < 2 * PI - 3 /\
  0 < lerpAngleSteps 0.2 (-3.0) 2 3.1 - lerpAngleSteps 0.2 (-3.0) 1 3.1 < 0.3.
Proof.
  apply (proj1 (proj2 (shortest_path 0 0 0.2))). lra.
Defined.

(** *** Target radius of a grabbed orb *)

Lemma clampedRadius_range (targetDist : R) :
  MIN_ORBIT_RADIUS <= clampedRadius targetDist <= MAX_ORBIT_RADIUS.
Proof.
  unfold clampedRadius, MIN_ORBIT_RADIUS, MAX_ORBIT_RADIUS, Rmax, Rmin.
  destruct (Rle_dec 12 targetDist); destruct (Rle_dec 2.0 _); lra.
Qed.




End MotionFacts.

(** ** Candidate search and lock frame *)

Module LockFacts.

Import Scene JSFacts.

Lemma sameId_true_iff (a b : option OrbId) : sameId a b = true <-> a = b.
Proof.
  destruct a as [x|], b as [y|]; simpl; split; intro H;
    try reflexivity; try discriminate.
  - apply String.eqb_eq in H. now subst.
  - injection H as ->. apply String.eqb_refl.
Qed.

Lemma sameId_refl (a : option OrbId) : sameId a a = true.
Proof. now apply sameId_true_iff. Qed.

Lemma sameId_false_iff (a b : option OrbId) : sameId a b = false <-> a <> b.
Proof.
  destruct (sameId a b) eqn:E; split; intro H; try reflexivity; try discriminate.
  - apply sameId_true_iff in E. contradiction.
  - intro Heq. apply sameId_true_iff in Heq. congruence.
Qed.

Lemma held_truthy (v : option OrbId) : JS.truthy v = true -> held v = v.
Proof. unfold held. now intros ->. Qed.

Lemma held_falsy (v : option OrbId) : JS.truthy v = false -> held v = None.
Proof. unfold held. now intros ->. Qed.

(** *** The lock frame, case by case *)

Section LockFrameCases.

Variables (cam : Camera) (now : R) (visual : Obj.t Vec3) (p : Props) (l : LockRefs).

Local Abbreviation currentClosest :=
  (getClosestOrbForHand cam visual (p_orbs p) (p_handPosition p)
     (Obj.values (p_grabbedOrbs p))).


Lemma lockFrame_cleared :
  JS.truthy (p_grabbedOrbId p) = false ->
  p_isTracking p = false \/ isCameraMode (p_cameraMode p) = true ->
  lockFrame cam now visual p l =
  {| lockedOrbRef := None; lockCandidateRef := None;
     lockStartTimeRef := lockStartTimeRef l; closestOrbRef := None |}.
Proof.
  intros Hg Hc. unfold lockFrame. rewrite Hg.
  destruct Hc as [-> | ->]; [reflexivity|]. now rewrite orb_true_r.
Qed.

Lemma lockFrame_new_candidate (c : OrbId) :
  searching p -> JS.truthy (lockedOrbRef l) = false ->
  currentClosest = Some c -> c <> EmptyString ->
  lockCandidateRef l <> Some c ->
  lockFrame cam now visual p l =
  {| lockedOrbRef := lockedOrbRef l; lockCandidateRef := Some c;
     lockStartTimeRef := now; closestOrbRef := Some c |}.
Proof.
  intros (Hg & Ht & Hm) Hl Hcc Hc Hcand. unfold lockFrame.
  rewrite Hg, Ht, Hm, Hl. cbn [negb Datatypes.orb]. rewrite Hcc.
  rewrite (truthy_Some c Hc).
  assert (Hne : sameId (Some c) (lockCandidateRef l) = false)
    by (apply sameId_false_iff; congruence).
  rewrite Hne. cbn [lockedOrbRef lockCandidateRef lockStartTimeRef].
  unfold JS.orStr. now rewrite Hl.
Qed.

Lemma lockFrame_keep_candidate (c : OrbId) :
  searching p -> JS.truthy (lockedOrbRef l) = false ->
  currentClosest = Some c -> c <> EmptyString ->
  lockCandidateRef l = Some c ->
  now - lockStartTimeRef l < LOCK_TIME ->
  lockFrame cam now visual p l =
  {| lockedOrbRef := lockedOrbRef l; lockCandidateRef := Some c;
     lockStartTimeRef := lockStartTimeRef l; closestOrbRef := Some c |}.
Proof.
  intros (Hg & Ht & Hm) Hl Hcc Hc Hcand Htime. unfold lockFrame.
  rewrite Hg, Ht, Hm, Hl. cbn [negb Datatypes.orb]. rewrite Hcc.
  rewrite (truthy_Some c Hc), Hcand, sameId_refl.
  rewrite (proj2 (geb_false_iff _ _) Htime).
  rewrite Hcand. unfold JS.orStr. now rewrite Hl.
Qed.

Lemma lockFrame_acquire (c : OrbId) :
  searching p -> JS.truthy (lockedOrbRef l) = false ->
  currentClosest = Some c -> c <> EmptyString ->
  lockCandidateRef l = Some c ->
  LOCK_TIME <= now - lockStartTimeRef l ->
  lockFrame cam now visual p l =
  {| lockedOrbRef := Some c; lockCandidateRef := None;
     lockStartTimeRef := lockStartTimeRef l; closestOrbRef := Some c |}.
Proof.
  intros (Hg & Ht & Hm) Hl Hcc Hc Hcand Htime. unfold lockFrame.
  rewrite Hg, Ht, Hm, Hl. cbn [negb Datatypes.orb]. rewrite Hcc.
  rewrite (truthy_Some c Hc), Hcand, sameId_refl.
  rewrite (proj2 (geb_true_iff _ _) Htime).
  cbn [lockedOrbRef lockCandidateRef lockStartTimeRef].
  unfold JS.orStr. now rewrite (truthy_Some c Hc).
Qed.

Lemma lockFrame_no_candidate :
  searching p -> JS.truthy (lockedOrbRef l) = false ->
  JS.truthy currentClosest = false ->
  lockFrame cam now visual p l =
  {| lockedOrbRef := lockedOrbRef l; lockCandidateRef := None;
     lockStartTimeRef := lockStartTimeRef l; closestOrbRef := None |}.
Proof.
  intros (Hg & Ht & Hm) Hl Hcc. unfold lockFrame.
  rewrite Hg, Ht, Hm, Hl. cbn [negb Datatypes.orb]. rewrite Hcc.
  cbn [lockedOrbRef lockCandidateRef lockStartTimeRef].
  unfold JS.orStr. now rewrite Hl.
Qed.

(** A locked orb that is still in the scene and active: the lock is kept
    up to the release threshold and dropped beyond it. *)
Lemma lockFrame_locked_near (o : OrbId) (orb : Orb) :
  searching p -> lockedOrbRef l = Some o -> o <> EmptyString ->
  find (fun x => sameId (Some (id x)) (lockedOrbRef l)) (p_orbs p) = Some orb ->
  active orb = true ->
  screenDistance (p_handPosition p) (project cam (orbPosOf visual orb)) <= unlockThreshold ->
  lockFrame cam now visual p l =
  {| lockedOrbRef := Some o; lockCandidateRef := lockCandidateRef l;
     lockStartTimeRef := lockStartTimeRef l; closestOrbRef := Some o |}.
Proof.
  intros (Hg & Ht & Hm) Hl Ho Hfind Hact Hdist. unfold lockFrame.
  rewrite Hg, Ht, Hm. cbn [negb Datatypes.orb]. rewrite Hfind, Hact.
  rewrite Hl at 1. rewrite (truthy_Some o Ho).
  rewrite (proj2 (gtb_false_iff _ _) Hdist). now rewrite Hl.
Qed.

Lemma lockFrame_locked_far (o : OrbId) (orb : Orb) :
  searching p -> lockedOrbRef l = Some o -> o <> EmptyString ->
  find (fun x => sameId (Some (id x)) (lockedOrbRef l)) (p_orbs p) = Some orb ->
  active orb = true ->
  unlockThreshold < screenDistance (p_handPosition p) (project cam (orbPosOf visual orb)) ->
  lockFrame cam now visual p l =
  {| lockedOrbRef := None; lockCandidateRef := currentClosest;
     lockStartTimeRef := now; closestOrbRef := None |}.
Proof.
  intros (Hg & Ht & Hm) Hl Ho Hfind Hact Hdist. unfold lockFrame.
  rewrite Hg, Ht, Hm. cbn [negb Datatypes.orb]. rewrite Hfind, Hact.
  rewrite Hl at 1. rewrite (truthy_Some o Ho).
  rewrite (proj2 (gtb_true_iff _ _) Hdist). reflexivity.
Qed.

Lemma lockFrame_locked_gone (o : OrbId) :
  searching p -> lockedOrbRef l = Some o -> o <> EmptyString ->
  match find (fun x => sameId (Some (id x)) (lockedOrbRef l)) (p_orbs p) with
  | Some orb => active orb = false
  | None => True
  end ->
  lockFrame cam now visual p l =
  {| lockedOrbRef := None; lockCandidateRef := currentClosest;
     lockStartTimeRef := now; closestOrbRef := None |}.
Proof.
  intros (Hg & Ht & Hm) Hl Ho Hfind. unfold lockFrame.
  rewrite Hg, Ht, Hm. cbn [negb Datatypes.orb].
  rewrite Hl at 1. rewrite (truthy_Some o Ho).
  destruct (find _ (p_orbs p)) as [orb|]; [rewrite Hfind|]; reflexivity.
Qed.

End LockFrameCases.

(** *** An example search *)

Lemma orElse_Some (r d : R) : r <> 0 -> JS.orElse (Some r) d = r.
Proof. intro H. unfold JS.orElse. destruct (Req_dec_T r 0); [contradiction|reflexivity]. Qed.

Lemma screenDistance_centre (z : R) :
  screenDistance (vec3 0.5 0.5 z) (vec3 0 0 0) = 0.
Proof.
  unfold screenDistance. cbn [vx vy].
  replace ((0.5 - (0 + 1) / 2) * (0.5 - (0 + 1) / 2) +
           (0.5 - (0 + 1) / 2) * (0.5 - (0 + 1) / 2)) with 0 by lra.
  apply sqrt_0.
Qed.

Lemma earth_distFromCamera :
  distanceTo (position earth) (cameraPosition fixedHitCamera) = 20.
Proof.
  unfold distanceTo. cbn [earth fixedHitCamera position cameraPosition vx vy vz].
  replace ((4.5 - 4.5) * (4.5 - 4.5) + (0 - 12) * (0 - 12) + (0 - 16) * (0 - 16))
    with (20 * 20) by lra.
  apply sqrt_square. lra.
Qed.

Lemma earth_selectionThreshold : selectionThreshold earth 20 = 0.25.
Proof.
  unfold selectionThreshold. cbn [earth planetSize].
  rewrite orElse_Some by lra.
  rewrite Rmin_right by lra. rewrite Rmax_right by lra. lra.
Qed.

Lemma earth_closest (z : R) (excluded : list OrbId) :
  existsb (String.eqb "earth") excluded = false ->
  getClosestOrbForHand fixedHitCamera [] [earth] (vec3 0.5 0.5 z) excluded = Some "earth".
Proof.
  intro Hex. unfold getClosestOrbForHand. cbn [fold_left]. unfold closestStep.
  change (active earth) with true. change (id earth) with "earth". rewrite Hex.
  change (orbPosOf [] earth) with (position earth).
  rewrite earth_distFromCamera, earth_selectionThreshold.
  change (project fixedHitCamera (position earth)) with (vec3 0 0 0).
  rewrite screenDistance_centre. cbn [vz negb].
  rewrite (proj2 (gtb_false_iff 0 1)) by lra.
  rewrite (proj2 (ltb_false_iff 0 (-1))) by lra.
  rewrite (proj2 (geb_false_iff 0 0.25)) by lra.
  reflexivity.
Qed.

Lemma hoverInput_hovering (now : R) : hovering "earth" (hoverInput now).
Proof.
  split; [repeat split|]. apply earth_closest. reflexivity.
Qed.

(** *** Dwell *)

Lemma lockFrames_app (l : LockRefs) (xs ys : list LockInput) :
  lockFrames l (xs ++ ys) = lockFrames (lockFrames l xs) ys.
Proof. apply fold_left_app. Qed.

(** While the same candidate is hovered for less than the dwell time, the
    refs do not move apart from the id shown as closest. *)
Lemma lockFrames_keep_candidate (c : OrbId) (inputs : list LockInput) (l : LockRefs) :
  c <> EmptyString ->
  JS.truthy (lockedOrbRef l) = false ->
  lockCandidateRef l = Some c ->
  Forall (hovering c) inputs ->
  Forall (fun i => li_now i - lockStartTimeRef l < LOCK_TIME) inputs ->
  JS.truthy (lockedOrbRef (lockFrames l inputs)) = false /\
  lockCandidateRef (lockFrames l inputs) = Some c /\
  lockStartTimeRef (lockFrames l inputs) = lockStartTimeRef l.
Proof.
  intros Hc. revert l. induction inputs as [|i inputs IH]; intros l Hl Hcand Hhov Htime.
  - now repeat split.
  - inversion Hhov as [|? ? [Hs Hcc] Hhov']; subst.
    inversion Htime as [|? ? Hnow Htime']; subst.
    cbn [lockFrames fold_left]. fold (lockFrames (lockFrameOn l i) inputs).
    assert (Hstep : lockFrameOn l i =
              {| lockedOrbRef := lockedOrbRef l; lockCandidateRef := Some c;
                 lockStartTimeRef := lockStartTimeRef l; closestOrbRef := Some c |})
      by (apply lockFrame_keep_candidate; assumption).
    rewrite Hstep.
    destruct (IH {| lockedOrbRef := lockedOrbRef l; lockCandidateRef := Some c;
                    lockStartTimeRef := lockStartTimeRef l; closestOrbRef := Some c |})
      as (H1 & H2 & H3); try assumption; try reflexivity.
    now repeat split.
Qed.

Lemma lockState_candidate (c : OrbId) (l : LockRefs) :
  c <> EmptyString -> JS.truthy (lockedOrbRef l) = false ->
  lockCandidateRef l = Some c -> lockState None l = CANDIDATE c.
Proof.
  intros Hc Hl Hcand. unfold lockState.
  rewrite (held_falsy _ Hl), Hcand, (held_truthy _ (truthy_Some c Hc)).
  reflexivity.
Qed.

Lemma lockState_locked (c : OrbId) (l : LockRefs) :
  c <> EmptyString -> lockedOrbRef l = Some c -> lockState None l = LOCKED c.
Proof.
  intros Hc Hl. unfold lockState.
  rewrite Hl, (held_truthy _ (truthy_Some c Hc)). reflexivity.
Qed.

(** C4. Dwell hysteresis: from a state without a lock, if the candidate search
    returns the same id [c] in every frame, then after any number of frames
    whose elapsed hover time (counted from the first frame with that
    candidate) is below [LOCK_TIME] the lock state is CANDIDATE [c], and one
    frame later, at or past [LOCK_TIME], it is LOCKED [c]. *)
Theorem dwell_hysteresis (c : OrbId) (l0 : LockRefs)
  (first : LockInput) (inputs : list LockInput) (last : LockInput) :
  c <> EmptyString ->
  JS.truthy (lockedOrbRef l0) = false ->
  lockCandidateRef l0 <> Some c ->
  hovering c first ->
  Forall (hovering c) inputs ->
  hovering c last ->
  Forall (fun i => li_now i - li_now first < LOCK_TIME) inputs ->
  LOCK_TIME <= li_now last - li_now first ->
  lockState None (lockFrames l0 (first :: inputs)) = CANDIDATE c /\
  lockState None (lockFrames l0 (first :: inputs ++ [last])) = LOCKED c.
Proof.
  intros Hc Hl0 Hother [Hs1 Hcc1] Hhov [Hs2 Hcc2] Htime Hlast.
  assert (Hfirst : lockFrameOn l0 first =
            {| lockedOrbRef := lockedOrbRef l0; lockCandidateRef := Some c;
               lockStartTimeRef := li_now first; closestOrbRef := Some c |})
    by (apply lockFrame_new_candidate; assumption).
  set (l1 := lockFrameOn l0 first) in *.
  assert (Hkeep : JS.truthy (lockedOrbRef (lockFrames l1 inputs)) = false /\
                  lockCandidateRef (lockFrames l1 inputs) = Some c /\
                  lockStartTimeRef (lockFrames l1 inputs) = lockStartTimeRef l1).
  { apply lockFrames_keep_candidate; rewrite ?Hfirst; try assumption; reflexivity. }
  destruct Hkeep as (Hk1 & Hk2 & Hk3).
  change (lockFrames l0 (first :: inputs)) with (lockFrames l1 inputs).
  change (lockFrames l0 (first :: inputs ++ [last]))
    with (lockFrames l1 (inputs ++ [last])).
  split.
  - now apply lockState_candidate.
  - rewrite lockFrames_app. cbn [lockFrames fold_left].
    apply lockState_locked; [exact Hc|].
    unfold lockFrameOn at 1. rewrite (lockFrame_acquire _ _ _ _ _ c); try assumption.
    + reflexivity.
    + rewrite Hk3, Hfirst. exact Hlast.
Qed.

Lemma dwell_hysteresis_witness :
  lockState None (lockFrames initialLock [hoverInput 1000; hoverInput 1100; hoverInput 1249])
  = CANDIDATE "earth" /\
  lockState None
    (lockFrames initialLock [hoverInput 1000; hoverInput 1100; hoverInput 1249; hoverInput 1250])
  = LOCKED "earth".
Proof.
  apply (dwell_hysteresis "earth" initialLock (hoverInput 1000)
           [hoverInput 1100; hoverInput 1249] (hoverInput 1250)).
  - discriminate.
  - reflexivity.
  - discriminate.
  - apply hoverInput_hovering.
  - repeat constructor; apply hoverInput_hovering.
  - apply hoverInput_hovering.
  - repeat constructor; unfold LOCK_TIME; cbn [hoverInput li_now]; lra.
  - unfold LOCK_TIME; cbn [hoverInput li_now]; lra.
Defined.

(** *** Acquisition and release thresholds *)

(** C2, as stated, fails: the acquisition threshold grows as the orb comes
    closer to the camera, and the release threshold does not.  For an orb of
    size 0.9 at distance 16 from the camera the acquisition threshold is
    0.3625, above the release threshold 0.3. *)
Lemma asymmetric_release_counterexample :
  selectionThreshold jupiter 16 = 0.3625 /\
  ~ (selectionThreshold jupiter 16 < unlockThreshold).
Proof.
  assert (H : selectionThreshold jupiter 16 = 0.3625).
  { unfold selectionThreshold. cbn [jupiter planetSize].
    rewrite orElse_Some by lra.
    rewrite Rmin_right by lra. rewrite Rmax_right by lra. lra. }
  split; [exact H|]. rewrite H. unfold unlockThreshold. lra.
Qed.

Lemma distanceFactor_far (d : R) : 20 <= d -> Rmax 0.5 (20 / d) <= 1.
Proof.
  intro Hd. assert (H : 20 / d <= 1).
  { apply Rmult_le_reg_r with d; [lra|]. unfold Rdiv.
    rewrite Rmult_assoc, Rinv_l by lra. lra. }
  unfold Rmax. destruct (Rle_dec 0.5 (20 / d)); lra.
Qed.

Lemma distanceFactor_very_far (d : R) : 70 / 3 < d -> Rmax 0.5 (20 / d) < 6 / 7.
Proof.
  intro Hd. assert (H : 20 / d < 6 / 7).
  { apply Rmult_lt_reg_r with d; [lra|]. unfold Rdiv at 1.
    rewrite Rmult_assoc, Rinv_l by lra. lra. }
  unfold Rmax. destruct (Rle_dec 0.5 (20 / d)); lra.
Qed.

Lemma distanceFactor_pos (d : R) : 0.5 <= Rmax 0.5 (20 / d).
Proof. apply Rmax_l. Qed.

(** C2, amended. The release threshold is the constant 0.3.  The acquisition
    threshold of an orb is strictly below it when the orb is at least 20 away
    from the camera and its size is below 1, and for every size when it is
    more than 70/3 away; it is not below it at every distance.  Whatever the
    acquisition threshold, in a frame in which the hand is tracked, nothing is
    grabbed and the camera mode is off, a locked orb that is still in the
    scene and active stays locked as long as its screen distance from the
    cursor is at most the release threshold, and loses the lock beyond it. *)
Theorem asymmetric_release :
  (forall orb d,
     20 <= d -> JS.orElse (planetSize orb) 0.5 < 1 ->
     selectionThreshold orb d < unlockThreshold) /\
  (forall orb d,
     70 / 3 < d -> selectionThreshold orb d < unlockThreshold) /\
  (forall cam now visual p l o orb,
     searching p -> lockedOrbRef l = Some o -> o <> EmptyString ->
     find (fun x => sameId (Some (id x)) (lockedOrbRef l)) (p_orbs p) = Some orb ->
     active orb = true ->
     (screenDistance (p_handPosition p) (project cam (orbPosOf visual orb)) <= unlockThreshold ->
      lockedOrbRef (lockFrame cam now visual p l) = Some o /\
      lockState None (lockFrame cam now visual p l) = LOCKED o) /\
     (unlockThreshold < screenDistance (p_handPosition p) (project cam (orbPosOf visual orb)) ->
      lockedOrbRef (lockFrame cam now visual p l) = None)).
Proof.
  split; [|split].
  - intros orb d Hd Hsize. unfold selectionThreshold, unlockThreshold.
    pose proof (distanceFactor_far d Hd) as Hf1.
    pose proof (distanceFactor_pos d) as Hf0.
    set (f := Rmax 0.5 (20 / d)) in *.
    set (size := JS.orElse (planetSize orb) 0.5) in *.
    pose proof (Rmin_r 0.35 (0.20 + size * 0.10)) as Hm.
    set (m := Rmin 0.35 (0.20 + size * 0.10)) in *.
    destruct (Rle_lt_dec m 0); nra.
  - intros orb d Hd. unfold selectionThreshold, unlockThreshold.
    pose proof (distanceFactor_very_far d Hd) as Hf1.
    pose proof (distanceFactor_pos d) as Hf0.
    set (f := Rmax 0.5 (20 / d)) in *.
    pose proof (Rmin_l 0.35 (0.20 + JS.orElse (planetSize orb) 0.5 * 0.10)) as Hm.
    set (m := Rmin 0.35 _) in *.
    destruct (Rle_lt_dec m 0); nra.
  - intros cam now visual p l o orb Hs Hl Ho Hfind Hact. split; intro Hdist.
    + rewrite (lockFrame_locked_near cam now visual p l o orb) by assumption.
      split; [reflexivity|]. now apply lockState_locked.
    + rewrite (lockFrame_locked_far cam now visual p l o orb) by assumption.
      reflexivity.
Qed.

(** A locked orb in the example scene, with the cursor on it. *)
Lemma asymmetric_release_witness :
  selectionThreshold earth 20 < unlockThreshold /\
  lockedOrbRef
    (lockFrame fixedHitCamera 2000 [] (appProps earthApp openAtCentre)
       {| lockedOrbRef := Some "earth"; lockCandidateRef := None;
          lockStartTimeRef := 1000; closestOrbRef := Some "earth" |}) = Some "earth".
Proof.
  split.
  - apply (proj1 asymmetric_release); [lra|].
    cbn [earth planetSize]. rewrite orElse_Some by lra. lra.
  - refine (proj1 (proj1 (proj2 (proj2 asymmetric_release) fixedHitCamera 2000 []
                             (appProps earthApp openAtCentre)
                             {| lockedOrbRef := Some "earth"; lockCandidateRef := None;
                                lockStartTimeRef := 1000; closestOrbRef := Some "earth" |}
                             "earth" earth _ _ _ _ _) _)).
    + repeat split.
    + reflexivity.
    + discriminate.
    + reflexivity.
    + reflexivity.
    + change (project fixedHitCamera (orbPosOf [] earth)) with (vec3 0 0 0).
      change (p_handPosition (appProps earthApp openAtCentre)) with (vec3 0.5 0.5 0.5).
      rewrite screenDistance_centre. unfold unlockThreshold. lra.
Defined.

End LockFacts.

(** ** Grabs: exclusivity and release *)

Module GrabFacts.

Import Scene JSFacts LockFacts.

(** *** The candidate search never returns an excluded id *)

Section Search.

Variables (cam : Camera) (visual : Obj.t Vec3) (handPos : Vec3) (excludeOrbIds : list OrbId).

Lemma closestStep_picked (all : list Orb) (acc : option OrbId * option R) (orb : Orb) :
  In orb all ->
  (forall o, fst acc = Some o -> picked excludeOrbIds all o) ->
  forall o, fst (closestStep cam visual handPos excludeOrbIds acc orb) = Some o ->
            picked excludeOrbIds all o.
Proof.
  intros Hin Hacc o. unfold closestStep.
  destruct (active orb) eqn:Hact; cbn [negb]; [|apply Hacc].
  destruct (existsb _ excludeOrbIds) eqn:Hex; [apply Hacc|].
  destruct (JS.gtb _ 1 || JS.ltb _ (-1)); [apply Hacc|].
  destruct (JS.geb _ _); [apply Hacc|].
  destruct (belowScore _ _); [|apply Hacc].
  cbn [fst]. intro H. injection H as <-. now exists orb.
Qed.

Lemma fold_closestStep_picked (all orbs : list Orb) (acc : option OrbId * option R) :
  incl orbs all ->
  (forall o, fst acc = Some o -> picked excludeOrbIds all o) ->
  forall o, fst (fold_left (closestStep cam visual handPos excludeOrbIds) orbs acc) = Some o ->
            picked excludeOrbIds all o.
Proof.
  revert acc. induction orbs as [|orb orbs IH]; intros acc Hincl Hacc o; [apply Hacc|].
  cbn [fold_left]. apply IH.
  - intros x Hx. apply Hincl. now right.
  - apply closestStep_picked; [apply Hincl; now left|exact Hacc].
Qed.

Lemma getClosestOrbForHand_picked (orbs : list Orb) (o : OrbId) :
  getClosestOrbForHand cam visual orbs handPos excludeOrbIds = Some o ->
  picked excludeOrbIds orbs o.
Proof.
  unfold getClosestOrbForHand. apply fold_closestStep_picked.
  - apply incl_refl.
  - cbn [fst]. discriminate.
Qed.



End Search.

(** *** What the orb frames ask of App *)

Lemma grabDetection_actions (p : Props) (l : LockRefs) (orb : Orb) (playerId : PlayerId)
  (r : OrbRefs) :
  snd (grabDetection p l orb playerId r) =
  if p_isTracking p && active orb then
    if p_isPinching p then
      if (sameId (lockedOrbRef l) (Some (id orb)) || sameId (p_grabbedOrbId p) (Some (id orb)))
         && negb (sameId (p_grabbedOrbId p) (Some (id orb)))
      then [SetGrabbedOrbId (Some (id orb)) playerId]
      else []
    else
      if sameId (p_grabbedOrbId p) (Some (id orb))
      then [SetGrabbedOrbId None playerId; UpdateOrbPosition (id orb) (currentPosition r)]
      else []
  else [].
Proof.
  unfold grabDetection.
  destruct (p_isTracking p && active orb); [|reflexivity].
  destruct (p_isPinching p); cbn [andb negb].
  - destruct ((sameId (lockedOrbRef l) (Some (id orb)) || _) && _); reflexivity.
  - destruct (sameId (p_grabbedOrbId p) (Some (id orb))); reflexivity.
Qed.

Lemma soundOrbFrame_actions (cam : Camera) (delta : R) (p : Props) (l : LockRefs)
  (orb : Orb) (r : OrbRefs) :
  snd (fst (soundOrbFrame cam delta p l orb "player_0" r)) = orbActions p l orb r.
Proof.
  unfold soundOrbFrame, orbActions.
  destruct (isCameraMode (p_cameraMode p)); [reflexivity|].
  destruct (grabDetection p l orb "player_0" r) as [r1 acts]. reflexivity.
Qed.


Lemma orbFramesStep_actions (cam : Camera) (delta : R) (p : Props) (l : LockRefs)
  (visual : Obj.t Vec3) (rs : Obj.t OrbRefs) (acts : list Action) (orb : Orb) :
  snd (orbFramesStep cam delta p l (visual, rs, acts) orb) =
  (acts ++ orbActions p l orb (refsOf rs orb))%list.
Proof.
  unfold orbFramesStep. rewrite <- (soundOrbFrame_actions cam delta).
  destruct (soundOrbFrame cam delta p l orb "player_0" (refsOf rs orb)) as [[r' acts'] reg].
  reflexivity.
Qed.

Lemma orbFramesStep_refs (cam : Camera) (delta : R) (p : Props) (l : LockRefs)
  (visual : Obj.t Vec3) (rs : Obj.t OrbRefs) (acts : list Action) (orb : Orb) :
  exists r', snd (fst (orbFramesStep cam delta p l (visual, rs, acts) orb)) =
             Obj.set rs (id orb) r'.
Proof.
  unfold orbFramesStep.
  destruct (soundOrbFrame cam delta p l orb "player_0" (refsOf rs orb)) as [[r' acts'] reg].
  now exists r'.
Qed.



(** *** At most one entry in grabbedOrbs *)



Lemma mountedFrame_app (order : FrameOrder) (env : Env) (t : HandTracking.Tracking) (w : World) :
  exists l,
    app (mountedFrame order env t w) =
    fold_left applyAction
      (snd (orbFrames (env_camera env) (env_delta env) (appProps (app w) t) l
              (orbVisualPositionsRef (refs w)) (soundOrbRefs (refs w))))
      (app w) /\
    (l = lock (refs w) \/ l = lock (refs (mountedFrame order env t w))).
Proof.
  destruct order; unfold mountedFrame.
  - exists (lockFrame (env_camera env) (env_now env) (orbVisualPositionsRef (refs w))
              (appProps (app w) t) (lock (refs w))).
    destruct (orbFrames _ _ _ _ _ _) as [[v rs] acts].
    cbn [app refs lock snd]. split; [reflexivity|]. now right.
  - exists (lock (refs w)). destruct (orbFrames _ _ _ _ _ _) as [[v rs] acts].
    cbn [app snd]. split; [reflexivity|]. now left.
Qed.

(** The frame of the scene is the frame of the default view or the frame of
    a view without orbs. *)
Lemma sceneFrame_default (order : FrameOrder) (env : Env) (t : HandTracking.Tracking)
  (w : World) :
  env_viewMode env = "default" -> sceneFrame order env t w = mountedFrame order env t w.
Proof. intro Hv. unfold sceneFrame. now rewrite Hv. Qed.

Lemma sceneFrame_hidden (order : FrameOrder) (env : Env) (t : HandTracking.Tracking)
  (w : World) :
  env_viewMode env <> "default" -> sceneFrame order env t w = hiddenFrame env t w.
Proof.
  intro Hv. unfold sceneFrame. now rewrite (proj2 (String.eqb_neq _ _) Hv).
Qed.

Lemma sceneFrame_cases (order : FrameOrder) (env : Env) (t : HandTracking.Tracking)
  (w : World) :
  (env_viewMode env = "default" /\ sceneFrame order env t w = mountedFrame order env t w) \/
  (env_viewMode env <> "default" /\ sceneFrame order env t w = hiddenFrame env t w).
Proof.
  destruct (string_dec (env_viewMode env) "default") as [Hv|Hv].
  - left. split; [exact Hv|now apply sceneFrame_default].
  - right. split; [exact Hv|now apply sceneFrame_hidden].
Qed.

Lemma sceneFrame_example (order : FrameOrder) (now : R) (t : HandTracking.Tracking)
  (w : World) :
  sceneFrame order (exampleEnv now) t w = mountedFrame order (exampleEnv now) t w.
Proof. reflexivity. Qed.



(** *** The actions of a whole frame *)



Lemma refsOf_set_other (rs : Obj.t OrbRefs) (k : OrbId) (r : OrbRefs) (orb : Orb) :
  k <> id orb -> refsOf (Obj.set rs k r) orb = refsOf rs orb.
Proof. intro Hne. unfold refsOf. now rewrite ObjFacts.get_set_other. Qed.

Lemma flat_map_ext_in {A B : Type} (f g : A -> list B) (l : list A) :
  (forall a, In a l -> f a = g a) -> flat_map f l = flat_map g l.
Proof.
  intro H. induction l as [|a l IH]; [reflexivity|].
  cbn [flat_map]. rewrite H by (now left). rewrite IH; [reflexivity|].
  intros b Hb. apply H. now right.
Qed.

Lemma fold_orbFramesStep_actions (cam : Camera) (delta : R) (p : Props) (l : LockRefs)
  (orbs : list Orb) (visual : Obj.t Vec3) (rs : Obj.t OrbRefs) (acts : list Action) :
  NoDup (map id orbs) ->
  snd (fold_left (orbFramesStep cam delta p l) orbs (visual, rs, acts)) =
  (acts ++ flat_map (fun orb => orbActions p l orb (refsOf rs orb)) orbs)%list.
Proof.
  revert visual rs acts. induction orbs as [|orb orbs IH]; intros visual rs acts Hnd.
  - cbn. now rewrite app_nil_r.
  - cbn [fold_left flat_map]. cbn [map] in Hnd. inversion Hnd as [|? ? Hnotin Hnd']; subst.
    destruct (orbFramesStep_refs cam delta p l visual rs acts orb) as [r' Hrs].
    pose proof (orbFramesStep_actions cam delta p l visual rs acts orb) as Hacts.
    destruct (orbFramesStep cam delta p l (visual, rs, acts) orb) as [[visual1 rs1] acts1].
    cbn [fst snd] in Hrs, Hacts. subst rs1 acts1.
    rewrite IH by assumption. rewrite <- app_assoc. f_equal. f_equal.
    apply flat_map_ext_in. intros x Hx. f_equal.
    apply refsOf_set_other. intro Heq. apply Hnotin. rewrite Heq. now apply in_map.
Qed.

Lemma orbFrames_actions (cam : Camera) (delta : R) (p : Props) (l : LockRefs)
  (visual : Obj.t Vec3) (rs : Obj.t OrbRefs) :
  NoDup (map id (p_orbs p)) ->
  snd (orbFrames cam delta p l visual rs) =
  flat_map (fun orb => orbActions p l orb (refsOf rs orb)) (p_orbs p).
Proof. intro Hnd. unfold orbFrames. now rewrite fold_orbFramesStep_actions. Qed.

(** The lock refs after a frame. *)
Lemma mountedFrame_lock (order : FrameOrder) (env : Env) (t : HandTracking.Tracking) (w : World) :
  exists visual,
    lock (refs (mountedFrame order env t w)) =
    lockFrame (env_camera env) (env_now env) visual (appProps (app w) t) (lock (refs w)).
Proof.
  destruct order; unfold mountedFrame.
  - exists (orbVisualPositionsRef (refs w)).
    destruct (orbFrames _ _ _ _ _ _) as [[v rs] acts]. reflexivity.
  - destruct (orbFrames _ _ _ _ _ _) as [[v rs] acts]. now exists v.
Qed.

(** *** A held orb is held exclusively *)















(** A frame whose orbs call no callback leaves the state of [App] alone. *)
Lemma mountedFrame_app_quiet (order : FrameOrder) (env : Env) (t : HandTracking.Tracking)
  (w : World) :
  (forall l orb r, orbActions (appProps (app w) t) l orb r = []) ->
  app (mountedFrame order env t w) = app w.
Proof.
  intro Hquiet. destruct (mountedFrame_app order env t w) as (l & -> & _).
  assert (Hnil : forall os acc,
            snd acc = [] ->
            snd (fold_left (orbFramesStep (env_camera env) (env_delta env)
                              (appProps (app w) t) l) os acc) = []).
  { induction os as [|orb os IH]; intros [[v rs] acts] Hacc; [exact Hacc|].
    cbn [fold_left]. apply IH. rewrite orbFramesStep_actions.
    cbn [snd] in Hacc. now rewrite Hacc, Hquiet. }
  unfold orbFrames. now rewrite Hnil.
Qed.

(** *** The props App computes *)

Lemma appProps_untracked (a : App) (t : HandTracking.Tracking) :
  HandTracking.isTracking t = false ->
  appProps a t =
  {| p_orbs := orbs a; p_grabbedOrbs := grabbedOrbs a; p_isTracking := false;
     p_handPosition := vec3 0.5 0.5 0.5; p_isPinching := false; p_isFist := false;
     p_cameraMode := idle; p_grabbedOrbId := firstGrabbed (grabbedOrbs a) |}.
Proof. intro Ht. unfold appProps, players. rewrite Ht. reflexivity. Qed.

Lemma appProps_tracked (a : App) (t : HandTracking.Tracking) :
  HandTracking.isTracking t = true ->
  appProps a t =
  {| p_orbs := orbs a; p_grabbedOrbs := grabbedOrbs a; p_isTracking := true;
     p_handPosition := HandTracking.handPosition t;
     p_isPinching := HandTracking.isPinching t;
     p_isFist := HandTracking.isFist t;
     p_cameraMode :=
       if JS.truthy (Obj.get (grabbedOrbs a) "player_0") then dragging
       else if HandTracking.isFist t then camera else idle;
     p_grabbedOrbId := firstGrabbed (grabbedOrbs a) |}.
Proof. intro Ht. unfold appProps, players. rewrite Ht. reflexivity. Qed.

(** *** Frames without tracking *)

Lemma orbActions_untracked (p : Props) (l : LockRefs) (orb : Orb) (r : OrbRefs) :
  p_isTracking p = false -> orbActions p l orb r = [].
Proof.
  intro Ht. unfold orbActions. destruct (isCameraMode _); [reflexivity|].
  rewrite grabDetection_actions, Ht. reflexivity.
Qed.



(** *** The frame that releases *)

Lemma flat_map_all_nil {B : Type} (f : Orb -> list B) (orbs : list Orb) :
  (forall x, In x orbs -> f x = []) -> flat_map f orbs = [].
Proof.
  induction orbs as [|x orbs IH]; intro Hnil; [reflexivity|].
  cbn [flat_map]. rewrite Hnil by (now left). cbn [app].
  apply IH. intros y Hy. apply Hnil. now right.
Qed.

Lemma flat_map_single {B : Type} (f : Orb -> list B) (orbs : list Orb) (orb : Orb) :
  NoDup (map id orbs) -> In orb orbs ->
  (forall x, In x orbs -> id x <> id orb -> f x = []) ->
  flat_map f orbs = f orb.
Proof.
  induction orbs as [|x orbs IH]; intros Hnd Hin Hother; [contradiction|].
  cbn [map] in Hnd. inversion Hnd as [|? ? Hnotin Hnd']; subst. cbn [flat_map].
  destruct Hin as [->|Hin].
  - rewrite flat_map_all_nil; [apply app_nil_r|].
    intros y Hy. apply Hother; [now right|].
    intro Heq. apply Hnotin. rewrite <- Heq. now apply in_map.
  - rewrite (Hother x); [| now left |].
    + cbn [app]. apply IH; try assumption.
      intros z Hz. apply Hother. now right.
    + intro Heq. apply Hnotin. rewrite Heq. now apply in_map.
Qed.




(** *** A run of the scene: hover, lock, pinch, lose the hand *)

Lemma earth_closest_any (visual : Obj.t Vec3) (z : R) (excluded : list OrbId) :
  existsb (String.eqb "earth") excluded = false ->
  getClosestOrbForHand fixedHitCamera visual [earth] (vec3 0.5 0.5 z) excluded = Some "earth".
Proof.
  intro Hex. unfold getClosestOrbForHand. cbn [fold_left]. unfold closestStep.
  change (active earth) with true. change (id earth) with "earth". rewrite Hex.
  change (project fixedHitCamera (orbPosOf visual earth)) with (vec3 0 0 0).
  rewrite screenDistance_centre. cbn [vz negb].
  rewrite (proj2 (gtb_false_iff 0 1)) by lra.
  rewrite (proj2 (ltb_false_iff 0 (-1))) by lra.
  cbn [Datatypes.orb].
  assert (Hpos : 0 < selectionThreshold earth
                       (distanceTo (orbPosOf visual earth) (cameraPosition fixedHitCamera))).
  { unfold selectionThreshold. cbn [earth planetSize].
    rewrite orElse_Some by lra. rewrite Rmin_right by lra.
    pose proof (distanceFactor_pos
                  (distanceTo (orbPosOf visual earth) (cameraPosition fixedHitCamera))).
    nra. }
  rewrite (proj2 (geb_false_iff _ _) Hpos). reflexivity.
Qed.

Lemma earth_on_cursor (visual : Obj.t Vec3) :
  screenDistance (vec3 0.5 0.5 0.5) (project fixedHitCamera (orbPosOf visual earth)) = 0.
Proof. apply screenDistance_centre. Qed.

Lemma mountedFrame_first_lock (env : Env) (t : HandTracking.Tracking) (w : World) :
  lock (refs (mountedFrame LockFirst env t w)) =
  lockFrame (env_camera env) (env_now env) (orbVisualPositionsRef (refs w))
    (appProps (app w) t) (lock (refs w)).
Proof.
  unfold mountedFrame. destruct (orbFrames _ _ _ _ _ _) as [[v rs] acts]. reflexivity.
Qed.

Lemma mountedFrame_first_app (env : Env) (t : HandTracking.Tracking) (w : World) :
  NoDup (map id (orbs (app w))) ->
  app (mountedFrame LockFirst env t w) =
  fold_left applyAction
    (flat_map (fun orb =>
                 orbActions (appProps (app w) t)
                   (lock (refs (mountedFrame LockFirst env t w))) orb
                   (refsOf (soundOrbRefs (refs w)) orb))
              (orbs (app w)))
    (app w).
Proof.
  intro Hnd. rewrite mountedFrame_first_lock. unfold mountedFrame.
  pose proof (orbFrames_actions (env_camera env) (env_delta env) (appProps (app w) t)
                (lockFrame (env_camera env) (env_now env) (orbVisualPositionsRef (refs w))
                   (appProps (app w) t) (lock (refs w)))
                (orbVisualPositionsRef (refs w)) (soundOrbRefs (refs w)) Hnd) as Hacts.
  destruct (orbFrames _ _ _ _ _ _) as [[v rs] acts].
  cbn [snd] in Hacts. rewrite Hacts. reflexivity.
Qed.

Lemma orbActions_idle (p : Props) (l : LockRefs) (orb : Orb) (r : OrbRefs) :
  p_isPinching p = false -> p_grabbedOrbId p = None -> orbActions p l orb r = [].
Proof.
  intros Hp Hg. unfold orbActions. destruct (isCameraMode _); [reflexivity|].
  rewrite grabDetection_actions, Hp, Hg. cbn [sameId].
  destruct (p_isTracking p && active orb); reflexivity.
Qed.

Lemma NoDup_earth : NoDup (map id [earth]).
Proof. repeat constructor. intros []. Qed.

Lemma earthHovered_state :
  app earthHovered = earthApp /\
  lock (refs earthHovered) =
  {| lockedOrbRef := None; lockCandidateRef := Some "earth";
     lockStartTimeRef := 1000; closestOrbRef := Some "earth" |}.
Proof.
  split.
  - unfold earthHovered. rewrite sceneFrame_example. apply mountedFrame_app_quiet. intros l orb r.
    apply orbActions_idle; reflexivity.
  - unfold earthHovered. rewrite sceneFrame_example. rewrite mountedFrame_first_lock.
    rewrite (lockFrame_new_candidate _ _ _ _ _ "earth").
    + reflexivity.
    + repeat split.
    + reflexivity.
    + apply earth_closest_any. reflexivity.
    + discriminate.
    + discriminate.
Qed.

Lemma earthLocked_state :
  app earthLocked = earthApp /\
  lock (refs earthLocked) =
  {| lockedOrbRef := Some "earth"; lockCandidateRef := None;
     lockStartTimeRef := 1000; closestOrbRef := Some "earth" |}.
Proof.
  destruct earthHovered_state as [Happ Hlock]. split.
  - unfold earthLocked. rewrite sceneFrame_example. transitivity (app earthHovered); [|exact Happ].
    apply mountedFrame_app_quiet. intros l orb r.
    rewrite Happ. apply orbActions_idle; reflexivity.
  - unfold earthLocked. rewrite sceneFrame_example. rewrite mountedFrame_first_lock, Happ, Hlock.
    rewrite (lockFrame_acquire _ _ _ _ _ "earth").
    + reflexivity.
    + repeat split.
    + reflexivity.
    + apply earth_closest_any. reflexivity.
    + discriminate.
    + reflexivity.
    + unfold LOCK_TIME. cbn [exampleEnv env_now lockStartTimeRef]. lra.
Qed.

Lemma earthPinched_state :
  app earthPinched = {| orbs := [earth]; grabbedOrbs := [("player_0", "earth")] |} /\
  lock (refs earthPinched) =
  {| lockedOrbRef := Some "earth"; lockCandidateRef := None;
     lockStartTimeRef := 1000; closestOrbRef := Some "earth" |}.
Proof.
  destruct earthLocked_state as [Happ Hlock].
  assert (Hl : lock (refs earthPinched) =
               {| lockedOrbRef := Some "earth"; lockCandidateRef := None;
                  lockStartTimeRef := 1000; closestOrbRef := Some "earth" |}).
  { unfold earthPinched. rewrite sceneFrame_example. rewrite mountedFrame_first_lock, Happ, Hlock.
    rewrite (lockFrame_locked_near _ _ _ _ _ "earth" earth).
    - reflexivity.
    - repeat split.
    - reflexivity.
    - discriminate.
    - reflexivity.
    - reflexivity.
    - change (p_handPosition (appProps earthApp pinchAtCentre)) with (vec3 0.5 0.5 0.5).
      rewrite earth_on_cursor. unfold unlockThreshold. lra. }
  split; [|exact Hl].
  unfold earthPinched in *. rewrite sceneFrame_example in *. rewrite mountedFrame_first_app by (rewrite Happ; apply NoDup_earth).
  rewrite Hl, Happ. cbn [earthApp orbs flat_map]. unfold orbActions.
  cbn [appProps earthApp p_cameraMode isCameraMode].
  rewrite grabDetection_actions. reflexivity.
Qed.

Lemma earthPinched_reachable : reachable [earth] earthPinched.
Proof.
  unfold earthPinched, earthLocked, earthHovered.
  repeat (eapply reach_step; [|apply step_frame]). apply reach_initial.
Qed.










End GrabFacts.

(** ** More on the hand-tracking hook *)

Module HandTrackingMore.

Import HandTracking JSFacts HandTrackingFacts.

(** *** expandRange *)

(** X1. Range expansion around the centre, as [processLandmarks] calls it:
    it commutes with mirroring, is monotone, keeps the centre, is linear with
    slope 1.5 on the middle two thirds and saturates outside of them. *)
Theorem expandRange_shape :
  (forall v, expandRange (1 - v) 0.5 1.5 = 1 - expandRange v 0.5 1.5) /\
  (forall a b, a <= b -> expandRange a 0.5 1.5 <= expandRange b 0.5 1.5) /\
  (forall v, 1 / 6 <= v <= 5 / 6 -> expandRange v 0.5 1.5 = 0.5 + (v - 0.5) * 1.5) /\
  (forall v, v <= 1 / 6 -> expandRange v 0.5 1.5 = 0) /\
  (forall v, 5 / 6 <= v -> expandRange v 0.5 1.5 = 1).
Proof.
  unfold expandRange, Rmax, Rmin.
  split; [|split; [|split; [|split]]].
  - intro v.
    destruct (Rle_dec 1 (0.5 + (1 - v - 0.5) * 1.5));
      destruct (Rle_dec 1 (0.5 + (v - 0.5) * 1.5));
      repeat match goal with |- context [Rle_dec 0 ?x] => destruct (Rle_dec 0 x) end; lra.
  - intros a b Hab.
    destruct (Rle_dec 1 (0.5 + (a - 0.5) * 1.5));
      destruct (Rle_dec 1 (0.5 + (b - 0.5) * 1.5));
      repeat match goal with |- context [Rle_dec 0 ?x] => destruct (Rle_dec 0 x) end; lra.
  - intros v Hv.
    destruct (Rle_dec 1 (0.5 + (v - 0.5) * 1.5));
      repeat match goal with |- context [Rle_dec 0 ?x] => destruct (Rle_dec 0 x) end; lra.
  - intros v Hv.
    destruct (Rle_dec 1 (0.5 + (v - 0.5) * 1.5));
      repeat match goal with |- context [Rle_dec 0 ?x] => destruct (Rle_dec 0 x) end; lra.
  - intros v Hv.
    destruct (Rle_dec 1 (0.5 + (v - 0.5) * 1.5));
      repeat match goal with |- context [Rle_dec 0 ?x] => destruct (Rle_dec 0 x) end; lra.
Qed.

Lemma expandRange_shape_witness :
  expandRange 0.2 0.5 1.5 <= expandRange 0.6 0.5 1.5 /\
  expandRange 0.6 0.5 1.5 = 0.5 + (0.6 - 0.5) * 1.5 /\
  expandRange 0.1 0.5 1.5 = 0 /\
  expandRange 0.9 0.5 1.5 = 1.
Proof.
  split; [|split; [|split]].
  - apply (proj1 (proj2 expandRange_shape)). lra.
  - apply (proj1 (proj2 (proj2 expandRange_shape))). lra.
  - apply (proj1 (proj2 (proj2 (proj2 expandRange_shape)))). lra.
  - apply (proj2 (proj2 (proj2 (proj2 expandRange_shape)))). lra.
Defined.

(** *** Depth from the apparent size of the hand *)

Lemma calculateHandDepth_fst (hand : HandFrame) :
  fst (calculateHandDepth hand) =
  1 - Rmin 1 (Rmax 0 ((snd (calculateHandDepth hand) - MIN_HAND_SIZE)
                      / (MAX_HAND_SIZE - MIN_HAND_SIZE))).
Proof. reflexivity. Qed.

Lemma calculateHandDepth_size_nonneg (hand : HandFrame) :
  0 <= snd (calculateHandDepth hand).
Proof.
  unfold calculateHandDepth, distance2D. cbv zeta. cbn [snd].
  repeat match goal with
         | |- context [sqrt ?e] =>
             let H := fresh in pose proof (sqrt_pos e) as H; generalize dependent (sqrt e); intros
         end.
  lra.
Qed.

Lemma clamp01_monotone (a b : R) :
  a <= b -> Rmin 1 (Rmax 0 a) <= Rmin 1 (Rmax 0 b).
Proof.
  intro Hab. unfold Rmin, Rmax.
  destruct (Rle_dec 0 a); destruct (Rle_dec 0 b);
    repeat match goal with |- context [Rle_dec 1 ?x] => destruct (Rle_dec 1 x) end; lra.
Qed.

(** X2. The depth computed from the apparent hand size: the size is never
    negative, a larger hand never gives a larger depth, a hand of size at most
    [MIN_HAND_SIZE] is at depth 1 and one of size at least [MAX_HAND_SIZE] at
    depth 0. *)
Theorem handDepth_from_size :
  (forall hand, 0 <= snd (calculateHandDepth hand)) /\
  (forall near far,
     snd (calculateHandDepth far) <= snd (calculateHandDepth near) ->
     fst (calculateHandDepth near) <= fst (calculateHandDepth far)) /\
  (forall hand, snd (calculateHandDepth hand) <= MIN_HAND_SIZE ->
                fst (calculateHandDepth hand) = 1) /\
  (forall hand, MAX_HAND_SIZE <= snd (calculateHandDepth hand) ->
                fst (calculateHandDepth hand) = 0).
Proof.
  split; [exact calculateHandDepth_size_nonneg|].
  split; [|split].
  - intros near far Hsize. rewrite !calculateHandDepth_fst.
    assert (H : Rmin 1 (Rmax 0 ((snd (calculateHandDepth far) - MIN_HAND_SIZE)
                                / (MAX_HAND_SIZE - MIN_HAND_SIZE)))
                <= Rmin 1 (Rmax 0 ((snd (calculateHandDepth near) - MIN_HAND_SIZE)
                                   / (MAX_HAND_SIZE - MIN_HAND_SIZE)))).
    { apply clamp01_monotone. unfold MIN_HAND_SIZE, MAX_HAND_SIZE in *. lra. }
    lra.
  - intros hand Hsize. rewrite calculateHandDepth_fst.
    unfold MIN_HAND_SIZE, MAX_HAND_SIZE in *.
    rewrite Rmax_left by lra. rewrite Rmin_right by lra. lra.
  - intros hand Hsize. rewrite calculateHandDepth_fst.
    unfold MIN_HAND_SIZE, MAX_HAND_SIZE in *.
    rewrite Rmax_right by lra. rewrite Rmin_left by lra. lra.
Qed.

(** All landmarks in one point: a hand of size 0. *)
Lemma pointHand_size (p : Vec3) : snd (calculateHandDepth (fun _ => p)) = 0.
Proof.
  unfold calculateHandDepth, distance2D. cbv zeta. cbn [snd map JS.Math_min JS.Math_max fold_left].
  unfold Rmin, Rmax.
  repeat match goal with |- context [Rle_dec ?a ?b] => destruct (Rle_dec a b) end;
    try lra;
    replace ((vx p - vx p) ^ 2 + (vy p - vy p) ^ 2) with 0 by lra;
    rewrite sqrt_0; lra.
Qed.

Lemma handDepth_from_size_witness :
  fst (calculateHandDepth (fun _ => vec3 0.5 0.5 0)) = 1.
Proof.
  apply (proj1 (proj2 (proj2 handDepth_from_size))).
  rewrite pointHand_size. unfold MIN_HAND_SIZE. lra.
Defined.

(** *** Depth while pinching *)

Lemma distance2D_le_distance3D (p q : Vec3) : distance2D p q <= distance3D p q.
Proof.
  unfold distance2D, distance3D. apply sqrt_le_1.
  - pose proof (pow2_ge_0 (vx p - vx q)). pose proof (pow2_ge_0 (vy p - vy q)). lra.
  - apply sum_squares_nonneg.
  - pose proof (pow2_ge_0 (vz p - vz q)). lra.
Qed.

(** X3. While a pinch is reported, thumb tip and index tip are less than
    [PINCH_THRESHOLD] apart, so the pinch adjustment stays below 0.75 and the
    depth the cursor is smoothed toward stays below 0.925: a cursor that is at
    most that deep stays so for as long as the pinch lasts. *)
Theorem pinch_depth_cap (s : Tracking) (hand : HandFrame) (rest : list HandFrame) :
  isPinching (processLandmarks s (Some (hand :: rest))) = true ->
  calculatePinchDepthAdjustment hand < 0.75 /\
  vz (cursorTarget hand) < 0.925 /\
  (vz (lastPositionRef s) <= 0.925 ->
   vz (handPosition (processLandmarks s (Some (hand :: rest)))) < 0.925).
Proof.
  rewrite processLandmarks_hand, processHand_isPinching. intro Hpinch.
  assert (Hadj : calculatePinchDepthAdjustment hand < 0.75).
  { apply andb_prop in Hpinch as [_ Hlt]. apply ltb_true_iff in Hlt.
    unfold PINCH_THRESHOLD in Hlt.
    pose proof (distance2D_le_distance3D (hand 4%nat) (hand 8%nat)) as Hle.
    unfold calculatePinchDepthAdjustment. cbv zeta.
    set (d := distance2D (hand 4%nat) (hand 8%nat)) in *.
    unfold Rmin, Rmax.
    destruct (Rle_dec 0 ((d - 0.02) / (0.10 - 0.02)));
      repeat match goal with |- context [Rle_dec 1 ?x] => destruct (Rle_dec 1 x) end; lra. }
  assert (Htarget : vz (cursorTarget hand) < 0.925).
  { unfold cursorTarget. cbv zeta. cbn [vz]. rewrite Hpinch.
    pose proof (calculateHandDepth_unit hand). lra. }
  split; [exact Hadj|]. split; [exact Htarget|].
  intro Hlast. rewrite processHand_handPosition.
  unfold smoothToward, lerp, LERP_FACTOR_DEPTH. cbn [vz]. lra.
Qed.

Lemma pinchingHand_pinching :
  isPinching (processLandmarks initial (Some [pinchingHand])) = true.
Proof.
  rewrite processLandmarks_hand, processHand_isPinching.
  rewrite pinchingHand_no_fist, pinchingHand_pinch. reflexivity.
Qed.

Lemma pinch_depth_cap_witness :
  calculatePinchDepthAdjustment pinchingHand < 0.75 /\
  vz (cursorTarget pinchingHand) < 0.925 /\
  (vz (lastPositionRef initial) <= 0.925 ->
   vz (handPosition (processLandmarks initial (Some [pinchingHand]))) < 0.925).
Proof.
  apply (pinch_depth_cap initial pinchingHand []). exact pinchingHand_pinching.
Defined.

(** *** Moving the hand in the image *)

Lemma distance3D_translate (d : Vec3) (hand : HandFrame) (i j : nat) :
  distance3D (translate d hand i) (translate d hand j) = distance3D (hand i) (hand j).
Proof. unfold distance3D, translate. cbn [vx vy vz]. f_equal. ring. Qed.

Lemma distance2D_translate (d : Vec3) (hand : HandFrame) (i j : nat) :
  distance2D (translate d hand i) (translate d hand j) = distance2D (hand i) (hand j).
Proof. unfold distance2D, translate. cbn [vx vy]. f_equal. ring. Qed.

Lemma gtb_translate (a b c d : R) : JS.gtb (a + d) (b + d - c) = JS.gtb a (b - c).
Proof.
  unfold JS.gtb, JS.ltb.
  destruct (Rlt_dec (b + d - c) (a + d)); destruct (Rlt_dec (b - c) a);
    try reflexivity; exfalso; lra.
Qed.

Lemma Rmin_shift (a b d : R) : Rmin (a + d) (b + d) = Rmin a b + d.
Proof. unfold Rmin. destruct (Rle_dec (a + d) (b + d)); destruct (Rle_dec a b); lra. Qed.

Lemma Rmax_shift (a b d : R) : Rmax (a + d) (b + d) = Rmax a b + d.
Proof. unfold Rmax. destruct (Rle_dec (a + d) (b + d)); destruct (Rle_dec a b); lra. Qed.

Lemma checkFist_translate (d : Vec3) (hand : HandFrame) :
  checkFist (translate d hand) = checkFist hand.
Proof.
  unfold checkFist. cbv zeta. rewrite !distance3D_translate.
  unfold translate at 1 2 3 4 5 6 7 8. cbn [vy]. rewrite !gtb_translate. reflexivity.
Qed.

Lemma calculateHandDepth_translate (d : Vec3) (hand : HandFrame) :
  calculateHandDepth (translate d hand) = calculateHandDepth hand.
Proof.
  unfold calculateHandDepth. cbv zeta. rewrite !distance2D_translate.
  cbn [map JS.Math_min JS.Math_max fold_left]. unfold translate. cbn [vx vy].
  rewrite !Rmin_shift, !Rmax_shift.
  replace (Rmax (Rmax (Rmax (Rmax (vx (hand 0%nat)) (vx (hand 12%nat))) (vx (hand 8%nat)))
                      (vx (hand 20%nat))) (vx (hand 4%nat)) + vx d -
           (Rmin (Rmin (Rmin (Rmin (vx (hand 0%nat)) (vx (hand 12%nat))) (vx (hand 8%nat)))
                       (vx (hand 20%nat))) (vx (hand 4%nat)) + vx d))
    with (Rmax (Rmax (Rmax (Rmax (vx (hand 0%nat)) (vx (hand 12%nat))) (vx (hand 8%nat)))
                     (vx (hand 20%nat))) (vx (hand 4%nat)) -
          Rmin (Rmin (Rmin (Rmin (vx (hand 0%nat)) (vx (hand 12%nat))) (vx (hand 8%nat)))
                     (vx (hand 20%nat))) (vx (hand 4%nat))) by ring.
  replace (Rmax (Rmax (Rmax (Rmax (vy (hand 0%nat)) (vy (hand 12%nat))) (vy (hand 8%nat)))
                      (vy (hand 20%nat))) (vy (hand 4%nat)) + vy d -
           (Rmin (Rmin (Rmin (Rmin (vy (hand 0%nat)) (vy (hand 12%nat))) (vy (hand 8%nat)))
                       (vy (hand 20%nat))) (vy (hand 4%nat)) + vy d))
    with (Rmax (Rmax (Rmax (Rmax (vy (hand 0%nat)) (vy (hand 12%nat))) (vy (hand 8%nat)))
                     (vy (hand 20%nat))) (vy (hand 4%nat)) -
          Rmin (Rmin (Rmin (Rmin (vy (hand 0%nat)) (vy (hand 12%nat))) (vy (hand 8%nat)))
                     (vy (hand 20%nat))) (vy (hand 4%nat))) by ring.
  reflexivity.
Qed.

Lemma calculatePinchDepthAdjustment_translate (d : Vec3) (hand : HandFrame) :
  calculatePinchDepthAdjustment (translate d hand) = calculatePinchDepthAdjustment hand.
Proof.
  unfold calculatePinchDepthAdjustment. cbv zeta. now rewrite distance2D_translate.
Qed.

(** X4. Gestures do not depend on where the hand is in the image: moving every
    landmark by the same vector changes neither the fist flag nor the pinch
    flag nor the depth the cursor is smoothed toward; only the x and y of the
    cursor follow the hand. *)
Theorem gestures_translation_invariant (d : Vec3) (s : Tracking) (hand : HandFrame) :
  isFist (processLandmarks s (Some [translate d hand])) =
  isFist (processLandmarks s (Some [hand])) /\
  isPinching (processLandmarks s (Some [translate d hand])) =
  isPinching (processLandmarks s (Some [hand])) /\
  vz (handPosition (processLandmarks s (Some [translate d hand]))) =
  vz (handPosition (processLandmarks s (Some [hand]))) /\
  handSize (processLandmarks s (Some [translate d hand])) =
  handSize (processLandmarks s (Some [hand])).
Proof.
  rewrite !processLandmarks_hand, !processHand_isFist, !processHand_isPinching.
  rewrite !processHand_handPosition.
  rewrite checkFist_translate, distance3D_translate.
  split; [reflexivity|]. split; [reflexivity|]. split.
  - unfold smoothToward, cursorTarget. cbv zeta. cbn [vz].
    rewrite checkFist_translate, distance3D_translate, calculateHandDepth_translate,
      calculatePinchDepthAdjustment_translate. reflexivity.
  - unfold processHand. rewrite calculateHandDepth_translate.
    destruct (calculateHandDepth hand). reflexivity.
Qed.

(** *** Frames without a hand *)

Lemma processLandmarks_noHand (s : Tracking) (landmarks : option (list HandFrame)) :
  noHand landmarks ->
  processLandmarks s landmarks =
  {| handPosition := handPosition s; isPinching := false; isFist := false;
     isTracking := false; handVelocity := vec2 0 0; handSize := handSize s;
     lastPositionRef := lastPositionRef s; prevPositionRef := prevPositionRef s;
     lastHandSizeRef := lastHandSizeRef s |}.
Proof. intros [-> | ->]; reflexivity. Qed.

Lemma runDetection_noHand (results : list (option (list HandFrame))) (s : Tracking) :
  Forall noHand results -> results <> [] ->
  runDetection s results =
  {| handPosition := handPosition s; isPinching := false; isFist := false;
     isTracking := false; handVelocity := vec2 0 0; handSize := handSize s;
     lastPositionRef := lastPositionRef s; prevPositionRef := prevPositionRef s;
     lastHandSizeRef := lastHandSizeRef s |}.
Proof.
  revert s. induction results as [|lm results IH]; intros s Hall Hne; [contradiction|].
  inversion Hall as [|? ? Hlm Hrest]; subst.
  cbn [runDetection fold_left]. fold (runDetection (processLandmarks s lm) results).
  rewrite (processLandmarks_noHand s lm Hlm).
  destruct results as [|lm' results]; [reflexivity|].
  rewrite IH; [reflexivity|exact Hrest|discriminate].
Qed.

(** X5. A dropout of the detector, however long, freezes the cursor: after any
    non-empty run of results without a hand the hook reports no tracking, no
    gesture and no velocity, the cursor is where it was, and the first hand
    that comes back is processed exactly as if the dropout had lasted a single
    result. *)
Theorem dropout_freezes_cursor (s : Tracking) (results : list (option (list HandFrame))) :
  Forall noHand results -> results <> [] ->
  handPosition (runDetection s results) = handPosition s /\
  isTracking (runDetection s results) = false /\
  isPinching (runDetection s results) = false /\
  isFist (runDetection s results) = false /\
  handVelocity (runDetection s results) = vec2 0 0 /\
  (forall landmarks,
     processLandmarks (runDetection s results) landmarks =
     processLandmarks (processLandmarks s None) landmarks).
Proof.
  intros Hall Hne. rewrite (runDetection_noHand results s Hall Hne).
  repeat (split; [reflexivity|]). intro landmarks. reflexivity.
Qed.

Lemma dropout_freezes_cursor_witness :
  handPosition (runDetection (processLandmarks initial (Some [sideHand]))
                  [Some []; None; Some []])
  = handPosition (processLandmarks initial (Some [sideHand])).
Proof.
  apply (dropout_freezes_cursor (processLandmarks initial (Some [sideHand]))
           [Some []; None; Some []]).
  - repeat constructor; (now left) || (now right).
  - discriminate.
Defined.

(** *** The same hand over and over *)

Lemma runDetection_snoc (s : Tracking) (results : list (option (list HandFrame)))
  (lm : option (list HandFrame)) :
  runDetection s (results ++ [lm]) = processLandmarks (runDetection s results) lm.
Proof. unfold runDetection. rewrite fold_left_app. reflexivity. Qed.

Lemma repeat_snoc {A : Type} (a : A) (n : nat) : repeat a (S n) = (repeat a n ++ [a])%list.
Proof. induction n as [|n IH]; [reflexivity|]. cbn [repeat app] in *. now rewrite <- IH. Qed.

(** X6. Holding the hand still: after [n] results with the same hand, the
    distance of the stored cursor from the target of that hand is the initial
    distance times 0.65^n in x and y and 0.8^n in depth, so the cursor closes
    in on the target without ever passing it. *)
Theorem still_hand_converges (s : Tracking) (hand : HandFrame) (n : nat) :
  vx (lastPositionRef (runDetection s (repeat (Some [hand]) n))) - vx (cursorTarget hand)
  = (1 - LERP_FACTOR) ^ n * (vx (lastPositionRef s) - vx (cursorTarget hand)) /\
  vy (lastPositionRef (runDetection s (repeat (Some [hand]) n))) - vy (cursorTarget hand)
  = (1 - LERP_FACTOR) ^ n * (vy (lastPositionRef s) - vy (cursorTarget hand)) /\
  vz (lastPositionRef (runDetection s (repeat (Some [hand]) n))) - vz (cursorTarget hand)
  = (1 - LERP_FACTOR_DEPTH) ^ n * (vz (lastPositionRef s) - vz (cursorTarget hand)) /\
  (n <> 0%nat ->
   handPosition (runDetection s (repeat (Some [hand]) n)) =
   lastPositionRef (runDetection s (repeat (Some [hand]) n))).
Proof.
  induction n as [|n (IHx & IHy & IHz & _)].
  - cbn [repeat runDetection fold_left pow]. repeat split; try lra. congruence.
  - rewrite repeat_snoc, runDetection_snoc, processLandmarks_hand.
    rewrite processHand_lastPositionRef, processHand_handPosition.
    unfold smoothToward. cbn [vx vy vz pow].
    assert (Hstep : forall current target factor,
              lerp current target factor - target = (1 - factor) * (current - target))
      by (intros; unfold lerp; ring).
    rewrite !Hstep, IHx, IHy, IHz.
    repeat split; ring.
Qed.

Lemma still_hand_converges_witness :
  handPosition (runDetection initial (repeat (Some [sideHand]) 2)) =
  lastPositionRef (runDetection initial (repeat (Some [sideHand]) 2)).
Proof.
  apply (proj2 (proj2 (proj2 (still_hand_converges initial sideHand 2)))). discriminate.
Defined.

(** *** Velocity *)

Lemma processLandmarks_velocityBounded (s : Tracking) (landmarks : option (list HandFrame)) :
  cursorsInUnitCube s -> velocityBounded s ->
  velocityBounded (processLandmarks s landmarks).
Proof.
  intros [Hpos Hlast] (Hprev & Hsame & Hvx & Hvy).
  destruct landmarks as [[|hand rest]|].
  - unfold velocityBounded. cbn. repeat split; try assumption; lra.
  - rewrite processLandmarks_hand.
    pose proof (smoothToward_unit (lastPositionRef s) (cursorTarget hand) Hlast
                  (cursorTarget_unit hand)) as (Nx & Ny & _).
    rewrite <- processHand_handPosition in Nx, Ny.
    destruct Hpos as (Px & Py & _).
    unfold velocityBounded.
    split; [reflexivity|]. split; [reflexivity|].
    change (ux (handVelocity (processHand s hand)))
      with (lerp (ux (handVelocity s))
                 ((vx (handPosition (processHand s hand)) - ux (prevPositionRef s)) * 20) 0.5).
    change (uy (handVelocity (processHand s hand)))
      with (lerp (uy (handVelocity s))
                 ((vy (handPosition (processHand s hand)) - uy (prevPositionRef s)) * 20) 0.5).
    rewrite Hprev. cbn [ux uy]. unfold lerp. split; lra.
  - unfold velocityBounded. cbn. repeat split; try assumption; lra.
Qed.

Lemma runDetection_velocityBounded (results : list (option (list HandFrame))) (s : Tracking) :
  cursorsInUnitCube s -> velocityBounded s ->
  velocityBounded (runDetection s results).
Proof.
  revert s. induction results as [|lm results IH]; intros s Hunit Hvel; [exact Hvel|].
  apply IH; [now apply processLandmarks_unit|now apply processLandmarks_velocityBounded].
Qed.

(** X7. The velocity the hook hands to the camera: a frame with a hand moves
    each component halfway toward 20 times the step the cursor just made, and
    after any sequence of detector results both components are within 20 of
    zero. *)
Theorem velocity_bounded :
  (forall s hand rest,
     handVelocity (processLandmarks s (Some (hand :: rest))) =
     vec2 (lerp (ux (handVelocity s))
                ((vx (handPosition (processLandmarks s (Some (hand :: rest))))
                  - ux (prevPositionRef s)) * 20) 0.5)
          (lerp (uy (handVelocity s))
                ((vy (handPosition (processLandmarks s (Some (hand :: rest))))
                  - uy (prevPositionRef s)) * 20) 0.5)) /\
  (forall results,
     prevPositionRef (runDetection initial results) =
     vec2 (vx (handPosition (runDetection initial results)))
          (vy (handPosition (runDetection initial results))) /\
     -20 <= ux (handVelocity (runDetection initial results)) <= 20 /\
     -20 <= uy (handVelocity (runDetection initial results)) <= 20).
Proof.
  split; [reflexivity|].
  intro results.
  assert (Hinit : velocityBounded initial).
  { unfold velocityBounded, initial. cbn. repeat split; lra. }
  destruct (runDetection_velocityBounded results initial initial_unit Hinit)
    as (Hprev & _ & Hx & Hy).
  repeat split; (exact Hprev || apply Hx || apply Hy).
Qed.

End HandTrackingMore.

(** ** More on the state of App *)

Module AppMore.

Import Scene Influence JSFacts LockFacts GrabFacts.

(** *** Influence weights *)

Section Weights.

Variables (prompt label : Orb -> string).

(** The weight of an entry as a function of its distance. *)
Lemma weightEntry_weight (orb : Orb) :
  let d := wp_distance (weightEntry prompt label orb) in
  0 <= d /\
  wp_weight (weightEntry prompt label orb) =
  if Rle_dec d 2.5 then 1.5 - d / 2.5 * 0.5
  else if Rle_dec d 6.0 then 1.0 - (d - 2.5) / (6.0 - 2.5) * 0.7
  else 0.3.
Proof.
  unfold weightEntry, MAX_INFLUENCE_RADIUS, MIN_INFLUENCE_RADIUS, JS.leb.
  cbv zeta. cbn [wp_distance wp_weight].
  set (d := sqrt _). pose proof (sqrt_pos
    ((vx (position orb) - 0) * (vx (position orb) - 0) +
     (vy (position orb) - 0) * (vy (position orb) - 0) +
     (vz (position orb) - 0) * (vz (position orb) - 0))) as Hd.
  fold d in Hd. split; [exact Hd|].
  destruct (Rle_dec d 2.5); [|destruct (Rle_dec d 6.0)].
  - rewrite Rmin_right by lra. rewrite Rmax_right by lra. reflexivity.
  - rewrite Rmin_right by lra. rewrite Rmax_right by lra. reflexivity.
  - rewrite Rmin_right by lra. rewrite Rmax_right by lra. reflexivity.
Qed.

Lemma calculateWeights_map (orbs : list Orb) :
  calculateWeights prompt label orbs = map (weightEntry prompt label) (filter active orbs).
Proof. unfold calculateWeights. destruct (filter active orbs); reflexivity. Qed.

Lemma weightEntry_range (orb : Orb) :
  0.3 <= wp_weight (weightEntry prompt label orb) <= 1.5.
Proof.
  destruct (weightEntry_weight orb) as [Hd ->].
  set (d := wp_distance (weightEntry prompt label orb)) in *.
  destruct (Rle_dec d 2.5); [|destruct (Rle_dec d 6.0)]; lra.
Qed.

Lemma totalInfluence_bounds (ws : list WeightedPrompt) :
  Forall (fun w => 0.3 <= wp_weight w <= 1.5) ws ->
  0.3 * INR (List.length ws) <= totalInfluence ws <= 1.5 * INR (List.length ws).
Proof.
  unfold totalInfluence.
  assert (Hgen : forall acc,
            Forall (fun w => 0.3 <= wp_weight w <= 1.5) ws ->
            acc + 0.3 * INR (List.length ws)
            <= fold_left (fun sum w => sum + wp_weight w) ws acc
            <= acc + 1.5 * INR (List.length ws)).
  { induction ws as [|w ws IH]; intros acc Hall.
    - cbn. lra.
    - inversion Hall as [|? ? Hw Hrest]; subst. cbn [fold_left List.length].
      rewrite S_INR. specialize (IH (acc + wp_weight w) Hrest). lra. }
  intro Hall. specialize (Hgen 0 Hall). lra.
Qed.

(** X8. The influence weights: only active orbs get an entry, in the order of
    the orb list; every weight is between 0.3 and 1.5; of two entries the one
    farther from the centre never has the larger weight; the total lies
    between 0.3 and 1.5 times the number of entries, and the average
    influence between 0.2 and 1, or is 0 when no orb is active. *)
Theorem influence_weights (orbs : list Orb) :
  map wp_orbId (calculateWeights prompt label orbs) = map id (filter active orbs) /\
  (forall w, In w (calculateWeights prompt label orbs) -> 0.3 <= wp_weight w <= 1.5) /\
  (forall near far,
     In near (calculateWeights prompt label orbs) ->
     In far (calculateWeights prompt label orbs) ->
     wp_distance near <= wp_distance far -> wp_weight far <= wp_weight near) /\
  (filter active orbs = [] ->
   calculateWeights prompt label orbs = [] /\
   averageInfluence (calculateWeights prompt label orbs) = 0) /\
  (filter active orbs <> [] ->
   0.2 <= averageInfluence (calculateWeights prompt label orbs) <= 1).
Proof.
  rewrite calculateWeights_map.
  assert (Hrange : forall w, In w (map (weightEntry prompt label) (filter active orbs)) ->
                             0.3 <= wp_weight w <= 1.5).
  { intros w Hin. apply in_map_iff in Hin as (orb & <- & _). apply weightEntry_range. }
  split; [|split; [exact Hrange|split; [|split]]].
  - rewrite map_map. reflexivity.
  - intros near far Hnear Hfar Hle.
    apply in_map_iff in Hnear as (o1 & <- & _).
    apply in_map_iff in Hfar as (o2 & <- & _).
    destruct (weightEntry_weight o1) as [H1 ->].
    destruct (weightEntry_weight o2) as [H2 ->].
    set (d1 := wp_distance (weightEntry prompt label o1)) in *.
    set (d2 := wp_distance (weightEntry prompt label o2)) in *.
    destruct (Rle_dec d1 2.5); destruct (Rle_dec d2 2.5);
      try destruct (Rle_dec d1 6.0); try destruct (Rle_dec d2 6.0); lra.
  - intros ->. split; reflexivity.
  - intro Hne.
    destruct (map (weightEntry prompt label) (filter active orbs)) as [|w ws] eqn:E.
    { destruct (filter active orbs); [contradiction|discriminate]. }
    unfold averageInfluence.
    assert (Hall : Forall (fun w => 0.3 <= wp_weight w <= 1.5) (w :: ws))
      by (apply Forall_forall; exact Hrange).
    pose proof (totalInfluence_bounds (w :: ws) Hall) as Hsum.
    assert (Hlen : 0 < INR (List.length (w :: ws))) by (apply lt_0_INR; cbn; lia).
    set (n := INR (List.length (w :: ws))) in *.
    set (total := totalInfluence (w :: ws)) in *.
    assert (Hq : 0.3 <= total / n <= 1.5).
    { split.
      - apply Rmult_le_reg_r with n; [exact Hlen|].
        unfold Rdiv. rewrite Rmult_assoc, Rinv_l by lra. lra.
      - apply Rmult_le_reg_r with n; [exact Hlen|].
        unfold Rdiv. rewrite Rmult_assoc, Rinv_l by lra. lra. }
    lra.
Qed.

End Weights.

Lemma influence_weights_witness :
  0.2 <= averageInfluence
           (calculateWeights (fun _ => "pads") (fun o => id o) [earth; jupiter]) <= 1.
Proof.
  apply (proj2 (proj2 (proj2 (proj2
           (influence_weights (fun _ => "pads") (fun o => id o) [earth; jupiter]))))).
  discriminate.
Defined.

(** *** grabbedOrbs as a map *)

Lemma keys_delete_incl {V : Type} (o : Obj.t V) (k x : string) :
  In x (Obj.keys (Obj.delete o k)) -> In x (Obj.keys o).
Proof.
  unfold Obj.keys. induction o as [|[k0 v0] o IH]; cbn [Obj.delete map fst In]; [tauto|].
  destruct (String.eqb k0 k); cbn [map fst In]; tauto.
Qed.

Lemma NoDup_keys_delete {V : Type} (o : Obj.t V) (k : string) :
  NoDup (Obj.keys o) -> NoDup (Obj.keys (Obj.delete o k)).
Proof.
  unfold Obj.keys. induction o as [|[k0 v0] o IH]; cbn [Obj.delete map fst]; intro Hnd;
    [constructor|].
  inversion Hnd as [|? ? Hnotin Hrest]; subst.
  destruct (String.eqb k0 k); [exact Hrest|].
  cbn [map fst]. constructor; [|now apply IH].
  intro Hin. apply Hnotin. now apply (keys_delete_incl o k).
Qed.

Lemma get_delete_same {V : Type} (o : Obj.t V) (k : string) :
  NoDup (Obj.keys o) -> Obj.get (Obj.delete o k) k = None.
Proof.
  unfold Obj.keys. induction o as [|[k0 v0] o IH]; cbn [Obj.delete Obj.get map fst]; intro Hnd;
    [reflexivity|].
  inversion Hnd as [|? ? Hnotin Hrest]; subst.
  destruct (String.eqb_spec k0 k) as [->|Hne].
  - now apply ObjFacts.get_None_keys.
  - cbn [Obj.get]. rewrite (proj2 (String.eqb_neq _ _) Hne). now apply IH.
Qed.

Lemma get_delete_other {V : Type} (o : Obj.t V) (k k' : string) :
  k <> k' -> Obj.get (Obj.delete o k) k' = Obj.get o k'.
Proof.
  intro Hne. induction o as [|[k0 v0] o IH]; cbn [Obj.delete Obj.get]; [reflexivity|].
  destruct (String.eqb_spec k0 k) as [->|Hk0].
  - now rewrite (proj2 (String.eqb_neq _ _) Hne).
  - cbn [Obj.get]. destruct (String.eqb k0 k'); [reflexivity|exact IH].
Qed.

(** X9. [setGrabbedOrbId] on a map with one entry per player: after a grab the
    player holds the orb, after a release the player holds nothing, no other
    player's entry changes either way, the map keeps one entry per player, and
    a release undoes the grab of a player who held nothing.  The orb reported
    as [grabbedOrbId] (the first entry) is not displaced by the grab of
    another player whose id is not an array index, such as ['player_1']; a
    player id that is an array index is enumerated first, so the grab of
    player ['7'] displaces the orb of ['player_0']. *)
Theorem grab_release_round_trip (g : Obj.t OrbId) (playerId : PlayerId) (o : OrbId) :
  NoDup (Obj.keys g) ->
  (Obj.get (setGrabbedOrbId (Some o) playerId g) playerId = Some o /\
   Obj.get (setGrabbedOrbId None playerId g) playerId = None) /\
  (forall other, other <> playerId ->
     Obj.get (setGrabbedOrbId (Some o) playerId g) other = Obj.get g other /\
     Obj.get (setGrabbedOrbId None playerId g) other = Obj.get g other) /\
  (NoDup (Obj.keys (setGrabbedOrbId (Some o) playerId g)) /\
   NoDup (Obj.keys (setGrabbedOrbId None playerId g))) /\
  (Obj.get g playerId = None ->
   setGrabbedOrbId None playerId (setGrabbedOrbId (Some o) playerId g) = g /\
   (g <> [] -> Obj.arrayIndex playerId = None ->
    firstGrabbed (setGrabbedOrbId (Some o) playerId g) = firstGrabbed g)) /\
  firstGrabbed (setGrabbedOrbId (Some "mars") "7" [("player_0", "earth")]) = Some "mars".
Proof.
  intro Hnd. unfold setGrabbedOrbId.
  split; [split; [apply ObjFacts.get_set_same|now apply get_delete_same]|].
  split.
  { intros other Hne. split; [apply ObjFacts.get_set_other|apply get_delete_other]; congruence. }
  split; [split; [now apply ObjFacts.NoDup_keys_set|now apply NoDup_keys_delete]|].
  split; [|reflexivity].
  intro Hfresh. split; [now apply ObjFacts.delete_set_fresh|].
  intros Hne Hidx. destruct g as [|[k0 v0] g]; [contradiction|].
  unfold Obj.set. rewrite (proj2 (ObjFacts.hasKey_get _ _) Hfresh).
  cbn [Obj.insertNew]. unfold Obj.comesBefore. rewrite Hidx. reflexivity.
Qed.

Lemma grab_release_round_trip_witness :
  setGrabbedOrbId None "player_1" (setGrabbedOrbId (Some "mars") "player_1"
                                     [("player_0", "earth")])
  = [("player_0", "earth")] /\
  firstGrabbed (setGrabbedOrbId (Some "mars") "player_1" [("player_0", "earth")])
  = Some "earth".
Proof.
  destruct (grab_release_round_trip [("player_0", "earth")] "player_1" "mars")
    as (_ & _ & _ & H & _).
  - repeat constructor. intros [].
  - destruct H as [Hundo Hfirst]; [reflexivity|].
    split; [exact Hundo|]. apply Hfirst; [discriminate|reflexivity].
Defined.

(** *** Camera mode *)

(** X10. The camera mode [App] computes for the local player: it is 'camera'
    exactly when the hand is tracked, shows a fist and the player holds no
    orb; it is 'dragging' exactly when the hand is tracked and the player
    holds an orb, fist or not; without tracking it is 'idle', and the props
    carry the neutral cursor and no pinch. *)
Theorem camera_mode_rule (a : App) (t : HandTracking.Tracking) :
  (p_cameraMode (appProps a t) = camera <->
   HandTracking.isTracking t = true /\ HandTracking.isFist t = true /\
   JS.truthy (Obj.get (grabbedOrbs a) "player_0") = false) /\
  (p_cameraMode (appProps a t) = dragging <->
   HandTracking.isTracking t = true /\
   JS.truthy (Obj.get (grabbedOrbs a) "player_0") = true) /\
  (HandTracking.isTracking t = false ->
   p_cameraMode (appProps a t) = idle /\
   p_isPinching (appProps a t) = false /\
   p_isFist (appProps a t) = false /\
   p_handPosition (appProps a t) = vec3 0.5 0.5 0.5).
Proof.
  destruct (HandTracking.isTracking t) eqn:Ht.
  - rewrite (appProps_tracked a t Ht). cbn [p_cameraMode].
    destruct (JS.truthy (Obj.get (grabbedOrbs a) "player_0"));
      destruct (HandTracking.isFist t);
      repeat split; intros; try discriminate; try tauto;
      repeat match goal with H : _ /\ _ |- _ => destruct H end; try discriminate.
  - rewrite (appProps_untracked a t Ht). cbn.
    repeat split; intros; try discriminate;
      repeat match goal with H : _ /\ _ |- _ => destruct H end; try discriminate.
Qed.

Lemma camera_mode_rule_witness :
  p_cameraMode (appProps earthApp handLost) = idle.
Proof.
  apply (proj2 (proj2 (camera_mode_rule earthApp handLost))). reflexivity.
Defined.

(** *** Updating the orbs *)

Lemma updateOrbPosition_ids (orbId : OrbId) (pos : Vec3) (orbs : list Orb) :
  map id (updateOrbPosition orbId pos orbs) = map id orbs.
Proof.
  unfold updateOrbPosition. rewrite map_map. apply map_ext.
  intro orb. destruct (String.eqb (id orb) orbId); reflexivity.
Qed.

Lemma toggleOrbActive_ids (orbId : OrbId) (orbs : list Orb) :
  map id (toggleOrbActive orbId orbs) = map id orbs.
Proof.
  unfold toggleOrbActive. rewrite map_map. apply map_ext.
  intro orb. destruct (String.eqb (id orb) orbId); reflexivity.
Qed.

(** X11. The two updates of the orb list: neither adds, removes, reorders or
    renames an orb; storing a position changes no orb's active flag and no
    other orb's stored position, and does nothing at all for an id that is not
    in the list; toggling changes no stored position, and toggling twice
    restores the list. *)
Theorem orb_updates (orbId : OrbId) (pos : Vec3) (orbs : list Orb) :
  map id (updateOrbPosition orbId pos orbs) = map id orbs /\
  map id (toggleOrbActive orbId orbs) = map id orbs /\
  map active (updateOrbPosition orbId pos orbs) = map active orbs /\
  map position (toggleOrbActive orbId orbs) = map position orbs /\
  (forall other, other <> orbId ->
     storedPosition (updateOrbPosition orbId pos orbs) other = storedPosition orbs other) /\
  (~ In orbId (map id orbs) -> updateOrbPosition orbId pos orbs = orbs) /\
  toggleOrbActive orbId (toggleOrbActive orbId orbs) = orbs.
Proof.
  split; [apply updateOrbPosition_ids|]. split; [apply toggleOrbActive_ids|].
  split; [|split; [|split; [|split]]].
  - unfold updateOrbPosition. rewrite map_map. apply map_ext.
    intro orb. destruct (String.eqb (id orb) orbId); reflexivity.
  - unfold toggleOrbActive. rewrite map_map. apply map_ext.
    intro orb. destruct (String.eqb (id orb) orbId); reflexivity.
  - intros other Hne. unfold storedPosition, updateOrbPosition.
    induction orbs as [|orb orbs IH]; [reflexivity|].
    cbn [map find]. destruct (String.eqb_spec (id orb) orbId) as [Heq|Hdiff]; cbn [id].
    + rewrite (proj2 (String.eqb_neq (id orb) other)) by congruence. exact IH.
    + destruct (String.eqb (id orb) other); [reflexivity|exact IH].
  - intro Hnotin. unfold updateOrbPosition.
    induction orbs as [|orb orbs IH]; [reflexivity|].
    cbn [map]. cbn [map In] in Hnotin.
    rewrite (proj2 (String.eqb_neq (id orb) orbId)) by tauto.
    f_equal. apply IH. tauto.
  - unfold toggleOrbActive. rewrite map_map.
    rewrite <- (map_id orbs) at 2. apply map_ext.
    intro orb. destruct (String.eqb (id orb) orbId) eqn:E; [|now rewrite E].
    cbn [id]. rewrite E. destruct orb. cbn. now rewrite negb_involutive.
Qed.

Lemma orb_updates_witness :
  storedPosition (updateOrbPosition "jupiter" (vec3 1 2 3) [earth; jupiter]) "earth"
  = storedPosition [earth; jupiter] "earth" /\
  updateOrbPosition "pluto" (vec3 1 2 3) [earth; jupiter] = [earth; jupiter].
Proof.
  destruct (orb_updates "jupiter" (vec3 1 2 3) [earth; jupiter])
    as (_ & _ & _ & _ & Hother & _).
  destruct (orb_updates "pluto" (vec3 1 2 3) [earth; jupiter])
    as (_ & _ & _ & _ & _ & Habsent & _).
  split.
  - apply Hother. discriminate.
  - apply Habsent. cbn. intros [H|[H|[]]]; discriminate.
Defined.

End AppMore.

(** ** More on the scene *)

Module SceneMore.

Import Scene JSFacts LockFacts GrabFacts.

(** *** The candidate search picks the best eligible orb *)

Section SearchOptimal.

Variables (cam : Camera) (visual : Obj.t Vec3) (handPos : Vec3) (excludeOrbIds : list OrbId).

Lemma existsb_eqb_false (k : OrbId) (ks : list OrbId) :
  existsb (String.eqb k) ks = false <-> ~ In k ks.
Proof.
  split.
  - intros H Hin.
    assert (existsb (String.eqb k) ks = true)
      by (apply existsb_exists; exists k; split; [exact Hin|apply String.eqb_refl]).
    congruence.
  - intro Hnot. destruct (existsb (String.eqb k) ks) eqn:E; [|reflexivity].
    apply existsb_exists in E as (x & Hx & Heq). apply String.eqb_eq in Heq. now subst.
Qed.

Lemma closestStep_eligible (acc : option OrbId * option R) (orb : Orb) :
  eligible cam visual handPos excludeOrbIds orb ->
  closestStep cam visual handPos excludeOrbIds acc orb =
  if belowScore (scoreOf cam visual handPos orb) (snd acc)
  then (Some (id orb), Some (scoreOf cam visual handPos orb))
  else acc.
Proof.
  intros (Hact & Hex & [Hlo Hhi] & Hdist). unfold closestStep, scoreOf.
  rewrite Hact, (proj2 (existsb_eqb_false _ _) Hex). cbn [negb].
  rewrite (proj2 (gtb_false_iff _ _) Hhi), (proj2 (ltb_false_iff _ _) Hlo).
  cbn [Datatypes.orb]. rewrite (proj2 (geb_false_iff _ _) Hdist). reflexivity.
Qed.

Lemma closestStep_not_eligible (acc : option OrbId * option R) (orb : Orb) :
  ~ eligible cam visual handPos excludeOrbIds orb ->
  closestStep cam visual handPos excludeOrbIds acc orb = acc.
Proof.
  intro Hnot. unfold closestStep.
  destruct (active orb) eqn:Hact; cbn [negb]; [|reflexivity].
  destruct (existsb _ excludeOrbIds) eqn:Hex; [reflexivity|].
  destruct (JS.gtb _ 1) eqn:Hhi; [reflexivity|].
  destruct (JS.ltb _ (-1)) eqn:Hlo; [reflexivity|]. cbn [Datatypes.orb].
  destruct (JS.geb _ _) eqn:Hdist; [reflexivity|].
  exfalso. apply Hnot. unfold eligible.
  apply existsb_eqb_false in Hex. apply gtb_false_iff in Hhi.
  apply ltb_false_iff in Hlo. apply geb_false_iff in Hdist. tauto.
Qed.

(** What the fold of the search holds after a prefix of the orbs. *)
Lemma fold_closestStep_best (orbs : list Orb) :
  let acc := fold_left (closestStep cam visual handPos excludeOrbIds) orbs (None, None) in
  (acc = (None, None) /\
   forall x, In x orbs -> ~ eligible cam visual handPos excludeOrbIds x) \/
  (exists before orb after,
     orbs = (before ++ orb :: after)%list /\
     acc = (Some (id orb), Some (scoreOf cam visual handPos orb)) /\
     eligible cam visual handPos excludeOrbIds orb /\
     (forall x, In x before -> eligible cam visual handPos excludeOrbIds x ->
                scoreOf cam visual handPos orb < scoreOf cam visual handPos x) /\
     (forall x, In x after -> eligible cam visual handPos excludeOrbIds x ->
                scoreOf cam visual handPos orb <= scoreOf cam visual handPos x)).
Proof.
  induction orbs as [|x orbs IH] using rev_ind; cbv zeta.
  - left. split; [reflexivity|]. intros x [].
  - rewrite fold_left_app. cbn [fold_left]. cbv zeta in IH.
    set (acc := fold_left (closestStep cam visual handPos excludeOrbIds) orbs (None, None)) in *.
    assert (Hdec : eligible cam visual handPos excludeOrbIds x \/
                   ~ eligible cam visual handPos excludeOrbIds x).
    { unfold eligible.
      destruct (active x); [|right; intros [H _]; discriminate].
      destruct (in_dec string_dec (id x) excludeOrbIds); [right; tauto|].
      destruct (Rle_dec (-1) (vz (project cam (orbPosOf visual x)))); [|right; tauto].
      destruct (Rle_dec (vz (project cam (orbPosOf visual x))) 1); [|right; tauto].
      destruct (Rlt_dec (screenDistance handPos (project cam (orbPosOf visual x)))
                  (selectionThreshold x
                     (distanceTo (orbPosOf visual x) (cameraPosition cam))));
        [left|right]; tauto. }
    destruct Hdec as [Hel|Hnel].
    + rewrite (closestStep_eligible acc x Hel).
      destruct IH as [[Hacc Hnone] | (before & orb & after & Horbs & Hacc & Hbest & Hlt & Hle)].
      * right. rewrite Hacc. cbn [snd belowScore].
        exists orbs, x, []. (split; [|split; [|split; [|split]]]); try assumption; try reflexivity.
        -- intros y Hy Hely. exfalso. now apply (Hnone y).
        -- intros y [].
      * rewrite Hacc. cbn [snd belowScore].
        destruct (JS.ltb (scoreOf cam visual handPos x) (scoreOf cam visual handPos orb)) eqn:Hcmp.
        -- apply ltb_true_iff in Hcmp. right. exists orbs, x, [].
           (split; [|split; [|split; [|split]]]); try assumption; try reflexivity.
           ++ intros y Hy Hely. rewrite Horbs in Hy. apply in_app_or in Hy as [Hy|[<-|Hy]].
              ** specialize (Hlt y Hy Hely). lra.
              ** exact Hcmp.
              ** specialize (Hle y Hy Hely). lra.
           ++ intros y [].
        -- apply ltb_false_iff in Hcmp. right. exists before, orb, (after ++ [x])%list.
           (split; [|split; [|split; [|split]]]); try assumption; try reflexivity.
           ++ rewrite Horbs, <- app_assoc. reflexivity.
           ++ intros y Hy Hely. apply in_app_or in Hy as [Hy|[<-|[]]]; [now apply Hle|exact Hcmp].
    + rewrite (closestStep_not_eligible acc x Hnel).
      destruct IH as [[Hacc Hnone] | (before & orb & after & Horbs & Hacc & Hbest & Hlt & Hle)].
      * left. split; [exact Hacc|].
        intros y Hy. apply in_app_or in Hy as [Hy|[<-|[]]]; [now apply Hnone|exact Hnel].
      * right. exists before, orb, (after ++ [x])%list.
        (split; [|split; [|split; [|split]]]); try assumption; try reflexivity.
        -- rewrite Horbs, <- app_assoc. reflexivity.
        -- intros y Hy Hely. apply in_app_or in Hy as [Hy|[<-|[]]]; [now apply Hle|contradiction].
Qed.

(** X12. The candidate search returns null exactly when no orb is eligible;
    otherwise it returns the id of an eligible orb whose score (screen
    distance plus a fiftieth of the distance from the camera) is the lowest
    among the eligible orbs, and of several orbs with that lowest score the
    first one in the orb list. *)
Theorem search_picks_best (orbs : list Orb) :
  (getClosestOrbForHand cam visual orbs handPos excludeOrbIds = None <->
   forall x, In x orbs -> ~ eligible cam visual handPos excludeOrbIds x) /\
  (forall o,
     getClosestOrbForHand cam visual orbs handPos excludeOrbIds = Some o ->
     exists before orb after,
       orbs = (before ++ orb :: after)%list /\ id orb = o /\
       eligible cam visual handPos excludeOrbIds orb /\
       (forall x, In x before -> eligible cam visual handPos excludeOrbIds x ->
                  scoreOf cam visual handPos orb < scoreOf cam visual handPos x) /\
       (forall x, In x after -> eligible cam visual handPos excludeOrbIds x ->
                  scoreOf cam visual handPos orb <= scoreOf cam visual handPos x)).
Proof.
  unfold getClosestOrbForHand.
  destruct (fold_closestStep_best orbs)
    as [[Hacc Hnone] | (before & orb & after & Horbs & Hacc & Hbest & Hlt & Hle)];
    rewrite Hacc; cbn [fst].
  - split; [tauto|discriminate].
  - split.
    + split; [discriminate|]. intro Hnone. exfalso. apply (Hnone orb); [|exact Hbest].
      rewrite Horbs. apply in_or_app. right. now left.
    + intros o Ho. injection Ho as <-. exists before, orb, after. tauto.
Qed.

End SearchOptimal.


Lemma search_picks_best_witness :
  exists before orb after,
    [earth] = (before ++ orb :: after)%list /\ id orb = "earth" /\
    eligible fixedHitCamera [] (vec3 0.5 0.5 0.5) [] orb /\
    (forall x, In x before -> eligible fixedHitCamera [] (vec3 0.5 0.5 0.5) [] x ->
               scoreOf fixedHitCamera [] (vec3 0.5 0.5 0.5) orb
               < scoreOf fixedHitCamera [] (vec3 0.5 0.5 0.5) x) /\
    (forall x, In x after -> eligible fixedHitCamera [] (vec3 0.5 0.5 0.5) [] x ->
               scoreOf fixedHitCamera [] (vec3 0.5 0.5 0.5) orb
               <= scoreOf fixedHitCamera [] (vec3 0.5 0.5 0.5) x).
Proof.
  apply (proj2 (search_picks_best fixedHitCamera [] (vec3 0.5 0.5 0.5) [] [earth]) "earth").
  apply earth_closest. reflexivity.
Defined.

(** *** What the lock refs hold after any run of frames *)

Lemma orStr_cases (a b : option string) :
  (JS.truthy a = true /\ JS.orStr a b = a) \/ (JS.truthy a = false /\ JS.orStr a b = b).
Proof. unfold JS.orStr. destruct (JS.truthy a); [left|right]; now split. Qed.

Lemma lockFrame_tidy (cam : Camera) (now : R) (visual : Obj.t Vec3) (p : Props)
  (l : LockRefs) :
  lockTidy l -> lockTidy (lockFrame cam now visual p l).
Proof.
  unfold lockTidy, lockFrame. intro Hl.
  destruct (JS.truthy (p_grabbedOrbId p)); [reflexivity|].
  destruct (negb (p_isTracking p) || isCameraMode (p_cameraMode p)); [reflexivity|].
  cbv zeta. destruct (JS.truthy (lockedOrbRef l)) eqn:Hlocked.
  - destruct (find _ (p_orbs p)) as [lockedOrb|]; [destruct (active lockedOrb)|];
      try destruct (JS.gtb _ unlockThreshold);
      cbn [lockedOrbRef lockCandidateRef releaseLock JS.truthy]; auto; discriminate.
  - destruct (JS.truthy (getClosestOrbForHand _ _ _ _ _)) eqn:Hc;
      [destruct (sameId _ (lockCandidateRef l)); [destruct (JS.geb _ LOCK_TIME)|]|];
      cbn [lockedOrbRef lockCandidateRef]; auto; congruence.
Qed.

Lemma lockFrame_closest (cam : Camera) (now : R) (visual : Obj.t Vec3) (p : Props)
  (l : LockRefs) :
  let l' := lockFrame cam now visual p l in
  (JS.truthy (lockedOrbRef l') = true -> closestOrbRef l' = lockedOrbRef l') /\
  (closestOrbRef l' = lockedOrbRef l' \/ closestOrbRef l' = lockCandidateRef l').
Proof.
  cbv zeta. unfold lockFrame.
  destruct (JS.truthy (p_grabbedOrbId p)); [cbn; auto|].
  destruct (negb (p_isTracking p) || isCameraMode (p_cameraMode p)); [cbn; auto|].
  cbv zeta. destruct (JS.truthy (lockedOrbRef l)) eqn:Hlocked.
  - cbn [lockedOrbRef lockCandidateRef closestOrbRef]. auto.
  - cbn [lockedOrbRef lockCandidateRef closestOrbRef].
    match goal with
    | |- context [JS.orStr ?a ?b] => destruct (orStr_cases a b) as [[Ht ->]|[Ht ->]]
    end; split; auto; congruence.
Qed.

(** X13. After any run of lock frames from the initial refs, whatever the
    props and the camera were: a truthy lock leaves no candidate, the
    effective target [closestOrbRef] is the locked orb whenever the lock is
    truthy, and it is always the lock or the candidate. *)
Theorem lock_refs_invariants (inputs : list LockInput) :
  let l := lockFrames initialLock inputs in
  lockTidy l /\
  (JS.truthy (lockedOrbRef l) = true -> closestOrbRef l = lockedOrbRef l) /\
  (closestOrbRef l = lockedOrbRef l \/ closestOrbRef l = lockCandidateRef l).
Proof.
  cbv zeta. induction inputs as [|i inputs IH] using rev_ind.
  - cbn. unfold lockTidy. cbn. auto.
  - unfold lockFrames in *. rewrite fold_left_app. cbn [fold_left].
    destruct IH as (Htidy & _). unfold lockFrameOn at 1 3 4 5 6 7 8.
    split; [now apply lockFrame_tidy|]. apply lockFrame_closest.
Qed.

(** *** A grab needs a lock *)

Lemma orbActions_free (a : App) (t : HandTracking.Tracking) (l : LockRefs)
  (x : Orb) (r : OrbRefs) :
  grabbedOrbs a = [] ->
  orbActions (appProps a t) l x r =
  if HandTracking.isTracking t && negb (HandTracking.isFist t) && HandTracking.isPinching t
     && active x && sameId (lockedOrbRef l) (Some (id x))
  then [SetGrabbedOrbId (Some (id x)) "player_0"]
  else [].
Proof.
  intro Hg. destruct (HandTracking.isTracking t) eqn:Ht.
  - unfold orbActions. rewrite appProps_tracked by assumption. rewrite Hg.
    cbn [p_cameraMode Obj.get JS.truthy].
    destruct (HandTracking.isFist t); cbn [isCameraMode andb negb]; [reflexivity|].
    rewrite grabDetection_actions.
    cbn [p_isTracking p_isPinching p_grabbedOrbId firstGrabbed sameId andb negb].
    destruct (HandTracking.isPinching t), (active x); cbn [andb]; try reflexivity.
    rewrite orb_false_r, andb_true_r. reflexivity.
  - rewrite orbActions_untracked; [reflexivity|]. now rewrite appProps_untracked.
Qed.

(** A grab in the default view needs a lock. *)
Lemma mounted_needs_lock (order : FrameOrder) (env : Env) (t : HandTracking.Tracking)
  (w : World) :
  NoDup (map id (orbs (app w))) ->
  grabbedOrbs (app w) = [] ->
  grabbedOrbs (app (mountedFrame order env t w)) <> [] ->
  HandTracking.isTracking t = true /\
  HandTracking.isPinching t = true /\
  HandTracking.isFist t = false /\
  orbs (app (mountedFrame order env t w)) = orbs (app w) /\
  exists orb,
    In orb (orbs (app w)) /\ active orb = true /\
    grabbedOrbs (app (mountedFrame order env t w)) = [("player_0", id orb)] /\
    (lockedOrbRef (lock (refs w)) = Some (id orb) \/
     lockedOrbRef (lock (refs (mountedFrame order env t w))) = Some (id orb)).
Proof.
  intros Hnd Hg Hgrab.
  destruct (mountedFrame_app order env t w) as (l & Happ & Hl).
  rewrite orbFrames_actions in Happ by exact Hnd.
  change (p_orbs (appProps (app w) t)) with (orbs (app w)) in Happ.
  rewrite (flat_map_ext_in _
             (fun x => if HandTracking.isTracking t && negb (HandTracking.isFist t)
                          && HandTracking.isPinching t && active x
                          && sameId (lockedOrbRef l) (Some (id x))
                       then [SetGrabbedOrbId (Some (id x)) "player_0"] else [])) in Happ
    by (intros x _; now apply orbActions_free).
  destruct (HandTracking.isTracking t && negb (HandTracking.isFist t)
            && HandTracking.isPinching t) eqn:Hhand.
  2: { exfalso. apply Hgrab. rewrite Happ, flat_map_all_nil; [exact Hg|].
       intros x _. reflexivity. }
  apply andb_prop in Hhand as [Hhand Hp]. apply andb_prop in Hhand as [Ht Hf].
  apply negb_true_iff in Hf.
  destruct (find (fun x => active x && sameId (lockedOrbRef l) (Some (id x))) (orbs (app w)))
    as [orb|] eqn:Hfind.
  - apply find_some in Hfind as [Hin Hcond]. apply andb_prop in Hcond as [Hact Hsame].
    apply sameId_true_iff in Hsame.
    rewrite (flat_map_single _ (orbs (app w)) orb Hnd Hin) in Happ.
    + cbn [andb] in Happ. rewrite Hact, Hsame, sameId_refl in Happ.
      cbn [andb fold_left applyAction setGrabbedOrbId] in Happ. rewrite Happ.
      cbn [orbs grabbedOrbs]. rewrite Hg. cbn [Obj.set].
      repeat (split; [assumption || reflexivity|]).
      exists orb. repeat (split; [assumption || reflexivity|]).
      destruct Hl as [<-|Hl]; [now left|right]. rewrite <- Hl. exact Hsame.
    + intros x Hx Hne. cbn [andb].
      destruct (active x); [|reflexivity].
      destruct (sameId (lockedOrbRef l) (Some (id x))) eqn:Hx'; [|reflexivity].
      apply sameId_true_iff in Hx'. congruence.
  - exfalso. apply Hgrab. rewrite Happ, flat_map_all_nil; [exact Hg|].
    intros x Hx. pose proof (find_none _ _ Hfind x Hx) as Hnone. cbn beta in Hnone.
    cbn [andb]. rewrite Hnone. reflexivity.
Qed.

(** X14. A frame that starts with nothing grabbed ends with something grabbed
    only if the default view is shown, the hand is tracked, pinching and not
    a fist, and the grabbed orb is an active orb of the scene that the lock
    refs hold, before or after the lock callback of that frame; the grab is
    then the single entry of [grabbedOrbs], and the orb list is untouched. *)
Theorem grab_needs_lock (order : FrameOrder) (env : Env) (t : HandTracking.Tracking)
  (w : World) :
  NoDup (map id (orbs (app w))) ->
  grabbedOrbs (app w) = [] ->
  grabbedOrbs (app (sceneFrame order env t w)) <> [] ->
  env_viewMode env = "default" /\
  HandTracking.isTracking t = true /\
  HandTracking.isPinching t = true /\
  HandTracking.isFist t = false /\
  orbs (app (sceneFrame order env t w)) = orbs (app w) /\
  exists orb,
    In orb (orbs (app w)) /\ active orb = true /\
    grabbedOrbs (app (sceneFrame order env t w)) = [("player_0", id orb)] /\
    (lockedOrbRef (lock (refs w)) = Some (id orb) \/
     lockedOrbRef (lock (refs (sceneFrame order env t w))) = Some (id orb)).
Proof.
  intros Hnd Hg Hgrab.
  destruct (sceneFrame_cases order env t w) as [[Hv Hs]|[Hv Hs]]; rewrite Hs in *.
  - split; [exact Hv|]. now apply mounted_needs_lock.
  - exfalso. apply Hgrab. exact Hg.
Qed.

Lemma grab_needs_lock_witness :
  env_viewMode (exampleEnv 1266) = "default" /\
  HandTracking.isTracking pinchAtCentre = true /\
  HandTracking.isPinching pinchAtCentre = true /\
  HandTracking.isFist pinchAtCentre = false /\
  orbs (app (sceneFrame LockFirst (exampleEnv 1266) pinchAtCentre earthLocked))
  = orbs (app earthLocked) /\
  exists orb,
    In orb (orbs (app earthLocked)) /\ active orb = true /\
    grabbedOrbs (app (sceneFrame LockFirst (exampleEnv 1266) pinchAtCentre earthLocked))
    = [("player_0", id orb)] /\
    (lockedOrbRef (lock (refs earthLocked)) = Some (id orb) \/
     lockedOrbRef (lock (refs (sceneFrame LockFirst (exampleEnv 1266) pinchAtCentre
                                 earthLocked))) = Some (id orb)).
Proof.
  destruct earthLocked_state as [HL _]. destruct earthPinched_state as [HP _].
  apply (grab_needs_lock LockFirst (exampleEnv 1266) pinchAtCentre earthLocked).
  - rewrite HL. apply NoDup_earth.
  - rewrite HL. reflexivity.
  - fold earthPinched. rewrite HP. discriminate.
Defined.

(** *** Every id the scene holds is the id of one of its orbs *)

Lemma lockFrame_ids (P : OrbId -> Prop) (cam : Camera) (now : R) (visual : Obj.t Vec3)
  (p : Props) (l : LockRefs) :
  (forall o, p_grabbedOrbId p = Some o -> P o) ->
  (forall o, getClosestOrbForHand cam visual (p_orbs p) (p_handPosition p)
               (Obj.values (p_grabbedOrbs p)) = Some o -> P o) ->
  lockIds P l -> lockIds P (lockFrame cam now visual p l).
Proof.
  intros Hg Hc (Hl & Hcand & Hcl). unfold lockIds, lockFrame.
  destruct (JS.truthy (p_grabbedOrbId p));
    [cbn [lockedOrbRef lockCandidateRef closestOrbRef];
     repeat split; intros o Ho; auto; discriminate|].
  destruct (negb (p_isTracking p) || isCameraMode (p_cameraMode p));
    [cbn [lockedOrbRef lockCandidateRef closestOrbRef];
     repeat split; intros o Ho; discriminate|].
  cbv zeta. destruct (JS.truthy (lockedOrbRef l)).
  - destruct (find _ (p_orbs p)) as [lockedOrb|]; [destruct (active lockedOrb)|];
      try destruct (JS.gtb _ unlockThreshold);
      cbn [lockedOrbRef lockCandidateRef closestOrbRef releaseLock];
      repeat split; intros o Ho; auto; discriminate.
  - match goal with
    | |- context [JS.orStr ?a ?b] => destruct (orStr_cases a b) as [[_ ->]|[_ ->]]
    end;
      (destruct (JS.truthy (getClosestOrbForHand _ _ _ _ _));
       [destruct (sameId _ (lockCandidateRef l)); [destruct (JS.geb _ LOCK_TIME)|]|];
       cbn [lockedOrbRef lockCandidateRef closestOrbRef];
       repeat split; intros o Ho; auto; discriminate).
Qed.

Lemma values_set (g : Obj.t OrbId) (k : string) (o v : OrbId) :
  In v (Obj.values (Obj.set g k o)) -> v = o \/ In v (Obj.values g).
Proof. apply ObjFacts.values_set_in. Qed.

Lemma values_delete (g : Obj.t OrbId) (k : string) (v : OrbId) :
  In v (Obj.values (Obj.delete g k)) -> In v (Obj.values g).
Proof.
  unfold Obj.values. induction g as [|[k0 v0] g IH]; cbn [Obj.delete map snd In]; [tauto|].
  destruct (String.eqb k0 k); cbn [map snd In]; [auto|].
  intros [<-|H]; auto.
Qed.

Lemma firstGrabbed_value (g : Obj.t OrbId) (o : OrbId) :
  firstGrabbed g = Some o -> In o (Obj.values g).
Proof.
  destruct g as [|[k v] g]; cbn; [discriminate|]. intro H. injection H as <-. now left.
Qed.

Lemma applyAction_known (ids : list OrbId) (a : App) (act : Action) :
  knownAction ids act ->
  map id (orbs a) = ids /\ (forall o, In o (Obj.values (grabbedOrbs a)) -> In o ids) ->
  map id (orbs (applyAction a act)) = ids /\
  (forall o, In o (Obj.values (grabbedOrbs (applyAction a act))) -> In o ids).
Proof.
  intros Hact [Hids Hg]. destruct act as [[o|] playerId | orbId pos];
    cbn [applyAction orbs grabbedOrbs setGrabbedOrbId knownAction] in *.
  - split; [exact Hids|]. intros v Hv. apply values_set in Hv as [->|Hv]; auto.
  - split; [exact Hids|]. intros v Hv. apply values_delete in Hv. auto.
  - split; [|exact Hg]. now rewrite AppMore.updateOrbPosition_ids.
Qed.

Lemma fold_applyAction_known (ids : list OrbId) (acts : list Action) (a : App) :
  Forall (knownAction ids) acts ->
  map id (orbs a) = ids /\ (forall o, In o (Obj.values (grabbedOrbs a)) -> In o ids) ->
  map id (orbs (fold_left applyAction acts a)) = ids /\
  (forall o, In o (Obj.values (grabbedOrbs (fold_left applyAction acts a))) -> In o ids).
Proof.
  revert a. induction acts as [|act acts IH]; intros a Hacts Ha; [exact Ha|].
  inversion Hacts; subst. cbn [fold_left]. apply IH; [assumption|].
  now apply applyAction_known.
Qed.

Lemma orbActions_known (ids : list OrbId) (p : Props) (l : LockRefs) (orb : Orb)
  (r : OrbRefs) :
  In (id orb) ids -> Forall (knownAction ids) (orbActions p l orb r).
Proof.
  intro Hin. unfold orbActions. destruct (isCameraMode _); [constructor|].
  rewrite grabDetection_actions.
  destruct (p_isTracking p && active orb); [|constructor].
  destruct (p_isPinching p).
  - destruct (_ && _); repeat constructor. exact Hin.
  - destruct (sameId _ _); repeat constructor.
Qed.

Lemma orbFramesStep_known (ids : list OrbId) (cam : Camera) (delta : R) (p : Props)
  (l : LockRefs) (acc : Obj.t Vec3 * Obj.t OrbRefs * list Action) (orb : Orb) :
  In (id orb) ids ->
  (forall k, In k (Obj.keys (fst (fst acc))) -> In k ids) /\
  (forall k, In k (Obj.keys (snd (fst acc))) -> In k ids) /\
  Forall (knownAction ids) (snd acc) ->
  (forall k, In k (Obj.keys (fst (fst (orbFramesStep cam delta p l acc orb)))) -> In k ids) /\
  (forall k, In k (Obj.keys (snd (fst (orbFramesStep cam delta p l acc orb)))) -> In k ids) /\
  Forall (knownAction ids) (snd (orbFramesStep cam delta p l acc orb)).
Proof.
  destruct acc as [[visual rs] acts]. cbn [fst snd]. intros Hin (Hv & Hrs & Hacts).
  split; [|split].
  - unfold orbFramesStep.
    destruct (soundOrbFrame cam delta p l orb "player_0" (refsOf rs orb)) as [[r' acts'] reg].
    cbn [fst snd]. destruct reg as [pos|]; [|exact Hv].
    intros k Hk. apply ObjFacts.keys_set_in in Hk as [->|Hk]; auto.
  - destruct (orbFramesStep_refs cam delta p l visual rs acts orb) as [r' ->].
    intros k Hk. apply ObjFacts.keys_set_in in Hk as [->|Hk]; auto.
  - rewrite orbFramesStep_actions. apply Forall_app. split; [exact Hacts|].
    now apply orbActions_known.
Qed.

Lemma fold_orbFramesStep_known (ids : list OrbId) (cam : Camera) (delta : R) (p : Props)
  (l : LockRefs) (os : list Orb) (acc : Obj.t Vec3 * Obj.t OrbRefs * list Action) :
  (forall x, In x os -> In (id x) ids) ->
  (forall k, In k (Obj.keys (fst (fst acc))) -> In k ids) /\
  (forall k, In k (Obj.keys (snd (fst acc))) -> In k ids) /\
  Forall (knownAction ids) (snd acc) ->
  (forall k, In k (Obj.keys (fst (fst (fold_left (orbFramesStep cam delta p l) os acc)))) ->
             In k ids) /\
  (forall k, In k (Obj.keys (snd (fst (fold_left (orbFramesStep cam delta p l) os acc)))) ->
             In k ids) /\
  Forall (knownAction ids) (snd (fold_left (orbFramesStep cam delta p l) os acc)).
Proof.
  revert acc. induction os as [|x os IH]; intros acc Hos Hacc; [exact Hacc|].
  cbn [fold_left]. apply IH.
  - intros y Hy. apply Hos. now right.
  - apply orbFramesStep_known; [apply Hos; now left|exact Hacc].
Qed.

Lemma mountedFrame_known (orbs0 : list Orb) (order : FrameOrder) (env : Env)
  (t : HandTracking.Tracking) (w : World) :
  knownIds orbs0 w -> knownIds orbs0 (mountedFrame order env t w).
Proof.
  intros (Hids & Hg & Hlock & Hv & Hrs).
  assert (Hframes : forall l,
            let res := orbFrames (env_camera env) (env_delta env) (appProps (app w) t) l
                         (orbVisualPositionsRef (refs w)) (soundOrbRefs (refs w)) in
            (forall k, In k (Obj.keys (fst (fst res))) -> In k (map id orbs0)) /\
            (forall k, In k (Obj.keys (snd (fst res))) -> In k (map id orbs0)) /\
            Forall (knownAction (map id orbs0)) (snd res)).
  { intro l. cbv zeta. unfold orbFrames. apply fold_orbFramesStep_known.
    - cbn [appProps p_orbs]. intros x Hx. rewrite <- Hids. now apply in_map.
    - cbn [fst snd]. repeat split; auto. }
  assert (Hlk : forall visual,
            lockIds (fun o => In o (map id orbs0))
              (lockFrame (env_camera env) (env_now env) visual (appProps (app w) t)
                 (lock (refs w)))).
  { intro visual. apply lockFrame_ids; [| |exact Hlock].
    - cbn [appProps p_grabbedOrbId]. intros o Ho. apply Hg. now apply firstGrabbed_value.
    - intros o Ho. apply getClosestOrbForHand_picked in Ho as (orb & Hin & <- & _).
      cbn [appProps p_orbs] in Hin. rewrite <- Hids. now apply in_map. }
  unfold knownIds. destruct order; unfold mountedFrame.
  - specialize (Hframes (lockFrame (env_camera env) (env_now env)
                           (orbVisualPositionsRef (refs w)) (appProps (app w) t)
                           (lock (refs w)))).
    cbv zeta in Hframes. destruct (orbFrames _ _ _ _ _ _) as [[v rs] acts].
    cbn [fst snd] in Hframes. destruct Hframes as (Hv' & Hrs' & Hacts).
    cbn [app refs lock orbVisualPositionsRef soundOrbRefs].
    destruct (fold_applyAction_known (map id orbs0) acts (app w) Hacts (conj Hids Hg))
      as [Hids' Hg'].
    repeat split; auto; apply Hlk.
  - specialize (Hframes (lock (refs w))).
    cbv zeta in Hframes. destruct (orbFrames _ _ _ _ _ _) as [[v rs] acts].
    cbn [fst snd] in Hframes. destruct Hframes as (Hv' & Hrs' & Hacts).
    cbn [app refs lock orbVisualPositionsRef soundOrbRefs].
    destruct (fold_applyAction_known (map id orbs0) acts (app w) Hacts (conj Hids Hg))
      as [Hids' Hg'].
    repeat split; auto; apply Hlk.
Qed.

Lemma hiddenFrame_known (orbs0 : list Orb) (env : Env) (t : HandTracking.Tracking)
  (w : World) :
  knownIds orbs0 w -> knownIds orbs0 (hiddenFrame env t w).
Proof.
  intros (Hids & Hg & Hlock & Hv & Hrs). unfold knownIds, hiddenFrame.
  cbn [app refs lock orbVisualPositionsRef soundOrbRefs].
  split; [exact Hids|]. split; [exact Hg|]. split; [|split; [exact Hv|intros k []]].
  apply lockFrame_ids; [| |exact Hlock].
  - cbn [appProps p_grabbedOrbId]. intros o Ho. apply Hg. now apply firstGrabbed_value.
  - intros o Ho. apply getClosestOrbForHand_picked in Ho as (orb & Hin & <- & _).
    cbn [appProps p_orbs] in Hin. rewrite <- Hids. now apply in_map.
Qed.

(** X15. In every state the scene reaches from its start, by frames with any
    tracking input, camera, clock and callback order, by toggling orbs and by
    switching the player mode: the orb list has the ids it started with, in
    the same order, and every id that is grabbed, locked, a lock candidate,
    the effective target, registered with a visual position or mounted with
    refs is the id of one of those orbs. *)
Theorem ids_stay_known (orbs0 : list Orb) (w : World) :
  reachable orbs0 w -> knownIds orbs0 w.
Proof.
  induction 1 as [|w w' _ IH Hstep].
  - unfold knownIds, lockIds. cbn. repeat split; try tauto; intros; discriminate.
  - destruct Hstep as [order env t w | orbId w | w].
    + destruct (sceneFrame_cases order env t w) as [[_ ->]|[_ ->]];
        [now apply mountedFrame_known|now apply hiddenFrame_known].
    + destruct IH as (Hids & Hg & Hlock & Hv & Hrs).
      unfold knownIds. cbn [app refs orbs grabbedOrbs].
      rewrite AppMore.toggleOrbActive_ids. repeat split; auto; apply Hlock.
    + destruct IH as (Hids & Hg & Hlock & Hv & Hrs).
      unfold knownIds. cbn [app refs orbs grabbedOrbs].
      repeat split; auto; try apply Hlock. intros o [].
Qed.

Lemma ids_stay_known_witness : knownIds [earth] earthPinched.
Proof. apply (ids_stay_known [earth] earthPinched). apply earthPinched_reachable. Defined.

(** *** Angle interpolation closes the gap geometrically *)

(** A value strictly inside half a turn that differs from the raw delta by
    whole turns is the normalized delta. *)
Lemma normalizedDiff_unique (current target x : R) (k : Z) :
  x = target - current + IZR k * (2 * PI) ->
  - PI < x < PI ->
  normalizedDiff current target = x.
Proof.
  intros Hx Hrange. pose proof PI_RGT_0 as Hpi.
  destruct (MotionFacts.normalizedDiff_turns current target) as [k' Hk'].
  pose proof (MotionFacts.normalizedDiff_range current target) as Hn.
  assert (Hdiff : normalizedDiff current target - x = IZR (k' - k) * (2 * PI))
    by (rewrite minus_IZR; lra).
  assert (Hzero : (k' - k = 0)%Z).
  { assert (Hlt : (k' - k < 1)%Z) by (apply lt_IZR; nra).
    assert (Hgt : (-1 < k' - k)%Z) by (apply lt_IZR; nra).
    lia. }
  rewrite Hzero in Hdiff. lra.
Qed.

Lemma lerpAngle_gap (current target t : R) :
  0 <= t <= 1 ->
  normalizedDiff (lerpAngle current target t) target =
  (1 - t) * normalizedDiff current target.
Proof.
  intros [Ht0 Ht1]. pose proof PI_RGT_0 as Hpi.
  destruct Ht0 as [Hpos|<-].
  - destruct (MotionFacts.normalizedDiff_turns current target) as [k Hk].
    pose proof (MotionFacts.normalizedDiff_range current target) as Hn.
    apply (normalizedDiff_unique _ _ _ k).
    + unfold lerpAngle. set (nd := normalizedDiff current target) in *. lra.
    + set (nd := normalizedDiff current target) in *. nra.
  - unfold lerpAngle. rewrite Rmult_0_r, Rplus_0_r. ring.
Qed.

(** X16. Interpolating an angle toward a target at a rate in [0, 1]
    multiplies the normalized distance to the target by one minus the rate
    at every step, so after [n] steps it is that factor to the power [n]
    times the distance at the start.  Unless the target is exactly opposite,
    whole turns added to the target do not change the step and whole turns
    added to the current angle carry over to the result; a target less than
    half a turn away is approached by plain linear interpolation. *)
Theorem lerpAngle_contracts (current target t : R) (n : nat) :
  0 <= t <= 1 ->
  normalizedDiff (lerpAngleSteps t target n current) target =
  (1 - t) ^ n * normalizedDiff current target /\
  (forall k : Z,
     - PI < normalizedDiff current target < PI ->
     lerpAngle current (target + IZR k * (2 * PI)) t = lerpAngle current target t /\
     lerpAngle (current + IZR k * (2 * PI)) target t =
     lerpAngle current target t + IZR k * (2 * PI)) /\
  (- PI < target - current < PI ->
   lerpAngle current target t = current + (target - current) * t).
Proof.
  intro Ht. split; [|split].
  - induction n as [|n IH].
    + rewrite MotionFacts.lerpAngleSteps_0. cbn [pow]. ring.
    + rewrite MotionFacts.lerpAngleSteps_S, lerpAngle_gap by exact Ht.
      rewrite IH. cbn [pow]. ring.
  - intros k Hrange.
    destruct (MotionFacts.normalizedDiff_turns current target) as [k0 Hk0].
    split; unfold lerpAngle.
    + rewrite (normalizedDiff_unique current (target + IZR k * (2 * PI))
                 (normalizedDiff current target) (k0 - k)); [reflexivity| |exact Hrange].
      rewrite minus_IZR. lra.
    + rewrite (normalizedDiff_unique (current + IZR k * (2 * PI)) target
                 (normalizedDiff current target) (k0 + k)); [ring| |exact Hrange].
      rewrite plus_IZR. lra.
  - intro Hrange. unfold lerpAngle.
    rewrite (normalizedDiff_unique current target (target - current) 0);
      [reflexivity|lra|exact Hrange].
Qed.

Lemma lerpAngle_contracts_witness :
  normalizedDiff (lerpAngleSteps 0.2 1 3 0) 1 = (1 - 0.2) ^ 3 * normalizedDiff 0 1.
Proof. apply (proj1 (lerpAngle_contracts 0 1 0.2 3 ltac:(lra))). Defined.

(** *** Orbits stay on their circle and inside the orbit range *)

Lemma updatePlanetPosition_range (orb : Orb) (isGrabbed : bool) (delta : R) (r : OrbRefs) :
  radiiInRange r -> radiiInRange (updatePlanetPosition orb isGrabbed delta r).
Proof.
  unfold radiiInRange, updatePlanetPosition, MIN_ORBIT_RADIUS, MAX_ORBIT_RADIUS.
  cbn [currentOrbitRadius targetOrbitRadius]. intros [Hc Ht].
  split; [|exact Ht]. destruct isGrabbed; nra.
Qed.

Lemma grabbedTargets_range (cam : Camera) (handPosition : Vec3) (r : OrbRefs) :
  radiiInRange r -> radiiInRange (grabbedTargets cam handPosition r).
Proof.
  unfold radiiInRange, grabbedTargets. cbn [currentOrbitRadius targetOrbitRadius].
  intros [Hc _]. split; [exact Hc|]. apply MotionFacts.clampedRadius_range.
Qed.

Lemma grabDetection_radii (p : Props) (l : LockRefs) (orb : Orb) (playerId : PlayerId)
  (r : OrbRefs) :
  currentOrbitRadius (fst (grabDetection p l orb playerId r)) = currentOrbitRadius r /\
  targetOrbitRadius (fst (grabDetection p l orb playerId r)) = targetOrbitRadius r.
Proof.
  unfold grabDetection. destruct (p_isTracking p && active orb); [|now split].
  destruct (p_isPinching p && _ && _); destruct (negb (p_isPinching p) && _);
    now split.
Qed.

(** The refs after an orb's frame are those of [updatePlanetPosition] run on
    refs that have the radii the frame started with, or the clamped target
    radius of the cursor ray. *)
Lemma soundOrbFrame_updates (cam : Camera) (delta : R) (p : Props) (l : LockRefs)
  (orb : Orb) (playerId : PlayerId) (r : OrbRefs) :
  radiiInRange r ->
  exists r2,
    radiiInRange r2 /\ currentOrbitRadius r2 = currentOrbitRadius r /\
    fst (fst (soundOrbFrame cam delta p l orb playerId r)) =
    updatePlanetPosition orb (sameId (p_grabbedOrbId p) (Some (id orb))) delta r2.
Proof.
  intro Hr. unfold soundOrbFrame.
  destruct (isCameraMode (p_cameraMode p)); [now exists r|].
  pose proof (grabDetection_radii p l orb playerId r) as [Hc Ht].
  destruct (grabDetection p l orb playerId r) as [r1 acts]. cbn [fst] in Hc, Ht.
  assert (Hr1 : radiiInRange r1) by (unfold radiiInRange; rewrite Hc, Ht; exact Hr).
  destruct (sameId (p_grabbedOrbId p) (Some (id orb))).
  - exists (grabbedTargets cam (p_handPosition p) r1).
    split; [now apply grabbedTargets_range|]. split; [exact Hc|reflexivity].
  - exists r1. split; [exact Hr1|]. split; [exact Hc|reflexivity].
Qed.

(** X17. One frame of an orb whose radii are inside the orbit range, with any
    props, lock, camera and frame time: both radii are inside the range
    afterwards, the current radius has moved toward the target radius without
    passing it, and the target position lies on the circle of the current
    radius around the vertical axis, at a height of at most a tenth of that
    radius. *)
Theorem orbit_on_circle (cam : Camera) (delta : R) (p : Props) (l : LockRefs)
  (orb : Orb) (playerId : PlayerId) (r : OrbRefs) :
  radiiInRange r ->
  let r' := fst (fst (soundOrbFrame cam delta p l orb playerId r)) in
  radiiInRange r' /\
  Rmin (currentOrbitRadius r) (targetOrbitRadius r') <= currentOrbitRadius r'
  <= Rmax (currentOrbitRadius r) (targetOrbitRadius r') /\
  vx (targetPosition r') * vx (targetPosition r') +
  vz (targetPosition r') * vz (targetPosition r')
  = currentOrbitRadius r' * currentOrbitRadius r' /\
  Rabs (vy (targetPosition r')) <= 0.1 * currentOrbitRadius r'.
Proof.
  intro Hr. cbv zeta.
  destruct (soundOrbFrame_updates cam delta p l orb playerId r Hr) as (r2 & Hr2 & Hcur & ->).
  split; [now apply updatePlanetPosition_range|].
  generalize (sameId (p_grabbedOrbId p) (Some (id orb))). intro g.
  rewrite <- Hcur. destruct Hr2 as [Hc Ht].
  unfold MIN_ORBIT_RADIUS, MAX_ORBIT_RADIUS in Hc, Ht.
  unfold updatePlanetPosition.
  cbn [currentOrbitRadius targetOrbitRadius targetPosition vx vy vz].
  set (s := if g then 0.12 else 0.08).
  assert (Hs : 0 < s < 1) by (unfold s; destruct g; lra).
  set (rho := currentOrbitRadius r2 + (targetOrbitRadius r2 - currentOrbitRadius r2) * s).
  assert (Hrho : 2 <= rho <= 12) by (unfold rho; nra).
  set (angle := lerpAngle _ _ _).
  split; [|split].
  - unfold Rmin, Rmax.
    destruct (Rle_dec (currentOrbitRadius r2) (targetOrbitRadius r2)); unfold rho; nra.
  - pose proof (sin2_cos2 angle) as Hsc. unfold Rsqr in Hsc. nra.
  - pose proof (SIN_bound angle) as Ha.
    pose proof (SIN_bound (JS.orElse (tiltAngle orb) 0)) as Hb.
    set (a := sin angle) in *. set (b := sin (JS.orElse (tiltAngle orb) 0)) in *.
    assert (Hab : -1 <= b * a <= 1) by nra.
    apply Rabs_le. nra.
Qed.

Lemma mountRefs_range (orb : Orb) : mountsInRange orb -> radiiInRange (mountRefs orb).
Proof. intro H. split; exact H. Qed.

Lemma earth_mountsInRange : mountsInRange earth.
Proof.
  unfold mountsInRange, MIN_ORBIT_RADIUS, MAX_ORBIT_RADIUS. cbn [earth orbitRadius].
  rewrite orElse_Some by lra. lra.
Qed.

Lemma orbit_on_circle_witness :
  radiiInRange (fst (fst (soundOrbFrame fixedHitCamera 0.016 (appProps earthApp openAtCentre)
                            initialLock earth "player_0" (mountRefs earth)))).
Proof.
  apply (proj1 (orbit_on_circle fixedHitCamera 0.016 (appProps earthApp openAtCentre)
                  initialLock earth "player_0" (mountRefs earth)
                  (mountRefs_range earth earth_mountsInRange))).
Defined.

Lemma orbFramesStep_eq (cam : Camera) (delta : R) (p : Props) (l : LockRefs)
  (visual : Obj.t Vec3) (rs : Obj.t OrbRefs) (acts : list Action) (orb : Orb) :
  orbFramesStep cam delta p l (visual, rs, acts) orb =
  (match snd (soundOrbFrame cam delta p l orb "player_0" (refsOf rs orb)) with
   | Some pos => Obj.set visual (id orb) pos
   | None => visual
   end,
   Obj.set rs (id orb) (fst (fst (soundOrbFrame cam delta p l orb "player_0" (refsOf rs orb)))),
   (acts ++ snd (fst (soundOrbFrame cam delta p l orb "player_0" (refsOf rs orb))))%list).
Proof.
  unfold orbFramesStep.
  destruct (soundOrbFrame cam delta p l orb "player_0" (refsOf rs orb)) as [[r' acts'] reg].
  reflexivity.
Qed.

Lemma get_set_cases {V : Type} (o : Obj.t V) (k k' : string) (v v' : V) :
  Obj.get (Obj.set o k v) k' = Some v' ->
  (k = k' /\ v' = v) \/ (k <> k' /\ Obj.get o k' = Some v').
Proof.
  destruct (string_dec k k') as [<-|Hne].
  - rewrite ObjFacts.get_set_same. intro H. injection H as <-. now left.
  - rewrite ObjFacts.get_set_other by exact Hne. now right.
Qed.

Lemma refsOf_range (rs : Obj.t OrbRefs) (orb : Orb) :
  mountsInRange orb ->
  (forall k r, Obj.get rs k = Some r -> radiiInRange r) ->
  radiiInRange (refsOf rs orb).
Proof.
  intros Horb Hrs. unfold refsOf. destruct (Obj.get rs (id orb)) as [r|] eqn:E.
  - exact (Hrs _ _ E).
  - now apply mountRefs_range.
Qed.

Lemma fold_orbFramesStep_range (cam : Camera) (delta : R) (p : Props) (l : LockRefs)
  (os : list Orb) (acc : Obj.t Vec3 * Obj.t OrbRefs * list Action) :
  Forall mountsInRange os ->
  (forall k r, Obj.get (snd (fst acc)) k = Some r -> radiiInRange r) ->
  forall k r,
    Obj.get (snd (fst (fold_left (orbFramesStep cam delta p l) os acc))) k = Some r ->
    radiiInRange r.
Proof.
  revert acc. induction os as [|x os IH]; intros [[visual rs] acts] Hos Hacc; [exact Hacc|].
  inversion Hos as [|? ? Hx Hos']; subst. cbn [fold_left]. apply IH; [exact Hos'|].
  rewrite orbFramesStep_eq. cbn [fst snd] in *. intros k r Hget.
  apply get_set_cases in Hget as [[_ ->]|[_ Hget]]; [|exact (Hacc _ _ Hget)].
  destruct (soundOrbFrame_updates cam delta p l x "player_0" (refsOf rs x)
              (refsOf_range rs x Hx Hacc)) as (r2 & Hr2 & _ & ->).
  now apply updatePlanetPosition_range.
Qed.

Lemma applyAction_mounts (a : App) (act : Action) :
  Forall mountsInRange (orbs a) -> Forall mountsInRange (orbs (applyAction a act)).
Proof.
  intro Ha. destruct act as [o playerId | orbId pos]; cbn [applyAction orbs]; [exact Ha|].
  unfold updateOrbPosition. apply Forall_map. revert Ha. apply Forall_impl.
  intros x Hx. destruct (String.eqb (id x) orbId); exact Hx.
Qed.

Lemma fold_applyAction_mounts (acts : list Action) (a : App) :
  Forall mountsInRange (orbs a) ->
  Forall mountsInRange (orbs (fold_left applyAction acts a)).
Proof.
  revert a. induction acts as [|act acts IH]; intros a Ha; [exact Ha|].
  cbn [fold_left]. apply IH. now apply applyAction_mounts.
Qed.

Lemma mountedFrame_refs (order : FrameOrder) (env : Env) (t : HandTracking.Tracking) (w : World) :
  exists l,
    soundOrbRefs (refs (mountedFrame order env t w)) =
    snd (fst (orbFrames (env_camera env) (env_delta env) (appProps (app w) t) l
                (orbVisualPositionsRef (refs w)) (soundOrbRefs (refs w)))) /\
    orbVisualPositionsRef (refs (mountedFrame order env t w)) =
    fst (fst (orbFrames (env_camera env) (env_delta env) (appProps (app w) t) l
                (orbVisualPositionsRef (refs w)) (soundOrbRefs (refs w)))).
Proof.
  destruct order; unfold mountedFrame.
  - exists (lockFrame (env_camera env) (env_now env) (orbVisualPositionsRef (refs w))
              (appProps (app w) t) (lock (refs w))).
    destruct (orbFrames _ _ _ _ _ _) as [[v rs] acts]. now split.
  - exists (lock (refs w)). destruct (orbFrames _ _ _ _ _ _) as [[v rs] acts]. now split.
Qed.

(** X18. If every orb of the scene mounts with a radius inside the orbit
    range, then in every state the scene reaches, the current and the target
    radius of every mounted orb are inside the orbit range: no sequence of
    frames, grabs, releases, toggles and mode switches takes an orbit out of
    it. *)
Theorem orbits_stay_in_range (orbs0 : list Orb) (w : World) :
  Forall mountsInRange orbs0 -> reachable orbs0 w -> orbitsInRange w.
Proof.
  intros Horbs Hreach. induction Hreach as [|w w' _ IH Hstep].
  - split; [exact Horbs|]. intros k r Hget. discriminate Hget.
  - destruct IH as [Hos Hrs]. destruct Hstep as [order env t w | orbId w | w].
    + destruct (sceneFrame_cases order env t w) as [[_ ->]|[_ ->]].
      * split.
        -- destruct (mountedFrame_app order env t w) as (l & -> & _).
           now apply fold_applyAction_mounts.
        -- destruct (mountedFrame_refs order env t w) as (l & -> & _).
           unfold orbFrames. apply fold_orbFramesStep_range; assumption.
      * split; [exact Hos|]. intros k r Hget. discriminate Hget.
    + split; [|exact Hrs]. cbn [app orbs]. unfold toggleOrbActive.
      apply Forall_map. revert Hos. apply Forall_impl.
      intros x Hx. destruct (String.eqb (id x) orbId); exact Hx.
    + split; assumption.
Qed.

Lemma orbits_stay_in_range_witness : orbitsInRange earthPinched.
Proof.
  apply (orbits_stay_in_range [earth] earthPinched).
  - constructor; [apply earth_mountsInRange|constructor].
  - apply earthPinched_reachable.
Defined.

(** *** A free orbit is faster the closer it is *)

(** X19. In a frame of a free orbit whose radius after the frame is positive,
    the square of the advance of the target angle times that radius is five
    times the square of orbit speed times frame time times 0.3; at radius 5
    the advance is exactly orbit speed times frame time times 0.3; and of two
    orbs with the same positive speed, the one on the smaller circle advances
    more. *)
Theorem closer_orbits_faster (orb : Orb) (delta : R) (r : OrbRefs) :
  0 < currentOrbitRadius (updatePlanetPosition orb false delta r) ->
  angleAdvance orb delta r * angleAdvance orb delta r
  * currentOrbitRadius (updatePlanetPosition orb false delta r)
  = 5 * (JS.orElse (orbitSpeed orb) 1 * delta * 0.3) * (JS.orElse (orbitSpeed orb) 1 * delta * 0.3) /\
  (currentOrbitRadius (updatePlanetPosition orb false delta r) = 5 ->
   angleAdvance orb delta r = JS.orElse (orbitSpeed orb) 1 * delta * 0.3) /\
  (forall orb2 r2,
     JS.orElse (orbitSpeed orb2) 1 = JS.orElse (orbitSpeed orb) 1 ->
     0 < JS.orElse (orbitSpeed orb) 1 * delta ->
     currentOrbitRadius (updatePlanetPosition orb false delta r)
     < currentOrbitRadius (updatePlanetPosition orb2 false delta r2) ->
     angleAdvance orb2 delta r2 < angleAdvance orb delta r).
Proof.
  intro Hpos.
  assert (Hadv : forall o q,
            angleAdvance o delta q =
            JS.orElse (orbitSpeed o) 1
            * sqrt (5 / currentOrbitRadius (updatePlanetPosition o false delta q))
            * delta * 0.3).
  { intros o q. unfold angleAdvance, updatePlanetPosition.
    cbn [targetOrbitAngleRef currentOrbitRadius negb]. ring. }
  rewrite !Hadv.
  set (rho := currentOrbitRadius (updatePlanetPosition orb false delta r)) in *.
  assert (Hq : 0 < 5 / rho) by (apply Rdiv_lt_0_compat; lra).
  pose proof (sqrt_sqrt (5 / rho) (Rlt_le _ _ Hq)) as Hsq.
  split; [|split].
  - set (s := sqrt (5 / rho)) in *. set (v := JS.orElse (orbitSpeed orb) 1).
    transitivity (v * delta * 0.3 * (v * delta * 0.3) * (s * s * rho)); [ring|].
    rewrite Hsq. field. lra.
  - intro Hfive. rewrite Hfive. replace (5 / 5) with 1 by lra. rewrite sqrt_1. ring.
  - intros orb2 r2 Hspeed Hv Hlt. rewrite Hadv, Hspeed.
    set (rho2 := currentOrbitRadius (updatePlanetPosition orb2 false delta r2)) in *.
    assert (Hroot : sqrt (5 / rho2) < sqrt (5 / rho)).
    { apply sqrt_lt_1.
      - apply Rlt_le. apply Rdiv_lt_0_compat; lra.
      - lra.
      - unfold Rdiv. apply Rmult_lt_compat_l; [lra|].
        apply Rinv_lt_contravar; [nra|exact Hlt]. }
    set (v := JS.orElse (orbitSpeed orb) 1) in *. nra.
Qed.

Lemma closer_orbits_faster_witness :
  angleAdvance earth 0.016 (mountRefs earth) * angleAdvance earth 0.016 (mountRefs earth)
  * currentOrbitRadius (updatePlanetPosition earth false 0.016 (mountRefs earth))
  = 5 * (JS.orElse (orbitSpeed earth) 1 * 0.016 * 0.3)
    * (JS.orElse (orbitSpeed earth) 1 * 0.016 * 0.3).
Proof.
  refine (proj1 (closer_orbits_faster earth 0.016 (mountRefs earth) _)).
  unfold updatePlanetPosition, mountRefs.
  cbn [currentOrbitRadius targetOrbitRadius earth orbitRadius].
  rewrite !orElse_Some by lra. cbn [targetOrbitRadius]. lra.
Defined.

(** *** The registry of visual positions follows the orbs *)

Lemma soundOrbFrame_registered (cam : Camera) (delta : R) (p : Props) (l : LockRefs)
  (orb : Orb) (playerId : PlayerId) (r : OrbRefs) :
  snd (soundOrbFrame cam delta p l orb playerId r) =
  if isCameraMode (p_cameraMode p) then None
  else Some (currentPosition (fst (fst (soundOrbFrame cam delta p l orb playerId r)))).
Proof.
  unfold soundOrbFrame. destruct (isCameraMode (p_cameraMode p)); [reflexivity|].
  destruct (grabDetection p l orb playerId r) as [r1 acts]. reflexivity.
Qed.

Lemma fold_orbFramesStep_registered (cam : Camera) (delta : R) (p : Props) (l : LockRefs)
  (os : list Orb) (keys : list OrbId) (acc : Obj.t Vec3 * Obj.t OrbRefs * list Action) :
  isCameraMode (p_cameraMode p) = false ->
  (forall k, In k keys ->
     exists r, Obj.get (snd (fst acc)) k = Some r /\
               Obj.get (fst (fst acc)) k = Some (currentPosition r)) ->
  forall k, In k (keys ++ map id os)%list ->
    exists r,
      Obj.get (snd (fst (fold_left (orbFramesStep cam delta p l) os acc))) k = Some r /\
      Obj.get (fst (fst (fold_left (orbFramesStep cam delta p l) os acc))) k
      = Some (currentPosition r).
Proof.
  intro Hmode. revert keys acc.
  induction os as [|x os IH]; intros keys [[visual rs] acts] Hacc k Hk.
  - cbn [map] in Hk. rewrite app_nil_r in Hk. now apply Hacc.
  - cbn [fold_left]. apply (IH (keys ++ [id x])%list).
    + rewrite orbFramesStep_eq, soundOrbFrame_registered, Hmode. cbn [fst snd] in *.
      intros k' Hk'. destruct (string_dec (id x) k') as [<-|Hne].
      * rewrite !ObjFacts.get_set_same. eexists. split; reflexivity.
      * rewrite !ObjFacts.get_set_other by exact Hne. apply Hacc.
        apply in_app_or in Hk' as [Hk'|[Hk'|[]]]; [exact Hk'|contradiction].
    + rewrite <- app_assoc. exact Hk.
Qed.

(** The registry after a frame of the default view. *)
Lemma mounted_registry_current (order : FrameOrder) (env : Env)
  (t : HandTracking.Tracking) (w : World) (orb : Orb) :
  isCameraMode (p_cameraMode (appProps (app w) t)) = false ->
  In orb (orbs (app w)) ->
  exists r,
    Obj.get (soundOrbRefs (refs (mountedFrame order env t w))) (id orb) = Some r /\
    Obj.get (orbVisualPositionsRef (refs (mountedFrame order env t w))) (id orb)
    = Some (currentPosition r) /\
    orbPosOf (orbVisualPositionsRef (refs (mountedFrame order env t w))) orb
    = currentPosition (refsOf (soundOrbRefs (refs (mountedFrame order env t w))) orb).
Proof.
  intros Hmode Hin. destruct (mountedFrame_refs order env t w) as (l & Hrs & Hv).
  destruct (fold_orbFramesStep_registered (env_camera env) (env_delta env)
              (appProps (app w) t) l (p_orbs (appProps (app w) t)) []
              (orbVisualPositionsRef (refs w), soundOrbRefs (refs w), [])
              Hmode (fun k (H : In k []) => match H with end) (id orb))
    as (r & Hr & Hpos).
  { cbn [app]. now apply in_map. }
  fold (orbFrames (env_camera env) (env_delta env) (appProps (app w) t) l
          (orbVisualPositionsRef (refs w)) (soundOrbRefs (refs w))) in Hr, Hpos.
  rewrite <- Hrs in Hr. rewrite <- Hv in Hpos.
  exists r. split; [exact Hr|]. split; [exact Hpos|].
  unfold orbPosOf, refsOf. now rewrite Hr, Hpos.
Qed.

(** X20. After a frame of the default view that is not in camera mode, every
    orb of the scene is mounted and registered, and the position the registry
    holds for it, which is the position the next candidate search uses, is
    the current position in its refs.  After a frame of any other view no
    orb is mounted, and the registry holds what it held before. *)
Theorem registry_follows_orbs (order : FrameOrder) (env : Env)
  (t : HandTracking.Tracking) (w : World) :
  (env_viewMode env = "default" ->
   isCameraMode (p_cameraMode (appProps (app w) t)) = false ->
   forall orb, In orb (orbs (app w)) ->
   exists r,
     Obj.get (soundOrbRefs (refs (sceneFrame order env t w))) (id orb) = Some r /\
     Obj.get (orbVisualPositionsRef (refs (sceneFrame order env t w))) (id orb)
     = Some (currentPosition r) /\
     orbPosOf (orbVisualPositionsRef (refs (sceneFrame order env t w))) orb
     = currentPosition (refsOf (soundOrbRefs (refs (sceneFrame order env t w))) orb)) /\
  (env_viewMode env <> "default" ->
   soundOrbRefs (refs (sceneFrame order env t w)) = [] /\
   orbVisualPositionsRef (refs (sceneFrame order env t w)) = orbVisualPositionsRef (refs w)).
Proof.
  split.
  - intros Hv Hmode orb Hin. rewrite (sceneFrame_default order env t w Hv).
    now apply mounted_registry_current.
  - intro Hv. rewrite (sceneFrame_hidden order env t w Hv). now split.
Qed.

Lemma registry_follows_orbs_witness :
  (exists r,
     Obj.get (soundOrbRefs (refs earthHovered)) "earth" = Some r /\
     Obj.get (orbVisualPositionsRef (refs earthHovered)) "earth" = Some (currentPosition r) /\
     orbPosOf (orbVisualPositionsRef (refs earthHovered)) earth
     = currentPosition (refsOf (soundOrbRefs (refs earthHovered)) earth)) /\
  (soundOrbRefs (refs (sceneFrame LockFirst (blackHoleEnv 1266) openAtCentre earthLocked)) = [] /\
   orbVisualPositionsRef (refs (sceneFrame LockFirst (blackHoleEnv 1266) openAtCentre
                                  earthLocked))
   = orbVisualPositionsRef (refs earthLocked)).
Proof.
  split.
  - refine (proj1 (registry_follows_orbs LockFirst (exampleEnv 1000) openAtCentre
                     (initialWorld [earth])) _ _ earth _).
    + reflexivity.
    + reflexivity.
    + now left.
  - apply (proj2 (registry_follows_orbs LockFirst (blackHoleEnv 1266) openAtCentre
                    earthLocked)).
    discriminate.
Defined.

(** *** A fist turns the scene over to the camera *)

Lemma refsOf_set_same (rs : Obj.t OrbRefs) (orb : Orb) (r : OrbRefs) :
  refsOf (Obj.set rs (id orb) r) orb = r.
Proof. unfold refsOf. now rewrite ObjFacts.get_set_same. Qed.

Lemma fold_orbFramesStep_refs_other (cam : Camera) (delta : R) (p : Props) (l : LockRefs)
  (os : list Orb) (acc : Obj.t Vec3 * Obj.t OrbRefs * list Action) (orb : Orb) :
  ~ In (id orb) (map id os) ->
  refsOf (snd (fst (fold_left (orbFramesStep cam delta p l) os acc))) orb =
  refsOf (snd (fst acc)) orb.
Proof.
  revert acc. induction os as [|x os IH]; intros [[visual rs] acts] Hnotin; [reflexivity|].
  cbn [fold_left]. cbn [map In] in Hnotin. rewrite IH by tauto.
  rewrite orbFramesStep_eq. cbn [fst snd]. apply refsOf_set_other. tauto.
Qed.

(** With distinct ids, the refs of each orb after the frames of all orbs are
    those of its own frame run on its own refs. *)
Lemma fold_orbFramesStep_refs_own (cam : Camera) (delta : R) (p : Props) (l : LockRefs)
  (os : list Orb) (acc : Obj.t Vec3 * Obj.t OrbRefs * list Action) (orb : Orb) :
  NoDup (map id os) -> In orb os ->
  refsOf (snd (fst (fold_left (orbFramesStep cam delta p l) os acc))) orb =
  fst (fst (soundOrbFrame cam delta p l orb "player_0" (refsOf (snd (fst acc)) orb))).
Proof.
  revert acc. induction os as [|x os IH]; intros [[visual rs] acts] Hnd Hin; [contradiction|].
  cbn [map] in Hnd. inversion Hnd as [|? ? Hnotin Hnd']; subst. cbn [fold_left].
  destruct Hin as [->|Hin].
  - rewrite fold_orbFramesStep_refs_other by exact Hnotin.
    rewrite orbFramesStep_eq. cbn [fst snd]. apply refsOf_set_same.
  - rewrite (IH _ Hnd' Hin). rewrite orbFramesStep_eq. cbn [fst snd].
    rewrite refsOf_set_other; [reflexivity|].
    intro Heq. apply Hnotin. rewrite Heq. now apply in_map.
Qed.

Lemma fold_orbFramesStep_camera (cam : Camera) (delta : R) (p : Props) (l : LockRefs)
  (os : list Orb) (acc : Obj.t Vec3 * Obj.t OrbRefs * list Action) :
  isCameraMode (p_cameraMode p) = true ->
  fst (fst (fold_left (orbFramesStep cam delta p l) os acc)) = fst (fst acc).
Proof.
  intro Hmode. revert acc. induction os as [|x os IH]; intros [[visual rs] acts]; [reflexivity|].
  cbn [fold_left]. rewrite IH, orbFramesStep_eq, soundOrbFrame_registered, Hmode.
  reflexivity.
Qed.

(** A fist frame of the default view. *)
Lemma mounted_fist_quiet (order : FrameOrder) (env : Env) (t : HandTracking.Tracking)
  (w : World) :
  HandTracking.isTracking t = true ->
  HandTracking.isFist t = true ->
  grabbedOrbs (app w) = [] ->
  app (mountedFrame order env t w) = app w /\
  lock (refs (mountedFrame order env t w)) =
  {| lockedOrbRef := None; lockCandidateRef := None;
     lockStartTimeRef := lockStartTimeRef (lock (refs w)); closestOrbRef := None |} /\
  orbVisualPositionsRef (refs (mountedFrame order env t w)) = orbVisualPositionsRef (refs w) /\
  (NoDup (map id (orbs (app w))) ->
   forall orb, In orb (orbs (app w)) ->
     refsOf (soundOrbRefs (refs (mountedFrame order env t w))) orb =
     updatePlanetPosition orb false (env_delta env) (refsOf (soundOrbRefs (refs w)) orb)).
Proof.
  intros Ht Hf Hg.
  assert (Hp : appProps (app w) t =
               {| p_orbs := orbs (app w); p_grabbedOrbs := [];
                  p_isTracking := true;
                  p_handPosition := HandTracking.handPosition t;
                  p_isPinching := HandTracking.isPinching t;
                  p_isFist := true; p_cameraMode := camera; p_grabbedOrbId := None |}).
  { rewrite appProps_tracked by exact Ht. rewrite Hg, Hf. reflexivity. }
  split; [|split; [|split]].
  - apply mountedFrame_app_quiet. intros l orb r. rewrite Hp. reflexivity.
  - destruct (mountedFrame_lock order env t w) as [visual ->].
    rewrite Hp. apply lockFrame_cleared; [reflexivity|now right].
  - destruct (mountedFrame_refs order env t w) as (l & _ & ->).
    unfold orbFrames. rewrite fold_orbFramesStep_camera; [reflexivity|].
    rewrite Hp. reflexivity.
  - intros Hnd orb Hin. destruct (mountedFrame_refs order env t w) as (l & -> & _).
    unfold orbFrames. rewrite fold_orbFramesStep_refs_own.
    + cbn [fst snd]. rewrite Hp. reflexivity.
    + rewrite Hp. exact Hnd.
    + rewrite Hp. exact Hin.
Qed.

(** X21. A frame in which the tracked hand is a fist and nothing is grabbed,
    in whatever view, whether or not the hand also pinches and whatever the
    lock refs hold: the state of the application is unchanged, so nothing is
    grabbed; lock, candidate and effective target are cleared; and the
    registry of visual positions is not written.  In the default view every
    orb, if the ids of the scene are distinct, moves on along its free orbit;
    in any other view no orb is mounted. *)
Theorem fist_frame_quiet (order : FrameOrder) (env : Env) (t : HandTracking.Tracking)
  (w : World) :
  HandTracking.isTracking t = true ->
  HandTracking.isFist t = true ->
  grabbedOrbs (app w) = [] ->
  app (sceneFrame order env t w) = app w /\
  lock (refs (sceneFrame order env t w)) =
  {| lockedOrbRef := None; lockCandidateRef := None;
     lockStartTimeRef := lockStartTimeRef (lock (refs w)); closestOrbRef := None |} /\
  orbVisualPositionsRef (refs (sceneFrame order env t w)) = orbVisualPositionsRef (refs w) /\
  (env_viewMode env = "default" ->
   NoDup (map id (orbs (app w))) ->
   forall orb, In orb (orbs (app w)) ->
     refsOf (soundOrbRefs (refs (sceneFrame order env t w))) orb =
     updatePlanetPosition orb false (env_delta env) (refsOf (soundOrbRefs (refs w)) orb)) /\
  (env_viewMode env <> "default" -> soundOrbRefs (refs (sceneFrame order env t w)) = []).
Proof.
  intros Ht Hf Hg.
  destruct (sceneFrame_cases order env t w) as [[Hv ->]|[Hv ->]].
  - destruct (mounted_fist_quiet order env t w Ht Hf Hg) as (Happ & Hlock & Hreg & Horb).
    repeat (split; [assumption|]). split; [intros _; exact Horb|intro; contradiction].
  - split; [reflexivity|]. split; [|split; [reflexivity|split; [intro; contradiction|reflexivity]]].
    unfold hiddenFrame. cbn [refs lock]. rewrite (appProps_tracked _ _ Ht), Hg, Hf.
    apply lockFrame_cleared; [reflexivity|now right].
Qed.

Lemma fist_frame_quiet_witness :
  app (sceneFrame LockFirst (exampleEnv 1266) fistAtCentre earthLocked) = app earthLocked /\
  lock (refs (sceneFrame LockFirst (exampleEnv 1266) fistAtCentre earthLocked)) =
  {| lockedOrbRef := None; lockCandidateRef := None;
     lockStartTimeRef := lockStartTimeRef (lock (refs earthLocked)); closestOrbRef := None |} /\
  orbVisualPositionsRef (refs (sceneFrame LockFirst (exampleEnv 1266) fistAtCentre earthLocked))
  = orbVisualPositionsRef (refs earthLocked) /\
  (env_viewMode (exampleEnv 1266) = "default" ->
   NoDup (map id (orbs (app earthLocked))) ->
   forall orb, In orb (orbs (app earthLocked)) ->
     refsOf (soundOrbRefs (refs (sceneFrame LockFirst (exampleEnv 1266) fistAtCentre
                                   earthLocked))) orb =
     updatePlanetPosition orb false (env_delta (exampleEnv 1266))
       (refsOf (soundOrbRefs (refs earthLocked)) orb)) /\
  (env_viewMode (exampleEnv 1266) <> "default" ->
   soundOrbRefs (refs (sceneFrame LockFirst (exampleEnv 1266) fistAtCentre earthLocked)) = []).
Proof.
  destruct earthLocked_state as [HL _].
  apply (fist_frame_quiet LockFirst (exampleEnv 1266) fistAtCentre earthLocked).
  - reflexivity.
  - reflexivity.
  - rewrite HL. reflexivity.
Defined.

End SceneMore.

(** ** Galaxy navigation and the camera *)

Module NavigationFacts.

Import Scene Navigation JSFacts LockFacts.

(** *** The store keeps its navigation fields tidy *)

Lemma applyStoreAction_tidy (s : Store) (act : StoreAction) :
  storeTidy s -> storeTidy (applyStoreAction s act).
Proof.
  intros Hs. destruct act as [mode | level | target | progress |];
    cbn [applyStoreAction].
  - exact Hs.
  - exact Hs.
  - unfold startGalaxyTransition.
    destruct (isTransitioning s) eqn:Ht; cbn [orb]; [exact Hs|].
    destruct (sameId (currentGalaxy s) target) eqn:Hsame; [exact Hs|].
    apply sameId_false_iff in Hsame.
    split; cbn [isTransitioning transitionTarget transitionProgress currentGalaxy];
      [discriminate|]. intros _. split; [congruence|lra].
  - unfold updateTransitionProgress.
    destruct (isTransitioning s) eqn:Ht; cbn [negb]; [|exact Hs].
    destruct (JS.geb progress 1) eqn:Hp.
    + split; cbn [isTransitioning transitionTarget transitionProgress]; [auto|discriminate].
    + apply geb_false_iff in Hp. destruct Hs as [_ Hon].
      split; cbn [isTransitioning transitionTarget transitionProgress currentGalaxy].
      * discriminate.
      * intros _. split; [now apply Hon|exact Hp].
  - split; cbn [isTransitioning transitionTarget transitionProgress]; [auto|discriminate].
Qed.

Lemma fold_applyStoreAction_tidy (acts : list StoreAction) (s : Store) :
  storeTidy s -> storeTidy (fold_left applyStoreAction acts s).
Proof.
  revert s. induction acts as [|act acts IH]; intros s Hs; [exact Hs|].
  cbn [fold_left]. apply IH. now apply applyStoreAction_tidy.
Qed.

Lemma navStep_tidy (st : Store * CameraRig) (e : Event) :
  storeTidy (fst st) -> storeTidy (fst (navStep st e)).
Proof.
  destruct st as [s rig]. cbn [fst]. intro Hs. destruct e as [delta p | act |]; cbn [navStep].
  - destruct (cameraFrame delta p s rig) as [rig' acts]. cbn [fst].
    now apply fold_applyStoreAction_tidy.
  - cbn [fst]. now apply applyStoreAction_tidy.
  - exact Hs.
Qed.

(** X22. Whatever frames run and whatever actions of the store are called,
    in any order, from the initial store: outside a galaxy transition there
    is no transition target and the progress is 0; inside one, the target
    differs from the current galaxy and the progress is below 1. *)
Theorem store_stays_tidy (events : list Event) :
  storeTidy (fst (navRun events (initialStore, initialRig))).
Proof.
  unfold navRun. induction events as [|e events IH] using rev_ind.
  - cbn. split; [auto|discriminate].
  - rewrite fold_left_app. cbn [fold_left]. now apply navStep_tidy.
Qed.

(** *** What a frame does to the store *)

Lemma zoomGesture_cases (z : string) (distanceDelta : R) :
  zoomGesture z distanceDelta = [] \/
  exists level, zoomGesture z distanceDelta = [SetZoomLevel level].
Proof.
  unfold zoomGesture.
  destruct (JS.gtb distanceDelta 0.05); [|destruct (JS.ltb distanceDelta (-0.05))];
    repeat match goal with
           | |- context [if ?b then _ else _] => destruct b
           end; eauto.
Qed.

Lemma cameraFrame_actions (delta : R) (p : CameraProps) (s : Store) (rig : CameraRig) :
  snd (cameraFrame delta p s rig) =
  ((if isTransitioning s
    then [UpdateTransitionProgress (Rmin (transitionProgress s + delta * 0.5) 1)]
    else []) ++
   match twoHands (cp_players p), prevHandDistanceRef rig with
   | Some (hand1, hand2), Some prev =>
       if JS.gtb (Rabs (handDistance hand1 hand2 - prev)) 0.02
       then zoomGesture (zoomLevel s) (handDistance hand1 hand2 - prev)
       else []
   | _, _ => []
   end)%list.
Proof.
  unfold cameraFrame.
  destruct (twoHands (cp_players p)) as [[hand1 hand2]|];
    [destruct (prevHandDistanceRef rig) as [prev|];
     [destruct (JS.gtb (Rabs (handDistance hand1 hand2 - prev)) 0.02)|]|];
    (destruct (findFist (cp_grabbedOrbs p) (cp_players p)) as [[pl fistHand]|];
     [|destruct (cp_handVelocity p) as [hv|];
       [destruct (isCameraMode (cp_cameraMode p) && cp_isFist p)|]]);
    (destruct (shouldCenterCamera rig);
     [destruct (String.eqb (viewMode s) "constellation")|]); reflexivity.
Qed.

Lemma cameraFrame_rig (delta : R) (p : CameraProps) (s : Store) (rig : CameraRig) :
  let rig' := fst (cameraFrame delta p s rig) in
  targetZoomRadius rig' = JS.orElse (zoomRadiusMap (zoomLevel s)) 22 /\
  cameraRadiusRef rig' =
  (if JS.gtb (Rabs (JS.orElse (zoomRadiusMap (zoomLevel s)) 22 - cameraRadiusRef rig)) 0.1
   then cameraRadiusRef rig
        + (JS.orElse (zoomRadiusMap (zoomLevel s)) 22 - cameraRadiusRef rig) * delta * 2
   else cameraRadiusRef rig) /\
  prevHandDistanceRef rig' =
  match twoHands (cp_players p) with
  | Some (hand1, hand2) => Some (handDistance hand1 hand2)
  | None => None
  end /\
  (twoHands (cp_players p) = None -> zoomGestureActiveRef rig' = false) /\
  shouldCenterCamera rig' = false /\
  (theta rig', phi rig') =
  (if shouldCenterCamera rig then
     if String.eqb (viewMode s) "constellation" then (0, PI / 2) else (0, PI / 3)
   else
     match findFist (cp_grabbedOrbs p) (cp_players p) with
     | Some (_, fistHand) =>
         (theta rig + (vx (hand_position fistHand) - 0.5) * 2 * delta * 0.8,
          clampPhi (phi rig - (vy (hand_position fistHand) - 0.5) * 2 * delta * 0.6))
     | None =>
         match cp_handVelocity p with
         | Some handVelocity =>
             if isCameraMode (cp_cameraMode p) && cp_isFist p
             then (theta rig + ux handVelocity * delta * 1.5,
                   clampPhi (phi rig - uy handVelocity * delta * 1.2))
             else (theta rig, phi rig)
         | None => (theta rig, phi rig)
         end
     end).
Proof.
  cbv zeta. unfold cameraFrame.
  destruct (twoHands (cp_players p)) as [[hand1 hand2]|];
    [destruct (prevHandDistanceRef rig) as [prev|];
     [destruct (JS.gtb (Rabs (handDistance hand1 hand2 - prev)) 0.02)|]|];
    (destruct (findFist (cp_grabbedOrbs p) (cp_players p)) as [[pl fistHand]|];
     [|destruct (cp_handVelocity p) as [hv|];
       [destruct (isCameraMode (cp_cameraMode p) && cp_isFist p)|]]);
    (destruct (shouldCenterCamera rig);
     [destruct (String.eqb (viewMode s) "constellation")|]);
    cbn [fst theta phi cameraRadiusRef targetZoomRadius prevHandDistanceRef
         zoomGestureActiveRef shouldCenterCamera];
    repeat split; try reflexivity; try discriminate.
Qed.

(** A frame changes the transition fields of the store as its one call of
    [updateTransitionProgress] does. *)
Lemma frame_store (delta : R) (p : CameraProps) (s : Store) (rig : CameraRig) :
  let s1 := if isTransitioning s
            then updateTransitionProgress (Rmin (transitionProgress s + delta * 0.5) 1) s
            else s in
  let s' := fst (navStep (s, rig) (Frame delta p)) in
  currentGalaxy s' = currentGalaxy s1 /\
  isTransitioning s' = isTransitioning s1 /\
  transitionTarget s' = transitionTarget s1 /\
  transitionProgress s' = transitionProgress s1 /\
  viewMode s' = viewMode s1.
Proof.
  cbv zeta. cbn [navStep].
  pose proof (cameraFrame_actions delta p s rig) as Hacts.
  destruct (cameraFrame delta p s rig) as [rig' acts]. cbn [fst snd] in *. subst acts.
  rewrite fold_left_app.
  assert (Hzoom : forall acts2 s0,
            acts2 = [] \/ (exists level, acts2 = [SetZoomLevel level]) ->
            currentGalaxy (fold_left applyStoreAction acts2 s0) = currentGalaxy s0 /\
            isTransitioning (fold_left applyStoreAction acts2 s0) = isTransitioning s0 /\
            transitionTarget (fold_left applyStoreAction acts2 s0) = transitionTarget s0 /\
            transitionProgress (fold_left applyStoreAction acts2 s0) = transitionProgress s0 /\
            viewMode (fold_left applyStoreAction acts2 s0) = viewMode s0).
  { intros acts2 s0 [->|[level ->]]; cbn; repeat split. }
  match goal with
  | |- context [fold_left applyStoreAction ?acts2 (fold_left applyStoreAction ?acts1 s)] =>
      assert (H1 : fold_left applyStoreAction acts1 s =
                   if isTransitioning s
                   then updateTransitionProgress
                          (Rmin (transitionProgress s + delta * 0.5) 1) s
                   else s) by (destruct (isTransitioning s); reflexivity);
      rewrite H1; apply Hzoom
  end.
  destruct (twoHands (cp_players p)) as [[hand1 hand2]|]; [|now left].
  destruct (prevHandDistanceRef rig) as [prev|]; [|now left].
  destruct (JS.gtb _ 0.02); [apply zoomGesture_cases|now left].
Qed.

(** *** A galaxy transition takes two seconds of frame time *)

Lemma frames_after_transition (events : list Event) (s : Store) (rig : CameraRig) :
  isTransitioning s = false -> Forall isFrame events ->
  isTransitioning (fst (navRun events (s, rig))) = false /\
  currentGalaxy (fst (navRun events (s, rig))) = currentGalaxy s /\
  transitionTarget (fst (navRun events (s, rig))) = transitionTarget s /\
  transitionProgress (fst (navRun events (s, rig))) = transitionProgress s.
Proof.
  revert s rig. induction events as [|e events IH]; intros s rig Hoff Hframes.
  - cbn. auto.
  - inversion Hframes as [|? ? He Hrest]; subst.
    destruct e as [delta p | act |]; try contradiction.
    unfold navRun. cbn [fold_left].
    pose proof (frame_store delta p s rig) as (Hg & Ht & Htg & Hp & _).
    rewrite Hoff in Hg, Ht, Htg, Hp.
    destruct (navStep (s, rig) (Frame delta p)) as [s' rig'] eqn:E. cbn [fst] in *.
    assert (Hoff' : isTransitioning s' = false) by congruence.
    destruct (IH s' rig' Hoff' Hrest) as (H1 & H2 & H3 & H4). unfold navRun in *.
    rewrite H1, H2, H3, H4. auto.
Qed.

Lemma totalTime_nonneg (events : list Event) : Forall isFrame events -> 0 <= totalTime events.
Proof.
  induction 1 as [|e events He _ IH]; cbn [totalTime fold_right]; [lra|].
  fold (totalTime events). destruct e; cbn [frameTime isFrame] in *; try contradiction. lra.
Qed.

Lemma transition_progress (events : list Event) (s : Store) (rig : CameraRig) :
  isTransitioning s = true -> transitionProgress s < 1 -> Forall isFrame events ->
  let s' := fst (navRun events (s, rig)) in
  (transitionProgress s + totalTime events * 0.5 < 1 ->
   isTransitioning s' = true /\
   transitionProgress s' = transitionProgress s + totalTime events * 0.5 /\
   currentGalaxy s' = currentGalaxy s /\
   transitionTarget s' = transitionTarget s) /\
  (1 <= transitionProgress s + totalTime events * 0.5 ->
   isTransitioning s' = false /\
   currentGalaxy s' = transitionTarget s /\
   transitionTarget s' = None /\
   transitionProgress s' = 0).
Proof.
  revert s rig. induction events as [|e events IH]; intros s rig Hon Hlt Hframes; cbv zeta.
  - unfold navRun, totalTime. cbn [fold_left fold_right fst].
    split; [intros _; repeat split; try assumption; lra|intro; lra].
  - inversion Hframes as [|? ? He Hrest]; subst.
    destruct e as [delta p | act |]; try contradiction. cbn [isFrame] in He.
    pose proof (totalTime_nonneg events Hrest) as Hpos.
    cbn [totalTime fold_right frameTime]. fold (totalTime events).
    unfold navRun. cbn [fold_left].
    pose proof (frame_store delta p s rig) as (Hg & Ht & Htg & Hp & _).
    rewrite Hon in Hg, Ht, Htg, Hp. unfold updateTransitionProgress in Hg, Ht, Htg, Hp.
    rewrite Hon in Hg, Ht, Htg, Hp. cbn [negb] in Hg, Ht, Htg, Hp.
    destruct (navStep (s, rig) (Frame delta p)) as [s1 rig1] eqn:E. cbn [fst] in *.
    fold (navRun events (s1, rig1)).
    destruct (JS.geb (Rmin (transitionProgress s + delta * 0.5) 1) 1) eqn:Hdone;
      cbn [currentGalaxy isTransitioning transitionTarget transitionProgress]
        in Hg, Ht, Htg, Hp.
    + apply geb_true_iff in Hdone.
      assert (Hfull : 1 <= transitionProgress s + delta * 0.5).
      { revert Hdone. unfold Rmin. destruct (Rle_dec _ 1); lra. }
      destruct (frames_after_transition events s1 rig1 Ht Hrest) as (H1 & H2 & H3 & H4).
      split; [intro; lra|]. intros _. rewrite H1, H2, H3, H4. auto.
    + apply geb_false_iff in Hdone.
      assert (Hpart : transitionProgress s + delta * 0.5 < 1).
      { revert Hdone. unfold Rmin. destruct (Rle_dec _ 1); lra. }
      rewrite Rmin_left in Hp by lra.
      assert (Hlt1 : transitionProgress s1 < 1) by lra.
      destruct (IH s1 rig1 Ht Hlt1 Hrest) as [Hbefore Hafter].
      rewrite Hp, Hg, Htg in *.
      split; intro Hsum.
      * destruct Hbefore as (H1 & H2 & H3 & H4); [lra|]. rewrite H1, H2, H3, H4.
        repeat split; lra.
      * apply Hafter. lra.
Qed.

(** X23. Once a galaxy transition has started, a run of frames whose frame
    times add up to less than two seconds leaves the transition running, with
    the progress at half the elapsed time and the current galaxy unchanged;
    a run that adds up to two seconds or more has completed it: the target
    has become the current galaxy and the transition fields are reset.
    Zoom gestures made on the way do not change this. *)
Theorem transition_takes_two_seconds (events : list Event) (s : Store) (rig : CameraRig) :
  isTransitioning s = true -> transitionProgress s = 0 -> Forall isFrame events ->
  let s' := fst (navRun events (s, rig)) in
  (totalTime events < 2 ->
   isTransitioning s' = true /\
   transitionProgress s' = totalTime events * 0.5 /\
   currentGalaxy s' = currentGalaxy s /\
   transitionTarget s' = transitionTarget s) /\
  (2 <= totalTime events ->
   isTransitioning s' = false /\
   currentGalaxy s' = transitionTarget s /\
   transitionTarget s' = None /\
   transitionProgress s' = 0).
Proof.
  intros Hon Hzero Hframes. cbv zeta.
  destruct (transition_progress events s rig Hon ltac:(lra) Hframes) as [Hbefore Hafter].
  rewrite Hzero in Hbefore, Hafter. split; intro Hsum.
  - destruct Hbefore as (H1 & H2 & H3 & H4); [lra|]. rewrite H2. repeat split; auto. lra.
  - apply Hafter. lra.
Qed.

Lemma transition_takes_two_seconds_witness :
  isTransitioning (fst (navRun [Frame 1 noPlayers; Frame 1 noPlayers]
                          (towardAndromeda, initialRig))) = false /\
  currentGalaxy (fst (navRun [Frame 1 noPlayers; Frame 1 noPlayers]
                        (towardAndromeda, initialRig))) = transitionTarget towardAndromeda /\
  transitionTarget (fst (navRun [Frame 1 noPlayers; Frame 1 noPlayers]
                           (towardAndromeda, initialRig))) = None /\
  transitionProgress (fst (navRun [Frame 1 noPlayers; Frame 1 noPlayers]
                             (towardAndromeda, initialRig))) = 0.
Proof.
  refine (proj2 (transition_takes_two_seconds [Frame 1 noPlayers; Frame 1 noPlayers]
                   towardAndromeda initialRig _ _ _) _).
  - reflexivity.
  - reflexivity.
  - repeat constructor; cbn [isFrame]; lra.
  - unfold totalTime. cbn [fold_right frameTime]. lra.
Defined.

(** *** The camera keeps off the poles *)

Lemma clampPhi_range (x : R) : 0.3 <= clampPhi x <= PI - 0.3.
Proof.
  pose proof MotionFacts.PI_bounds as Hpi. unfold clampPhi, Rmax, Rmin.
  destruct (Rle_dec (PI - 0.3) x); destruct (Rle_dec 0.3 _); lra.
Qed.

Lemma cameraFrame_phi (delta : R) (p : CameraProps) (s : Store) (rig : CameraRig) :
  phiInRange rig -> phiInRange (fst (cameraFrame delta p s rig)).
Proof.
  intro Hrig. pose proof MotionFacts.PI_bounds as Hpi.
  pose proof (cameraFrame_rig delta p s rig) as (_ & _ & _ & _ & _ & Hangles).
  unfold phiInRange in *.
  assert (Hphi : phi (fst (cameraFrame delta p s rig)) =
                 snd (theta (fst (cameraFrame delta p s rig)),
                      phi (fst (cameraFrame delta p s rig)))) by reflexivity.
  rewrite Hphi, Hangles.
  destruct (shouldCenterCamera rig).
  - destruct (String.eqb (viewMode s) "constellation"); cbn [snd]; lra.
  - destruct (findFist _ _) as [[pl fistHand]|]; [cbn [snd]; apply clampPhi_range|].
    destruct (cp_handVelocity p) as [hv|]; [|exact Hrig].
    destruct (isCameraMode _ && _); [cbn [snd]; apply clampPhi_range|exact Hrig].
Qed.

Lemma navStep_phi (st : Store * CameraRig) (e : Event) :
  phiInRange (snd st) -> phiInRange (snd (navStep st e)).
Proof.
  destruct st as [s rig]. cbn [snd]. intro Hrig. pose proof MotionFacts.PI_bounds as Hpi.
  destruct e as [delta p | act |]; cbn [navStep].
  - pose proof (cameraFrame_phi delta p s rig Hrig) as H.
    destruct (cameraFrame delta p s rig) as [rig' acts]. exact H.
  - cbn [snd]. destruct (_ && _); [|exact Hrig]. unfold phiInRange. cbn [enterConstellation phi].
    lra.
  - exact Hrig.
Qed.

(** X24. After any run of frames, store actions and presses of the centre
    button from the initial rig, with any players and any frame times, the
    polar angle of the camera is between 0.3 and pi minus 0.3, so the cosine
    that gives the height of the orbital camera is at most the cosine of 0.3
    in absolute value: the camera never reaches the vertical axis. *)
Theorem camera_keeps_off_the_poles (events : list Event) (s : Store) :
  phiInRange (snd (navRun events (s, initialRig))) /\
  Rabs (cos (phi (snd (navRun events (s, initialRig))))) <= cos 0.3 /\
  cos 0.3 < 1.
Proof.
  pose proof MotionFacts.PI_bounds as Hpi.
  assert (Hrange : phiInRange (snd (navRun events (s, initialRig)))).
  { unfold navRun. induction events as [|e events IH] using rev_ind.
    - unfold phiInRange. cbn [fold_left snd initialRig phi]. lra.
    - rewrite fold_left_app. cbn [fold_left]. now apply navStep_phi. }
  split; [exact Hrange|]. unfold phiInRange in Hrange.
  set (x := phi (snd (navRun events (s, initialRig)))) in *.
  split.
  - apply Rabs_le. split.
    + replace (- cos 0.3) with (cos (PI - 0.3))
        by (rewrite cos_minus, cos_PI, sin_PI; ring).
      apply cos_decr_1; lra.
    + apply cos_decr_1; lra.
  - rewrite <- cos_0. apply cos_decreasing_1; lra.
Qed.

(** *** The two-hand zoom gesture *)

Lemma zoomGesture_inv (z : string) (distanceDelta : R) (level : string) :
  In (SetZoomLevel level) (zoomGesture z distanceDelta) ->
  zoomGesture z distanceDelta = [SetZoomLevel level] /\
  ((0.05 < distanceDelta /\
    ((z = "solar_system" /\ level = "galaxy_view") \/
     (z = "galaxy_view" /\ level = "universe_view"))) \/
   (distanceDelta < -0.05 /\
    ((z = "universe_view" /\ level = "galaxy_view") \/
     (z = "galaxy_view" /\ level = "solar_system")))).
Proof.
  unfold zoomGesture.
  destruct (JS.gtb distanceDelta 0.05) eqn:Hout.
  - apply gtb_true_iff in Hout.
    destruct (String.eqb_spec z "solar_system") as [->|_].
    + intros [H|[]]. injection H as <-. split; [reflexivity|]. left. tauto.
    + destruct (String.eqb_spec z "galaxy_view") as [->|_]; [|intros []].
      intros [H|[]]. injection H as <-. split; [reflexivity|]. left. tauto.
  - destruct (JS.ltb distanceDelta (-0.05)) eqn:Hin_; [|intros []].
    apply ltb_true_iff in Hin_.
    destruct (String.eqb_spec z "universe_view") as [->|_].
    + intros [H|[]]. injection H as <-. split; [reflexivity|]. right. tauto.
    + destruct (String.eqb_spec z "galaxy_view") as [->|_]; [|intros []].
      intros [H|[]]. injection H as <-. split; [reflexivity|]. right. tauto.
Qed.

Lemma players_one_hand (t : HandTracking.Tracking) : twoHands (players t) = None.
Proof. unfold players. destruct (negb (HandTracking.isTracking t)); reflexivity. Qed.

(** X25. The camera frame calls [setZoomLevel] only on a two-hand gesture:
    the first player shows two hands, the distance between them was recorded
    in the frame before, and it has changed by more than 0.05.  The level
    then moves one step, outward when the hands spread and inward when they
    close, and at most one such call is made in a frame.  Without two hands
    the recorded distance and the gesture flag are reset.  In single-player
    mode, where the player has one hand, the camera frame never calls
    [setZoomLevel]: it leaves the zoom level as it is, except in the frame
    that completes a galaxy transition, which resets it to the solar
    system. *)
Theorem zoom_gesture_rule (delta : R) (p : CameraProps) (s : Store) (rig : CameraRig) :
  (forall level,
     In (SetZoomLevel level) (snd (cameraFrame delta p s rig)) ->
     adjacentLevels (zoomLevel s) level /\
     exists hand1 hand2 prev,
       twoHands (cp_players p) = Some (hand1, hand2) /\
       prevHandDistanceRef rig = Some prev /\
       ((0.05 < handDistance hand1 hand2 - prev /\
         ((zoomLevel s = "solar_system" /\ level = "galaxy_view") \/
          (zoomLevel s = "galaxy_view" /\ level = "universe_view"))) \/
        (handDistance hand1 hand2 - prev < -0.05 /\
         ((zoomLevel s = "universe_view" /\ level = "galaxy_view") \/
          (zoomLevel s = "galaxy_view" /\ level = "solar_system"))))) /\
  (exists before,
     (forall level, ~ In (SetZoomLevel level) before) /\
     (snd (cameraFrame delta p s rig) = before \/
      exists level, snd (cameraFrame delta p s rig) = (before ++ [SetZoomLevel level])%list)) /\
  (twoHands (cp_players p) = None ->
   prevHandDistanceRef (fst (cameraFrame delta p s rig)) = None /\
   zoomGestureActiveRef (fst (cameraFrame delta p s rig)) = false) /\
  (forall a t level,
     ~ In (SetZoomLevel level) (snd (cameraFrame delta (singlePlayerProps a t) s rig))) /\
  (forall a t,
     zoomLevel (fst (navStep (s, rig) (Frame delta (singlePlayerProps a t)))) =
     if isTransitioning s && JS.geb (transitionProgress s + delta * 0.5) 1
     then "solar_system" else zoomLevel s).
Proof.
  assert (Hin : forall q level,
            In (SetZoomLevel level) (snd (cameraFrame delta q s rig)) ->
            exists hand1 hand2 prev,
              twoHands (cp_players q) = Some (hand1, hand2) /\
              prevHandDistanceRef rig = Some prev /\
              In (SetZoomLevel level)
                 (zoomGesture (zoomLevel s) (handDistance hand1 hand2 - prev))).
  { intros q level. rewrite cameraFrame_actions. intro H.
    apply in_app_or in H as [H|H].
    - destruct (isTransitioning s); [destruct H as [H|[]]; discriminate|contradiction].
    - destruct (twoHands (cp_players q)) as [[hand1 hand2]|]; [|contradiction].
      destruct (prevHandDistanceRef rig) as [prev|]; [|contradiction].
      destruct (JS.gtb _ 0.02); [|contradiction].
      now exists hand1, hand2, prev. }
  split; [|split; [|split; [|split]]].
  - intros level H. destruct (Hin p level H) as (hand1 & hand2 & prev & Hh & Hprev & Hz).
    apply zoomGesture_inv in Hz as [_ Hdir].
    split; [unfold adjacentLevels; tauto|]. now exists hand1, hand2, prev.
  - rewrite cameraFrame_actions.
    exists (if isTransitioning s
            then [UpdateTransitionProgress (Rmin (transitionProgress s + delta * 0.5) 1)]
            else []).
    split.
    + intros level H. destruct (isTransitioning s); [destruct H as [H|[]]; discriminate|exact H].
    + destruct (twoHands (cp_players p)) as [[hand1 hand2]|];
        [|left; apply app_nil_r].
      destruct (prevHandDistanceRef rig) as [prev|]; [|left; apply app_nil_r].
      destruct (JS.gtb _ 0.02); [|left; apply app_nil_r].
      destruct (zoomGesture_cases (zoomLevel s) (handDistance hand1 hand2 - prev))
        as [->|[level ->]]; [left; apply app_nil_r|right; now exists level].
  - intro Hnone.
    pose proof (cameraFrame_rig delta p s rig) as (_ & _ & Hprev & Hactive & _).
    rewrite Hnone in Hprev. split; [exact Hprev|now apply Hactive].
  - intros a t level H. destruct (Hin _ level H) as (hand1 & hand2 & prev & Hh & _).
    cbn [singlePlayerProps cp_players] in Hh. rewrite players_one_hand in Hh. discriminate.
  - intros a t. cbn [navStep].
    pose proof (cameraFrame_actions delta (singlePlayerProps a t) s rig) as Hacts.
    destruct (cameraFrame delta (singlePlayerProps a t) s rig) as [rig' acts].
    cbn [fst snd] in *. subst acts.
    cbn [singlePlayerProps cp_players]. rewrite players_one_hand, app_nil_r.
    destruct (isTransitioning s) eqn:Ht; cbn [andb fold_left]; [|reflexivity].
    cbn [applyStoreAction]. unfold updateTransitionProgress. rewrite Ht. cbn [negb].
    assert (Hsame : JS.geb (Rmin (transitionProgress s + delta * 0.5) 1) 1
                    = JS.geb (transitionProgress s + delta * 0.5) 1).
    { destruct (Rle_lt_dec 1 (transitionProgress s + delta * 0.5)) as [E|E].
      - rewrite Rmin_right by lra.
        rewrite (proj2 (geb_true_iff _ _) E). apply geb_true_iff. lra.
      - rewrite Rmin_left by lra. reflexivity. }
    rewrite Hsame.
    destruct (JS.geb (transitionProgress s + delta * 0.5) 1); reflexivity.
Qed.

(** *** The zoom radius *)

Lemma zoomRadiusMap_values (z : string) :
  JS.orElse (zoomRadiusMap z) 22 = 22 \/
  JS.orElse (zoomRadiusMap z) 22 = 150 \/
  JS.orElse (zoomRadiusMap z) 22 = 400.
Proof.
  unfold zoomRadiusMap.
  destruct (String.eqb z "solar_system"); [left; apply orElse_Some; lra|].
  destruct (String.eqb z "galaxy_view"); [right; left; apply orElse_Some; lra|].
  destruct (String.eqb z "universe_view"); [right; right; apply orElse_Some; lra|].
  now left.
Qed.

(** X26. In every frame the target radius of the camera is 22, 150 or 400,
    the one of the store's zoom level, and 22 for any other level.  A camera
    radius within 0.1 of the target is left alone; otherwise the remaining
    difference is multiplied by one minus twice the frame time, so with a
    frame time of at most half a second the radius moves toward the target
    without passing it. *)
Theorem zoom_radius_approach (delta : R) (p : CameraProps) (s : Store) (rig : CameraRig) :
  let rig' := fst (cameraFrame delta p s rig) in
  (targetZoomRadius rig' = 22 \/ targetZoomRadius rig' = 150 \/ targetZoomRadius rig' = 400) /\
  (zoomLevel s = "solar_system" -> targetZoomRadius rig' = 22) /\
  (zoomLevel s = "galaxy_view" -> targetZoomRadius rig' = 150) /\
  (zoomLevel s = "universe_view" -> targetZoomRadius rig' = 400) /\
  (Rabs (targetZoomRadius rig' - cameraRadiusRef rig) <= 0.1 ->
   cameraRadiusRef rig' = cameraRadiusRef rig) /\
  (0.1 < Rabs (targetZoomRadius rig' - cameraRadiusRef rig) ->
   targetZoomRadius rig' - cameraRadiusRef rig'
   = (1 - 2 * delta) * (targetZoomRadius rig' - cameraRadiusRef rig)) /\
  (0 <= delta <= 0.5 ->
   Rmin (cameraRadiusRef rig) (targetZoomRadius rig') <= cameraRadiusRef rig'
   <= Rmax (cameraRadiusRef rig) (targetZoomRadius rig')).
Proof.
  cbv zeta.
  pose proof (cameraFrame_rig delta p s rig) as (Htarget & Hradius & _).
  rewrite Htarget, Hradius.
  split; [apply zoomRadiusMap_values|].
  split; [intros ->; apply orElse_Some; lra|].
  split; [intros ->; apply orElse_Some; lra|].
  split; [intros ->; apply orElse_Some; lra|].
  set (target := JS.orElse (zoomRadiusMap (zoomLevel s)) 22).
  destruct (JS.gtb (Rabs (target - cameraRadiusRef rig)) 0.1) eqn:Hfar.
  - apply gtb_true_iff in Hfar.
    split; [intro; lra|]. split; [intros _; ring|].
    intros [Hlo Hhi]. unfold Rmin, Rmax.
    destruct (Rle_dec (cameraRadiusRef rig) target); nra.
  - apply gtb_false_iff in Hfar.
    split; [reflexivity|]. split; [intro; lra|].
    intros _. unfold Rmin, Rmax. destruct (Rle_dec (cameraRadiusRef rig) target); lra.
Qed.

(** *** Rotation in single-player mode *)

Lemma findFist_single (a : App) (t : HandTracking.Tracking) :
  findFist (grabbedOrbs a) (players t) =
  if isCameraMode (p_cameraMode (appProps a t))
  then Some ({| player_id := "player_0";
                hands := [ {| hand_position := HandTracking.handPosition t;
                              hand_isPinching := HandTracking.isPinching t;
                              hand_isFist := HandTracking.isFist t |} ] |},
             {| hand_position := HandTracking.handPosition t;
                hand_isPinching := HandTracking.isPinching t;
                hand_isFist := HandTracking.isFist t |})
  else None.
Proof.
  unfold appProps, getCameraMode, players. cbn [p_cameraMode].
  destruct (HandTracking.isTracking t); cbn [negb findFist find]; [|reflexivity].
  cbn [player_id hands find String.eqb Ascii.eqb Bool.eqb hand_isFist].
  destruct (JS.truthy (Obj.get (grabbedOrbs a) "player_0"));
    destruct (HandTracking.isFist t); reflexivity.
Qed.

(** X27. In single-player mode, in a frame without a centring request, the
    camera turns exactly when the camera mode is [camera].  It then turns by
    the offset of the fist from the centre of the screen, with the polar
    angle clamped, and not by the hand's velocity: the branch of the frame
    that reads the velocity is never taken.  In every other mode the angles
    are left alone. *)
Theorem single_player_rotation (delta : R) (a : App) (t : HandTracking.Tracking)
  (s : Store) (rig : CameraRig) :
  shouldCenterCamera rig = false ->
  let rig' := fst (cameraFrame delta (singlePlayerProps a t) s rig) in
  (p_cameraMode (appProps a t) = camera ->
   theta rig' = theta rig + (vx (HandTracking.handPosition t) - 0.5) * 2 * delta * 0.8 /\
   phi rig' = clampPhi (phi rig - (vy (HandTracking.handPosition t) - 0.5) * 2 * delta * 0.6)) /\
  (p_cameraMode (appProps a t) <> camera ->
   theta rig' = theta rig /\ phi rig' = phi rig).
Proof.
  intro Hcentre. cbv zeta.
  pose proof (cameraFrame_rig delta (singlePlayerProps a t) s rig)
    as (_ & _ & _ & _ & _ & Hangles).
  rewrite Hcentre in Hangles. cbn [singlePlayerProps cp_players cp_grabbedOrbs] in Hangles.
  rewrite findFist_single in Hangles.
  split.
  - intro Hmode. rewrite Hmode in Hangles. cbn [isCameraMode hand_position] in Hangles.
    injection Hangles as -> ->. now split.
  - intro Hmode.
    destruct (p_cameraMode (appProps a t)) eqn:E; try contradiction;
      cbn [singlePlayerProps isCameraMode cp_handVelocity cp_cameraMode andb] in Hangles;
      rewrite ?E in Hangles; cbn [isCameraMode andb] in Hangles;
      injection Hangles as -> ->; now split.
Qed.
Lemma single_player_rotation_witness :
  (p_cameraMode (appProps earthApp fistAtCentre) = camera ->
   theta (fst (cameraFrame 0.016 (singlePlayerProps earthApp fistAtCentre) initialStore
                 initialRig))
   = theta initialRig + (vx (HandTracking.handPosition fistAtCentre) - 0.5) * 2 * 0.016 * 0.8 /\
   phi (fst (cameraFrame 0.016 (singlePlayerProps earthApp fistAtCentre) initialStore
               initialRig))
   = clampPhi (phi initialRig
               - (vy (HandTracking.handPosition fistAtCentre) - 0.5) * 2 * 0.016 * 0.6)) /\
  (p_cameraMode (appProps earthApp fistAtCentre) <> camera ->
   theta (fst (cameraFrame 0.016 (singlePlayerProps earthApp fistAtCentre) initialStore
                 initialRig)) = theta initialRig /\
   phi (fst (cameraFrame 0.016 (singlePlayerProps earthApp fistAtCentre) initialStore
               initialRig)) = phi initialRig).
Proof.
  apply (single_player_rotation 0.016 earthApp fistAtCentre initialStore initialRig).
  reflexivity.
Defined.

(** *** The centre button fires once per pinch *)

Lemma buttonFrame_fired (position : Vec3) (i : ButtonInput) (b : ButtonState) :
  snd (buttonFrame position i b) = true ->
  vx (bi_handPosition i) <> 0 /\ buttonInRange position i = true /\
  bi_isPinching i = true /\ wasActivated b = false /\
  wasActivated (fst (buttonFrame position i b)) = true.
Proof.
  unfold buttonFrame. destruct (Req_dec_T (vx (bi_handPosition i)) 0) as [Hz|Hnz];
    cbn [fst snd]; [discriminate|].
  intro Hfired. rewrite Hfired.
  apply andb_prop in Hfired as [Hfired Hw]. apply andb_prop in Hfired as [Hr Hp].
  apply negb_true_iff in Hw. rewrite Hp. cbn [negb wasActivated]. tauto.
Qed.

Lemma buttonFrame_held (position : Vec3) (i : ButtonInput) (b : ButtonState) :
  bi_isPinching i = true -> wasActivated b = true ->
  snd (buttonFrame position i b) = false /\
  wasActivated (fst (buttonFrame position i b)) = true.
Proof.
  intros Hp Hw. unfold buttonFrame.
  destruct (Req_dec_T (vx (bi_handPosition i)) 0); cbn [fst snd wasActivated]; [now split|].
  rewrite Hp, Hw. cbn [negb andb]. rewrite andb_false_r. now split.
Qed.

Lemma buttonRun_held (position : Vec3) (inputs : list ButtonInput) (acc : ButtonState * nat) :
  (forall i, In i inputs -> bi_isPinching i = true) ->
  wasActivated (fst acc) = true ->
  snd (fold_left (buttonStep position) inputs acc) = snd acc.
Proof.
  revert acc. induction inputs as [|i inputs IH]; intros [b n] Hp Hw; [reflexivity|].
  cbn [fold_left]. cbn [fst] in Hw.
  destruct (buttonFrame_held position i b (Hp i (or_introl eq_refl)) Hw) as [Hf Hw'].
  rewrite IH.
  - unfold buttonStep. cbn [fst snd].
    destruct (buttonFrame position i b) as [b' fired]. cbn [snd] in *. now rewrite Hf.
  - intros j Hj. apply Hp. now right.
  - unfold buttonStep. cbn [fst snd].
    destruct (buttonFrame position i b) as [b' fired]. exact Hw'.
Qed.

(** X28. The centre button calls [onCenter] in a frame only if the cursor is
    within reach of the button, the hand pinches and the button has not fired
    since the hand last stopped pinching; having fired it is marked as
    activated.  Over any run of frames in which the pinch is held, it fires
    at most once, and not at all if it was already activated. *)
Theorem center_button_fires_once (position : Vec3) (inputs : list ButtonInput)
  (b : ButtonState) :
  (forall i, In i inputs -> bi_isPinching i = true) ->
  (snd (buttonRun position inputs b) <= 1)%nat /\
  (wasActivated b = true -> snd (buttonRun position inputs b) = O) /\
  (forall i b0,
     snd (buttonFrame position i b0) = true ->
     vx (bi_handPosition i) <> 0 /\ buttonInRange position i = true /\
     bi_isPinching i = true /\ wasActivated b0 = false /\
     wasActivated (fst (buttonFrame position i b0)) = true).
Proof.
  intro Hp. unfold buttonRun. split; [|split].
  - revert b. induction inputs as [|i inputs IH]; intro b; [cbn; lia|].
    cbn [fold_left]. unfold buttonStep at 2. cbn [fst snd].
    destruct (buttonFrame position i b) as [b' fired] eqn:E.
    destruct fired.
    + pose proof (buttonFrame_fired position i b) as Hf. rewrite E in Hf.
      destruct (Hf eq_refl) as (_ & _ & _ & _ & Hw).
      rewrite buttonRun_held; [cbn [snd]; lia| |exact Hw].
      intros j Hj. apply Hp. now right.
    + apply IH. intros j Hj. apply Hp. now right.
  - intro Hw. now apply (buttonRun_held position inputs (b, O)).
  - intros i b0. apply buttonFrame_fired.
Qed.

Lemma center_button_fires_once_witness :
  (snd (buttonRun (vec3 8 6 0) [pinchOnButton; pinchOnButton; pinchOnButton]
          {| isHovered := false; wasActivated := false |}) <= 1)%nat.
Proof.
  refine (proj1 (center_button_fires_once (vec3 8 6 0)
                   [pinchOnButton; pinchOnButton; pinchOnButton]
                   {| isHovered := false; wasActivated := false |} _)).
  intros i Hi. repeat (destruct Hi as [<-|Hi]; [reflexivity|]). destruct Hi.
Defined.

(** *** The camera settles in the black-hole view *)

Lemma lerpVec_toward (a b : Vec3) (alpha : R) :
  vx (lerpVec a b alpha) - vx b = (1 - alpha) * (vx a - vx b) /\
  vy (lerpVec a b alpha) - vy b = (1 - alpha) * (vy a - vy b) /\
  vz (lerpVec a b alpha) - vz b = (1 - alpha) * (vz a - vz b).
Proof. unfold lerpVec. cbn [vx vy vz]. repeat split; ring. Qed.

Lemma cameraFrame_position (delta : R) (p : CameraProps) (s : Store) (rig : CameraRig) :
  camera_position (fst (cameraFrame delta p s rig)) =
  lerpVec (camera_position rig)
    (targetCamPos (viewMode s) (cameraRadiusRef (fst (cameraFrame delta p s rig)))
       (theta (fst (cameraFrame delta p s rig))) (phi (fst (cameraFrame delta p s rig))))
    0.1.
Proof.
  unfold cameraFrame.
  destruct (twoHands (cp_players p)) as [[hand1 hand2]|];
    [destruct (prevHandDistanceRef rig) as [prev|];
     [destruct (JS.gtb (Rabs (handDistance hand1 hand2 - prev)) 0.02)|]|];
    (destruct (findFist (cp_grabbedOrbs p) (cp_players p)) as [[pl fistHand]|];
     [|destruct (cp_handVelocity p) as [hv|];
       [destruct (isCameraMode (cp_cameraMode p) && cp_isFist p)|]]);
    (destruct (shouldCenterCamera rig);
     [destruct (String.eqb (viewMode s) "constellation")|]); reflexivity.
Qed.

Lemma applyStoreAction_viewMode (s : Store) (act : StoreAction) :
  keepsView (Dispatch act) -> viewMode (applyStoreAction s act) = viewMode s.
Proof.
  destruct act as [mode | level | target | progress |]; cbn [keepsView applyStoreAction];
    try contradiction; intros _; try reflexivity.
  - unfold startGalaxyTransition. destruct (_ || _); reflexivity.
  - unfold updateTransitionProgress. destruct (negb _); [reflexivity|].
    destruct (JS.geb _ 1); reflexivity.
Qed.

(** X29. While the view mode stays that of the black hole, that is, over any
    run of camera frames, presses of the centre button and store actions
    other than a change of view mode, every camera frame takes the camera a
    tenth of the way to the point (0, 2, 5), whatever the hands do in it:
    after the run each coordinate's distance to that point is 0.9 to the
    power of the number of camera frames times what it was. *)
Theorem black_hole_camera_settles (events : list Event) (s : Store) (rig : CameraRig) :
  viewMode s = "black_hole" -> Forall keepsView events ->
  let st := navRun events (s, rig) in
  viewMode (fst st) = "black_hole" /\
  vx (camera_position (snd st)) - 0
  = 0.9 ^ frameCount events * (vx (camera_position rig) - 0) /\
  vy (camera_position (snd st)) - 2
  = 0.9 ^ frameCount events * (vy (camera_position rig) - 2) /\
  vz (camera_position (snd st)) - 5
  = 0.9 ^ frameCount events * (vz (camera_position rig) - 5).
Proof.
  intros Hmode Hkeep. cbv zeta. revert s rig Hmode.
  induction Hkeep as [|e events He Hrest IH]; intros s rig Hmode.
  - unfold frameCount. cbn [navRun fold_left fst snd filter List.length pow].
    repeat split; [exact Hmode|ring..].
  - destruct e as [delta p | act |].
    + unfold navRun, frameCount. cbn [fold_left filter List.length pow].
      fold (frameCount events).
      pose proof (frame_store delta p s rig) as (_ & _ & _ & _ & Hview).
      pose proof (cameraFrame_position delta p s rig) as Hpos.
      assert (Hview1 : viewMode (fst (navStep (s, rig) (Frame delta p))) = "black_hole").
      { rewrite Hview. destruct (isTransitioning s) eqn:Ht; [|exact Hmode].
        unfold updateTransitionProgress. rewrite Ht. cbn [negb].
        destruct (JS.geb _ 1); exact Hmode. }
      assert (Hrig1 : snd (navStep (s, rig) (Frame delta p)) = fst (cameraFrame delta p s rig)).
      { cbn [navStep]. destruct (cameraFrame delta p s rig) as [rig' acts]. reflexivity. }
      destruct (navStep (s, rig) (Frame delta p)) as [s1 rig1] eqn:E. cbn [fst snd] in *.
      subst rig1. fold (navRun events (s1, fst (cameraFrame delta p s rig))).
      destruct (IH s1 (fst (cameraFrame delta p s rig)) Hview1) as (Hv & Hx & Hy & Hz).
      rewrite Hx, Hy, Hz, Hpos, Hmode.
      change (targetCamPos "black_hole" _ _ _) with (vec3 0 2 5).
      destruct (lerpVec_toward (camera_position rig) (vec3 0 2 5) 0.1) as (Lx & Ly & Lz).
      cbn [vx vy vz] in Lx, Ly, Lz. rewrite Lx, Ly, Lz.
      replace (1 - 0.1) with 0.9 by lra.
      split; [exact Hv|]. repeat split; ring.
    + unfold navRun, frameCount. cbn [fold_left filter navStep].
      fold (frameCount events).
      pose proof (applyStoreAction_viewMode s act He) as Hview.
      rewrite Hview, String.eqb_refl. cbn [negb andb].
      fold (navRun events (applyStoreAction s act, rig)).
      apply IH. now rewrite Hview.
    + unfold navRun, frameCount. cbn [fold_left filter navStep].
      fold (frameCount events). fold (navRun events (s, pressCenter rig)).
      exact (IH s (pressCenter rig) Hmode).
Qed.

Lemma black_hole_camera_settles_witness :
  viewMode (fst (navRun [Frame 0.016 noPlayers; Dispatch (SetZoomLevel "galaxy_view");
                        Frame 0.016 noPlayers] (blackHoleStore, initialRig)))
  = "black_hole" /\
  vx (camera_position (snd (navRun [Frame 0.016 noPlayers;
                                    Dispatch (SetZoomLevel "galaxy_view");
                                    Frame 0.016 noPlayers] (blackHoleStore, initialRig)))) - 0
  = 0.9 ^ frameCount [Frame 0.016 noPlayers; Dispatch (SetZoomLevel "galaxy_view");
                      Frame 0.016 noPlayers]
    * (vx (camera_position initialRig) - 0) /\
  vy (camera_position (snd (navRun [Frame 0.016 noPlayers;
                                    Dispatch (SetZoomLevel "galaxy_view");
                                    Frame 0.016 noPlayers] (blackHoleStore, initialRig)))) - 2
  = 0.9 ^ frameCount [Frame 0.016 noPlayers; Dispatch (SetZoomLevel "galaxy_view");
                      Frame 0.016 noPlayers]
    * (vy (camera_position initialRig) - 2) /\
  vz (camera_position (snd (navRun [Frame 0.016 noPlayers;
                                    Dispatch (SetZoomLevel "galaxy_view");
                                    Frame 0.016 noPlayers] (blackHoleStore, initialRig)))) - 5
  = 0.9 ^ frameCount [Frame 0.016 noPlayers; Dispatch (SetZoomLevel "galaxy_view");
                      Frame 0.016 noPlayers]
    * (vz (camera_position initialRig) - 5).
Proof.
  apply (black_hole_camera_settles
           [Frame 0.016 noPlayers; Dispatch (SetZoomLevel "galaxy_view"); Frame 0.016 noPlayers]
           blackHoleStore initialRig).
  - reflexivity.
  - repeat constructor.
Defined.

End NavigationFacts.
